(** * The i.MX27 timer odometer (odo.c): model and verified properties

    The driver extends the 32-bit pulse counter of a general purpose timer
    (GPT) of the i.MX27 into a 64-bit odometer, keeps access telemetry, and
    publishes both through sysfs attributes.  The code is embedded as
    functions in a small state monad over a [world]: the driver's private
    structure, the ioremapped register block, the kernel tick counter and a
    log of the MMIO accesses that were issued.

    Data model.  The i.MX27 is an ARM9 (ILP32): [int], [unsigned int] and
    [unsigned long] are 32 bits wide, [u64] is 64 bits wide.  Every integer
    is a [Z] with its wrap-around written out. *)

From Stdlib Require Import ZArith Lia Bool List String Ascii Sorted.
From stdpp Require Import base option list sorting gmap strings pretty.

Local Open Scope Z_scope.

(** ** C integers *)

Module Int.

(** Conversion to [unsigned int] / [unsigned long] / [u32]. *)
Definition u32 (z : Z) : Z := z mod 2 ^ 32.

(** Conversion to [int] (two's complement). *)
Definition s32 (z : Z) : Z := (z + 2 ^ 31) mod 2 ^ 32 - 2 ^ 31.

(** Conversion to [u64] / [unsigned long long]. *)
Definition u64 (z : Z) : Z := z mod 2 ^ 64.

(** [a << n] on [int].  The C standard leaves the shift undefined when the
    result does not fit; the ARM compiler output keeps the low 32 bits,
    which is what is modelled. *)
Definition shl (a n : Z) : Z := s32 (Z.shiftl a n).

End Int.

Import Int.

(** ** Register map and constants (the #defines of odo.c) *)

Definition MEM_BASE : Z := 0x10000000.
Definition MEM_GPT_OFFSET : list Z :=
  [0x3000; 0x4000; 0x5000; 0x19000; 0x1A000; 0x1F000].
Definition GPT_TIN : list Z := [79; 79; 79; 91; 89; 78].
Definition MEM_LENGTH : Z := 0x18.

Definition TCTL_REG : Z := 0x0.
Definition TPRER_REG : Z := 0x4.
Definition TCMP_REG : Z := 0x8.
Definition TCN_REG : Z := 0x10.
Definition TSTAT_REG : Z := 0x14.

(** A field is a pair (position, size), as in the macros. *)
Definition TCTL_TEN : Z * Z := (0, 1).
Definition TCTL_CLKSOURCE : Z * Z := (1, 3).
Definition TCTL_COMP_EN : Z * Z := (4, 1).
Definition TCTL_FRR : Z * Z := (8, 1).
Definition TCTL_CC : Z * Z := (10, 1).
Definition TCMP_CMP : Z * Z := (0, 32).
Definition TPRER_PRESCALER : Z * Z := (0, 10).
Definition TSTAT_COMP : Z := 0x1.

(** ** The driver state *)

(** [struct _odo]; the kobject pointer is left out and the [vmem] mapping
    is the register block of the [world] below. *)
Record _odo := Mk_odo {
  gpt_base : Z;
  counter_ms : Z;
  counter_ls : Z;
  nb_access : Z;
  first_access : Z;
  last_access : Z
}.

(** What the driver does to the outside world, in program order. *)
Inductive io_event :=
| IoRead (off val : Z)
| IoWrite (off val : Z)
| Sleep (ms : Z).

Record world := World {
  odo : _odo;
  vmem : gmap Z Z;
  jiffies : Z;
  io_log : list io_event
}.

(** ** A state monad over the world *)

Definition M (A : Type) : Type := world -> A * world.

Definition ret {A} (a : A) : M A := fun w => (a, w).
Definition bind {A B} (m : M A) (k : A -> M B) : M B :=
  fun w => let (a, w1) := m w in k a w1.

Notation "x <~ m ;; k" := (bind m (fun x => k))
  (at level 100, m at next level, right associativity).
Notation "m ;; k" := (bind m (fun _ => k))
  (at level 100, right associativity).

Definition get_odo : M _odo := fun w => (odo w, w).
Definition put_odo (o : _odo) : M unit :=
  fun w => (tt, World o (vmem w) (jiffies w) (io_log w)).
Definition get_jiffies : M Z := fun w => (jiffies w, w).

Definition when (b : bool) (m : M unit) : M unit := if b then m else ret tt.

(** Field assignments on [odo->...]. *)
Definition set_counter_ms (x : Z) (o : _odo) : _odo :=
  Mk_odo (gpt_base o) x (counter_ls o) (nb_access o) (first_access o) (last_access o).
Definition set_counter_ls (x : Z) (o : _odo) : _odo :=
  Mk_odo (gpt_base o) (counter_ms o) x (nb_access o) (first_access o) (last_access o).
Definition set_nb_access (x : Z) (o : _odo) : _odo :=
  Mk_odo (gpt_base o) (counter_ms o) (counter_ls o) x (first_access o) (last_access o).
Definition set_first_access (x : Z) (o : _odo) : _odo :=
  Mk_odo (gpt_base o) (counter_ms o) (counter_ls o) (nb_access o) x (last_access o).
Definition set_last_access (x : Z) (o : _odo) : _odo :=
  Mk_odo (gpt_base o) (counter_ms o) (counter_ls o) (nb_access o) (first_access o) x.

Definition modify_odo (f : _odo -> _odo) : M unit :=
  o <~ get_odo ;; put_odo (f o).

(** ** Memory-mapped I/O *)

(** The 32-bit word the register at byte offset [off] currently holds. *)
Definition reg_word (regs : gmap Z Z) (off : Z) : Z := u32 (default 0 (regs !! off)).
Definition reg_peek (w : world) (off : Z) : Z := reg_word (vmem w) off.

(** [ioread32(odo->vmem + off)]. *)
Definition ioread32 (off : Z) : M Z :=
  fun w =>
    let v := reg_peek w off in
    (v, World (odo w) (vmem w) (jiffies w) (io_log w ++ [IoRead off v])).

(** Modelled from the spec: what the timer does with a word written to one of
    its registers is hardware behaviour that the source only relies on.  The
    status register has write-1-to-clear bits (spec 4.3); every other
    register keeps the word that was written. *)
Definition gpt_store (off val old : Z) : Z :=
  if off =? TSTAT_REG then Z.land old (Z.lnot val) else val.

(** [iowrite32(val, odo->vmem + off)]. *)
Definition iowrite32 (val off : Z) : M unit :=
  fun w =>
    let v := u32 val in
    (tt, World (odo w) (<[off := gpt_store off v (reg_peek w off)]> (vmem w))
               (jiffies w) (io_log w ++ [IoWrite off v])).

(** ** Actions on the GPT *)

(** The loop [for (bit = pos; bit < pos + sz; ++bit) v &= ~(1 << bit);]
    with [n] iterations left. *)
Fixpoint reset_field (n : nat) (bit v : Z) : Z :=
  match n with
  | O => v
  | S n' => reset_field n' (bit + 1) (Z.land v (Z.lnot (shl 1 bit)))
  end.

(** [odo_set_gpt_field(reg, pos, sz, val)]; all four arguments are [int]s.
    The loop runs for [bit = pos, ..., pos + sz - 1], that is [sz] times (not
    at all when [sz <= 0]).  The local [tmp] of the source is never read. *)
Definition odo_set_gpt_field (reg : Z) (field : Z * Z) (val : Z) : M unit :=
  let (pos, sz) := field in
  r <~ ioread32 reg ;;
  let v := s32 r in
  let v := reset_field (Z.to_nat sz) pos v in
  let mask := shl val pos in
  let v := Z.lor v mask in
  iowrite32 v reg.


(** [odo_timer_setup()]. *)
Definition odo_timer_setup : M Z :=
  (* Disable the counter *)
  odo_set_gpt_field TCTL_REG TCTL_TEN 0x0 ;;
  (* Enable reset of the counter when timer disabled *)
  odo_set_gpt_field TCTL_REG TCTL_CC 0x1 ;;
  (* Choose TIN as input clock *)
  odo_set_gpt_field TCTL_REG TCTL_CLKSOURCE 0x3 ;;
  (* Divide by 1 *)
  odo_set_gpt_field TPRER_REG TPRER_PRESCALER 0x0 ;;
  (* Enable compare action *)
  odo_set_gpt_field TCTL_REG TCTL_COMP_EN 0x1 ;;
  (* Restart after compare trig *)
  odo_set_gpt_field TCTL_REG TCTL_FRR 0x0 ;;
  (* Set compare register to 0xFFFFFFFF; the constant is converted to int *)
  odo_set_gpt_field TCMP_REG TCMP_CMP (s32 0xFFFFFFFF) ;;
  (* Start counting *)
  odo_set_gpt_field TCTL_REG TCTL_TEN 0x1 ;;
  ret 0.

(** [odo_read_count()]: the [unsigned int] count is returned as an [int]. *)
Definition odo_read_count : M Z :=
  count <~ ioread32 TCN_REG ;;
  ret (s32 count).

(** Modelled from the spec: the timer's reaction to being disabled is hardware
    behaviour (spec 4.5, and the comment in [odo_reset_count]): while the
    enable bit is clear and the CC bit is set the count is held at zero.  The
    reaction is applied while the driver sleeps, which is where the driver
    waits for it; a sequence of writes that holds the timer disabled
    without sleeping ([odo_timer_setup]) leaves the count register as it is
    in this model, and nothing is claimed about the count across it. *)
Definition gpt_settle (regs : gmap Z Z) : gmap Z Z :=
  let tctl := reg_word regs TCTL_REG in
  if negb (Z.testbit tctl (fst TCTL_TEN)) && Z.testbit tctl (fst TCTL_CC)
  then <[TCN_REG := 0]> regs
  else regs.

(** [msleep(ms)].  The tick counter is an input of the model and is moved
    by the environment only ([env_step] below); nothing in a reset reads it. *)
Definition msleep (ms : Z) : M unit :=
  fun w => (tt, World (odo w) (gpt_settle (vmem w)) (jiffies w) (io_log w ++ [Sleep ms])).

(** [odo_reset_count()]. *)
Definition odo_reset_count : M Z :=
  modify_odo (set_counter_ms 0) ;;
  modify_odo (set_counter_ls 0) ;;
  (* Disable the timer (resets the counter because CC bit is set) *)
  odo_set_gpt_field TCTL_REG TCTL_TEN 0x0 ;;
  msleep 10 ;;
  (* Start counting *)
  odo_set_gpt_field TCTL_REG TCTL_TEN 0x1 ;;
  ret 0.

(** ** Sysfs management *)

(** [snprintf(buf, PAGE_SIZE, "%llu\n", v)] and its siblings: the text left
    in [buf].  No value printed here comes near PAGE_SIZE characters. *)
Definition fmt_counter (v : Z) : string := pretty v +:+ String "010" EmptyString.
Definition fmt_period (v : Z) : string := pretty v +:+ " ms" +:+ String "010" EmptyString.

(** [counter_show()]: returns [counter_64] together with the text put in
    [buf]. *)
Definition counter_show : M (Z * string) :=
  status <~ ioread32 TSTAT_REG ;;
  when (negb (Z.land status TSTAT_COMP =? 0)) (* Evaluate carry *)
    (modify_odo (fun o => set_counter_ms (u32 (counter_ms o + 1)) o) ;;
     iowrite32 TSTAT_COMP TSTAT_REG) ;;
  count <~ odo_read_count ;;
  modify_odo (set_counter_ls (u32 count)) ;;
  o <~ get_odo ;;
  let counter_64 := u64 (u64 (Z.shiftl (u64 (counter_ms o)) 32) + counter_ls o) in
  modify_odo (fun o => set_nb_access (u32 (nb_access o + 1)) o) ;;
  now <~ get_jiffies ;;
  modify_odo (set_last_access now) ;;
  o <~ get_odo ;;
  when (first_access o =? 0) (modify_odo (set_first_access (last_access o))) ;;
  ret (counter_64, fmt_counter counter_64).

(** [nb_access_show()]. *)
Definition nb_access_show : M (Z * string) :=
  o <~ get_odo ;;
  ret (nb_access o, fmt_counter (nb_access o)).

(** [mean_period_show()]; [HZ] is the kernel's tick rate, a build-time
    constant.  All the arithmetic is on [unsigned long]. *)
Definition mean_period_show (HZ : Z) : M (Z * string) :=
  o <~ get_odo ;;
  let diff := u32 (last_access o - first_access o) in
  let period :=
    if nb_access o <=? 0 then 0
    else u32 (diff * 1000) / HZ / nb_access o in
  ret (period, fmt_period period).

Definition EINVAL : Z := 22.
Definition ERANGE : Z := 34.
Definition ENOMEM : Z := 12.

(** Modelled from the spec: the parser behind the reset attribute is the
    kernel's [kstrtoint], which is outside this repository; the spec only
    says that a written string either parses as an integer or yields a
    parse error.  The model follows the kernel's documented contract: an
    optional sign, at least one digit, an optional single trailing newline,
    then the end of the string; [-ERANGE] when the number does not fit,
    [-EINVAL] for anything else.  Radix detection (base 0, the 0x prefix) is
    left out: the driver always passes base 10. *)
Module Kstrtox.

Definition digit_value (c : ascii) : option Z :=
  let n := Z.of_N (N_of_ascii c) in
  if (48 <=? n) && (n <=? 57) then Some (n - 48)
  else if (97 <=? n) && (n <=? 102) then Some (n - 97 + 10)
  else if (65 <=? n) && (n <=? 70) then Some (n - 65 + 10)
  else None.

(** [_parse_integer]: the digits at the front of [s], their value on top of
    [acc], how many there were, and what follows them. *)
Fixpoint _parse_integer (s : string) (base acc : Z) (rv : Z) : Z * Z * string :=
  match s with
  | EmptyString => (acc, rv, s)
  | String c s' =>
      match digit_value c with
      | Some d => if d <? base then _parse_integer s' base (acc * base + d) (rv + 1)
                  else (acc, rv, s)
      | None => (acc, rv, s)
      end
  end.

(** Is the C string at its terminating NUL? *)
Definition at_end (s : string) : bool :=
  match s with
  | EmptyString => true
  | String c _ => (N_of_ascii c =? 0)%N
  end.

(** [if (s[0] == c) s++;] *)
Definition skip_char (c : ascii) (s : string) : string :=
  match s with
  | String c' s' => if Ascii.eqb c' c then s' else s
  | EmptyString => s
  end.

Definition _kstrtoull (s : string) (base : Z) : Z + Z :=
  let '(res, rv, rest) := _parse_integer s base 0 0 in
  if 2 ^ 64 <=? res then inl (- ERANGE)
  else if rv =? 0 then inl (- EINVAL)
  else if at_end (skip_char "010" rest) then inr res
  else inl (- EINVAL).

Definition kstrtoull (s : string) (base : Z) : Z + Z :=
  _kstrtoull (skip_char "+" s) base.

Definition starts_with (c : ascii) (s : string) : bool :=
  match s with
  | String c' _ => Ascii.eqb c' c
  | EmptyString => false
  end.

Definition kstrtoll (s : string) (base : Z) : Z + Z :=
  if starts_with "-" s then
    match _kstrtoull (skip_char "-" s) base with
    | inl rv => inl rv
    | inr tmp => if 2 ^ 63 <? tmp then inl (- ERANGE) else inr (- tmp)
    end
  else
    match kstrtoull s base with
    | inl rv => inl rv
    | inr tmp => if 2 ^ 63 <=? tmp then inl (- ERANGE) else inr tmp
    end.

(** [kstrtoint(s, base, &res)]: [inl ret] with [ret < 0] on failure,
    [inr res] (and a return value of 0) on success. *)
Definition kstrtoint (s : string) (base : Z) : Z + Z :=
  match kstrtoll s base with
  | inl rv => inl rv
  | inr tmp => if tmp =? s32 tmp then inr tmp else inl (- ERANGE)
  end.

End Kstrtox.

Import Kstrtox.

(** [reset_store(buf, count)]. *)
Definition reset_store (buf : string) (count : Z) : M Z :=
  match kstrtoint buf 10 with
  | inl rv => ret rv
  | inr reset =>
      when ((reset =? 1) || (reset =? Z.of_N (N_of_ascii "1")))
        (odo_reset_count ;;
         modify_odo (set_nb_access 0) ;;
         modify_odo (set_first_access 0) ;;
         modify_odo (set_last_access 0)) ;;
      ret count
  end.

(** ** Module initialisation *)

(** [a[i]] on a C array: [None] stands for an access outside the array,
    which C leaves undefined. *)
Definition array_get (a : list Z) (i : Z) : option Z :=
  if i <? 0 then None else a !! Z.to_nat i.

(** What [odo_init] finds on the platform: the "odo,timer" property when the
    device tree has an /odo@0 node, and whether each kernel service
    succeeds. *)
Record platform := Platform {
  dt_timer : option Z;
  kzalloc_ok : bool;
  mem_region_ok : bool;
  ioremap_ok : bool;
  gpio_request_rc : Z;
  kobject_ok : bool;
  sysfs_group_ok : bool
}.

Inductive init_result :=
| Loaded (gpt_id : Z) (w : world)      (* returned 0, the tables read in bounds *)
| Failed (rc : Z)                      (* returned a negative errno *)
| OutOfBounds (array : string) (index : Z).  (* read past an array *)

(** [odo_init()], with the module parameter [gpt_id] and the hardware as
    found ([w0]: register contents and tick counter).  The error paths
    release what was acquired and return [rc].  The run is followed up to
    its first read outside a table, where it ends with [OutOfBounds]: what
    the C program does with the word it finds there is undefined, so
    [Loaded] and [Failed] speak of the runs that read their tables in
    bounds only. *)
Definition odo_init (gpt_id : Z) (p : platform) (w0 : world) : init_result :=
  let offset := MEM_GPT_OFFSET in
  let gpio := GPT_TIN in
  let checked :=
    match dt_timer p with
    | None =>
        (* pr_err(..., gpt_id, gpio[gpt_id]) comes before the range check *)
        match array_get gpio gpt_id with
        | None => inl (OutOfBounds "gpio" gpt_id)
        | Some _ =>
            if (gpt_id <? 2) || (6 <? gpt_id) then inl (Failed (- EINVAL))
            else inr gpt_id
        end
    | Some timer => inr (s32 timer)
    end in
  match checked with
  | inl r => r
  | inr gpt_id =>
      if negb (kzalloc_ok p) then Failed (- ENOMEM) else
      match array_get offset (gpt_id - 1) with
      | None => OutOfBounds "offset" (gpt_id - 1)
      | Some off =>
          let o := Mk_odo (Z.lor MEM_BASE off) 0 0 0 0 0 in
          if negb (mem_region_ok p) then Failed (- ENOMEM) else
          if negb (ioremap_ok p) then Failed (- ENOMEM) else
          match array_get gpio gpt_id with
          | None => OutOfBounds "gpio" gpt_id
          | Some pin =>
              if gpio_request_rc p <? 0 then Failed (gpio_request_rc p) else
              let w := snd (odo_timer_setup (World o (vmem w0) (jiffies w0) (io_log w0))) in
              if negb (kobject_ok p) then Failed (- ENOMEM) else
              if negb (sysfs_group_ok p) then Failed (- ENOMEM) else
              Loaded gpt_id w
          end
      end
  end.

(** ** The environment: pulses and clock ticks *)

(** Modelled from the spec: how the count and the status flag evolve is
    hardware behaviour.  As configured (compare value at the maximum,
    restart on compare) the enabled timer counts pulses modulo 2^32 and
    raises the compare flag when the count wraps back to zero (spec 4.3).
    [d] pulses arrive. *)
Definition gpt_count (d : Z) (regs : gmap Z Z) : gmap Z Z :=
  if negb (Z.testbit (reg_word regs TCTL_REG) (fst TCTL_TEN)) then regs
  else
    let n := reg_word regs TCN_REG + d in
    if n <? 2 ^ 32 then <[TCN_REG := n]> regs
    else <[TSTAT_REG := Z.lor (reg_word regs TSTAT_REG) TSTAT_COMP]>
           (<[TCN_REG := u32 n]> regs).

(** What happens between two driver calls: [pulses] pulses on the timer
    input and [ticks] ticks of the kernel clock. *)
Record hw_event := HwEvent { pulses : Z; ticks : Z }.

Definition env_step (e : hw_event) (w : world) : world :=
  World (odo w) (gpt_count (pulses e) (vmem w)) (u32 (jiffies w + ticks e)) (io_log w).

(** A sufficient form of the operational assumption of the overflow
    extension, for the events between two queries: the count moves forward
    by less than a full turn, so it wraps at most once wherever it stood.
    ([calm_event] below asks for no more than the assumption itself.) *)
Definition at_most_one_wrap (e : hw_event) : Prop := 0 <= pulses e < 2 ^ 32.

(** One read of the counter attribute: the world before, the value
    returned, the world after. *)
Record sample := Sample { pre : world; out : Z; post : world }.

(** A read of the counter attribute, and then one more after each event:
    the events come between the reads.  ([poll_hw] below lets them come
    during a read as well.) *)
Fixpoint poll (evs : list hw_event) (w : world) : list sample :=
  let r := counter_show w in
  Sample w (fst (fst r)) (snd r) ::
  match evs with
  | [] => []
  | e :: evs' => poll evs' (env_step e (snd r))
  end.

(** Does a read in this world find the compare flag raised? *)
Definition flag_set (w : world) : bool :=
  negb (Z.land (reg_peek w TSTAT_REG) TSTAT_COMP =? 0).

Definition carry (w : world) : Z := if flag_set w then 1 else 0.

(** The fields of the driver structure hold [unsigned long]s. *)
Definition odo_ok (o : _odo) : Prop :=
  0 <= counter_ms o < 2 ^ 32 /\ 0 <= counter_ls o < 2 ^ 32 /\
  0 <= nb_access o < 2 ^ 32 /\ 0 <= first_access o < 2 ^ 32 /\
  0 <= last_access o < 2 ^ 32.

Definition world_ok (w : world) : Prop :=
  odo_ok (odo w) /\ 0 <= jiffies w < 2 ^ 32.

(** ** Concurrent readers *)

(** [counter_show] cut into its memory and register accesses, so that two
    calls can be interleaved.  Each reader has its own locals.  A step is
    one statement of the source and is taken in one go, so a schedule of
    steps is a schedule of the program (one in which no statement is
    interrupted); the program has others as well. *)
Inductive pc :=
| AtStatus | AtTest | AtCarry | AtClear | AtCount | AtSum
| AtAccess | AtLast | AtFirst | AtReturn.

Record reader := Reader { at_pc : pc; status : Z; counter_64 : Z }.

Definition reader_start : reader := Reader AtStatus 0 0.

Definition reader_step (t : reader) : M reader :=
  match at_pc t with
  | AtStatus =>
      s <~ ioread32 TSTAT_REG ;; ret (Reader AtTest s (counter_64 t))
  | AtTest =>
      ret (Reader (if negb (Z.land (status t) TSTAT_COMP =? 0) then AtCarry else AtCount)
                  (status t) (counter_64 t))
  | AtCarry =>
      modify_odo (fun o => set_counter_ms (u32 (counter_ms o + 1)) o) ;;
      ret (Reader AtClear (status t) (counter_64 t))
  | AtClear =>
      iowrite32 TSTAT_COMP TSTAT_REG ;;
      ret (Reader AtCount (status t) (counter_64 t))
  | AtCount =>
      count <~ odo_read_count ;;
      modify_odo (set_counter_ls (u32 count)) ;;
      ret (Reader AtSum (status t) (counter_64 t))
  | AtSum =>
      o <~ get_odo ;;
      ret (Reader AtAccess (status t)
             (u64 (u64 (Z.shiftl (u64 (counter_ms o)) 32) + counter_ls o)))
  | AtAccess =>
      modify_odo (fun o => set_nb_access (u32 (nb_access o + 1)) o) ;;
      ret (Reader AtLast (status t) (counter_64 t))
  | AtLast =>
      now <~ get_jiffies ;;
      modify_odo (set_last_access now) ;;
      ret (Reader AtFirst (status t) (counter_64 t))
  | AtFirst =>
      o <~ get_odo ;;
      when (first_access o =? 0) (modify_odo (set_first_access (last_access o))) ;;
      ret (Reader AtReturn (status t) (counter_64 t))
  | AtReturn => ret t
  end.

(** Two readers [a] and [b] under a schedule: [true] lets [a] take its next
    step, [false] lets [b].  Nothing in the source makes a reader wait. *)
Fixpoint interleave (sched : list bool) (a b : reader) : M (reader * reader) :=
  match sched with
  | [] => ret (a, b)
  | true :: sched' => a' <~ reader_step a ;; interleave sched' a' b
  | false :: sched' => b' <~ reader_step b ;; interleave sched' a b'
  end.

(** One reader on its own, run to its return. *)
Fixpoint reader_run (fuel : nat) (t : reader) : M reader :=
  match fuel with
  | O => ret t
  | S fuel' => t' <~ reader_step t ;; reader_run fuel' t'
  end.

(** ** Reference computations *)

(** What the field accessor is meant to compute: [r] with the [sz] bits from
    [pos] cleared, or-ed with [val << pos]. *)
Definition field_put (r : Z) (field : Z * Z) (val : Z) : Z :=
  let (pos, sz) := field in
  Z.lor (Z.land r (Z.lnot (Z.shiftl (Z.ones sz) pos))) (Z.shiftl val pos).

(** The value of a field inside a register word. *)
Definition field_get (r : Z) (field : Z * Z) : Z :=
  let (pos, sz) := field in Z.land (Z.shiftr r pos) (Z.ones sz).

(** ** Sample states

    A freshly loaded driver on timer 2 at tick 1000, the registers as
    [odo_timer_setup] leaves them on a timer that was all zeroes. *)
Definition world0 : world :=
  snd (odo_timer_setup (World (Mk_odo (Z.lor MEM_BASE 0x4000) 0 0 0 0 0) ∅ 1000 [])).

(** The same driver a little later: high word 7, and the count has just
    wrapped, so the compare flag is up. *)
Definition world_wrapped : world :=
  World (Mk_odo (Z.lor MEM_BASE 0x4000) 7 0xFFFFFFF0 3 1000 1200)
        (<[TSTAT_REG := 1]> (<[TCN_REG := 12]> (vmem world0))) 1300 [].

(** The high word at its last value, the count a few pulses in. *)
Definition world_full : world :=
  World (Mk_odo (Z.lor MEM_BASE 0x4000) 0xFFFFFFFF 0 3 1000 1200)
        (<[TCN_REG := 5]> (vmem world0)) 1300 [].

(** A fresh driver whose first read comes when the tick counter is 0. *)
Definition world_tick0 : world :=
  World (odo world0) (vmem world0) 0 [].

(** Some pulses and ticks: a few pulses, then nearly a full turn of the
    counter, then a few pulses again. *)
Definition some_events : list hw_event :=
  [HwEvent 5 1; HwEvent (2 ^ 32 - 2) 3; HwEvent 7 1].

Definition third_sample : sample :=
  default (Sample world0 0 world0) (poll some_events world0 !! 2%nat).

(** Two schedules for two readers: one after the other, and the second
    reading the status register right after the first has read it. *)
Definition serial_schedule : list bool :=
  [true; true; true; true; true; true; true; true; true;
   false; false; false; false; false; false; false; false; false].
Definition race_schedule : list bool :=
  [true; false;
   true; true; true; true; true; true; true; true;
   false; false; false; false; false; false; false; false].

(** Two reads of the counter attribute 4294968 ticks apart (about twelve
    hours at HZ = 100), and the world they leave. *)
Definition long_span : list hw_event := [HwEvent 0 4294968].

Definition world_long_span : world :=
  post (default (Sample world0 0 world0) (poll long_span world0 !! 1%nat)).

(** Events that make the count wrap once when it stands at zero: one pulse,
    and after the next read all but one pulse of a full turn. *)
Definition one_carry : list hw_event := [HwEvent 1 0; HwEvent (2 ^ 32 - 1) 0].

Fixpoint carry_events (n : nat) : list hw_event :=
  match n with
  | O => []
  | S n' => one_carry ++ carry_events n'
  end.

(** A world in which the timer is enabled, the count stands at zero and the
    next read will return [k * 2^32]. *)
Definition at_turn (k : Z) (w : world) : Prop :=
  Z.testbit (reg_peek w TCTL_REG) (fst TCTL_TEN) = true /\
  reg_peek w TCN_REG = 0 /\
  0 <= counter_ms (odo w) /\ counter_ms (odo w) + carry w = k.

(** ** Further reference computations *)

(** The control word as [odo_timer_setup] leaves it, from the word [c] it
    found. *)
Definition tctl_configured (c : Z) : Z :=
  field_put (field_put (field_put (field_put (field_put (field_put
    c TCTL_TEN 0) TCTL_CC 1) TCTL_CLKSOURCE 3) TCTL_COMP_EN 1) TCTL_FRR 0)
    TCTL_TEN 1.

(** The registers written in a log, and the words written to one of them,
    in program order. *)
Definition written (log : list io_event) : list Z :=
  flat_map (fun e => match e with IoWrite off _ => [off] | _ => [] end) log.

Definition writes_to (off : Z) (log : list io_event) : list Z :=
  flat_map (fun e => match e with
                     | IoWrite off' v => if off' =? off then [v] else []
                     | _ => []
                     end) log.

(** A control word with which the hardware holds the count at zero: what
    [gpt_settle] does to any register file that has it in TCTL. *)
Definition clears_count (c : Z) : Prop :=
  forall regs, reg_word regs TCTL_REG = c -> reg_word (gpt_settle regs) TCN_REG = 0.

(** The ticks of the first [k] events of a run. *)
Definition ticks_before (k : nat) (evs : list hw_event) : Z :=
  fold_right Z.add 0 (map ticks (take k evs)).

(** ** Module initialisation and exit, with the kernel resources

    [odo_init] once more, this time with the kernel resources it takes and
    gives back, in program order, and the timer registers it leaves. *)

Inductive resource :=
| ResAlloc                      (* kzalloc / kfree *)
| ResRegion (base len : Z)      (* request_mem_region / release_mem_region *)
| ResMap (base len : Z)         (* ioremap_nocache / iounmap *)
| ResGpio (pin : Z)             (* gpio_request_one / gpio_free *)
| ResKobj                       (* kobject_create_and_add / kobject_put *)
| ResGroup.                     (* sysfs_create_group / sysfs_remove_group *)

Inductive kcall :=
| Acquire (r : resource)
| Release (r : resource).

#[global] Instance resource_eq_dec : EqDecision resource.
Proof. solve_decision. Defined.

(** The labels at the end of [odo_init], each falling through to the
    next. *)
Definition free_alloc : list kcall := [Release ResAlloc].
Definition release_region (base : Z) : list kcall :=
  Release (ResRegion base MEM_LENGTH) :: free_alloc.
Definition unmap (base : Z) : list kcall :=
  Release (ResMap base MEM_LENGTH) :: release_region base.
Definition free_gpio (pin base : Z) : list kcall :=
  Release (ResGpio pin) :: unmap base.
Definition put_kobj (pin base : Z) : list kcall :=
  Release ResKobj :: free_gpio pin base.

Definition odo_init_run (gpt_id : Z) (p : platform) (w0 : world)
  : init_result * list kcall * gmap Z Z :=
  let offset := MEM_GPT_OFFSET in
  let gpio := GPT_TIN in
  let regs0 := vmem w0 in
  let checked :=
    match dt_timer p with
    | None =>
        match array_get gpio gpt_id with
        | None => inl (OutOfBounds "gpio" gpt_id)
        | Some _ =>
            if (gpt_id <? 2) || (6 <? gpt_id) then inl (Failed (- EINVAL))
            else inr gpt_id
        end
    | Some timer => inr (s32 timer)
    end in
  match checked with
  | inl r => (r, [], regs0)
  | inr gpt_id =>
      if negb (kzalloc_ok p) then (Failed (- ENOMEM), [], regs0) else
      let held := [Acquire ResAlloc] in
      match array_get offset (gpt_id - 1) with
      | None => (OutOfBounds "offset" (gpt_id - 1), held, regs0)
      | Some off =>
          let base := Z.lor MEM_BASE off in
          let o := Mk_odo base 0 0 0 0 0 in
          if negb (mem_region_ok p)
          then (Failed (- ENOMEM), held ++ free_alloc, regs0) else
          let held := held ++ [Acquire (ResRegion base MEM_LENGTH)] in
          if negb (ioremap_ok p)
          then (Failed (- ENOMEM), held ++ release_region base, regs0) else
          let held := held ++ [Acquire (ResMap base MEM_LENGTH)] in
          match array_get gpio gpt_id with
          | None => (OutOfBounds "gpio" gpt_id, held, regs0)
          | Some pin =>
              if gpio_request_rc p <? 0
              then (Failed (gpio_request_rc p), held ++ unmap base, regs0) else
              let held := held ++ [Acquire (ResGpio pin)] in
              let w := snd (odo_timer_setup (World o regs0 (jiffies w0) (io_log w0))) in
              if negb (kobject_ok p)
              then (Failed (- ENOMEM), held ++ free_gpio pin base, vmem w) else
              let held := held ++ [Acquire ResKobj] in
              if negb (sysfs_group_ok p)
              then (Failed (- ENOMEM), held ++ put_kobj pin base, vmem w) else
              (Loaded gpt_id w, held ++ [Acquire ResGroup], vmem w)
          end
      end
  end.

(** [odo_exit()], for the timer number and the driver structure that
    [odo_init] left: the releases made, and whether the pin table was read
    inside its bounds. *)
Definition odo_exit (gpt_id : Z) (o : _odo) : list kcall * bool :=
  let gpio := GPT_TIN in
  let first := [Release ResGroup; Release ResKobj] in
  match array_get gpio gpt_id with
  | None => (first, false)
  | Some pin =>
      (first ++ [Release (ResGpio pin);
                 Release (ResMap (gpt_base o) MEM_LENGTH);
                 Release (ResRegion (gpt_base o) MEM_LENGTH);
                 Release ResAlloc], true)
  end.

(** The resources held after a sequence of calls, most recent first;
    [None] when something is released that is not the most recently
    acquired resource still held. *)
Fixpoint held_after (calls : list kcall) (held : list resource)
  : option (list resource) :=
  match calls with
  | [] => Some held
  | Acquire r :: calls' => held_after calls' (r :: held)
  | Release r :: calls' =>
      match held with
      | r' :: held' => if decide (r = r') then held_after calls' held' else None
      | [] => None
      end
  end.

(** ** A read that the hardware overtakes

    A read of the counter attribute during which pulses arrive between the
    read of the status register and the rest of the function. *)
Definition counter_show_torn (e : hw_event) : M reader :=
  t <~ reader_run 1 reader_start ;;
  fun w => reader_run 8 t (env_step e w).

(** A world whose count is ten pulses short of a wrap, the flag down. *)
Definition world_near_wrap : world :=
  World (Mk_odo (Z.lor MEM_BASE 0x4000) 7 0 3 1000 1200)
        (<[TCN_REG := 0xFFFFFFF6]> (vmem world0)) 1300 [].

(** ** Reads while the timer counts on

    The timer counts while the driver runs.  In a read of the counter
    attribute the events of [evs] take place one before each step of the
    read, in the order of the list and for as long as there are any; the
    read then runs on to its return.  (Events left over when the read has
    returned take place after it, before the next read starts.) *)
Fixpoint reader_steps_hw (evs : list hw_event) (t : reader) : M reader :=
  match evs with
  | [] => ret t
  | e :: evs' =>
      fun w => (t' <~ reader_step t ;; reader_steps_hw evs' t') (env_step e w)
  end.

Definition counter_show_hw (evs : list hw_event) : M reader :=
  t <~ reader_steps_hw evs reader_start ;; reader_run 9 t.

(** One such read: the world it starts in, the events that go with it, the
    status word it saw, the value it returned and the world it leaves. *)
Record read := Read {
  before : world;
  during : list hw_event;
  seen : Z;
  value : Z;
  after : world
}.

(** One read after the other, each with its events. *)
Fixpoint poll_hw (plans : list (list hw_event)) (w : world) : list read :=
  match plans with
  | [] => []
  | evs :: plans' =>
      let r := counter_show_hw evs w in
      Read w evs (status (fst r)) (counter_64 (fst r)) (snd r)
      :: poll_hw plans' (snd r)
  end.

Definition enabled (w : world) : bool :=
  Z.testbit (reg_peek w TCTL_REG) (fst TCTL_TEN).

(** How many times the count wraps when the event [e] arrives in [w]. *)
Definition wraps (e : hw_event) (w : world) : Z :=
  if enabled w then (reg_peek w TCN_REG + pulses e) / 2 ^ 32 else 0.

(** Has the reader read the status register and not yet the count
    register? *)
Definition mid_read (p : pc) : bool :=
  match p with
  | AtTest | AtCarry | AtClear | AtCount => true
  | _ => false
  end.

(** The operational assumption of the overflow extension, for an event that
    arrives when the reader stands at [t]: pulses only add to the count;
    between a read's look at the status register and its look at the count
    register the count does not wrap; at any other time it wraps at most
    once, and not while the flag of an earlier wrap is still up, which
    leaves room for one wrap between the count read of one query and the
    status read of the next. *)
Definition calm_event (e : hw_event) (t : reader) (w : world) : bool :=
  (0 <=? pulses e) &&
  (wraps e w <=? (if mid_read (at_pc t) then 0 else 1 - carry w)).

Fixpoint calm (evs : list hw_event) (t : reader) (w : world) : bool :=
  match evs with
  | [] => true
  | e :: evs' =>
      calm_event e t w &&
      (let r := reader_step t (env_step e w) in calm evs' (fst r) (snd r))
  end.

Fixpoint calm_poll (plans : list (list hw_event)) (w : world) : bool :=
  match plans with
  | [] => true
  | evs :: plans' =>
      calm evs reader_start w && calm_poll plans' (snd (counter_show_hw evs w))
  end.

(** The 64-bit count the channel stands for: the high word, one more for a
    wrap that is flagged and not yet folded in, and the hardware count. *)
Definition extended (w : world) : Z :=
  (counter_ms (odo w) + carry w) * 2 ^ 32 + reg_peek w TCN_REG.

Definition pulses_of (evs : list hw_event) : Z :=
  fold_right Z.add 0 (map pulses evs).

(** The pulses the timer counts of those that arrive: all of them when it
    is enabled, none when it is not. *)
Definition counted (w : world) (evs : list hw_event) : Z :=
  if enabled w then pulses_of evs else 0.

(** The number of events of a read that come before its read of the count
    register: those before the status read, the test and the count read,
    and for a read that saw the flag those before the carry and the
    write-back as well. *)
Definition count_read_at (st : Z) : nat :=
  if Z.land st TSTAT_COMP =? 0 then 3%nat else 5%nat.

Definition early (r : read) : list hw_event :=
  take (count_read_at (seen r)) (during r).

(** Bookkeeping for a read that is under way.  The count the channel stands
    for: between the carry and the write-back the wrap is in the high word
    already and still flagged. *)
Definition extended_at (t : reader) (w : world) : Z :=
  extended w - (match at_pc t with AtClear => 2 ^ 32 | _ => 0 end).

(** The steps still to take up to and including the read of the count
    register, for a reader past the status read. *)
Definition steps_to_count (t : reader) : nat :=
  match at_pc t with
  | AtTest => if Z.land (status t) TSTAT_COMP =? 0 then 2%nat else 4%nat
  | AtCarry => 3%nat
  | AtClear => 2%nat
  | AtCount => 1%nat
  | _ => 0%nat
  end.

(** An upper bound on the steps still to take up to the return. *)
Definition steps_left (t : reader) : nat :=
  match at_pc t with
  | AtStatus => 9 | AtTest => 8 | AtCarry => 7 | AtClear => 6 | AtCount => 5
  | AtSum => 4 | AtAccess => 3 | AtLast => 2 | AtFirst => 1 | AtReturn => 0
  end%nat.

(** What holds of a reader past the status read when no wrap has come since
    that read: the flag is as the status word showed it until the
    write-back, and down from then to the count read. *)
Definition read_inv (t : reader) (w : world) : Prop :=
  0 <= counter_ms (odo w) /\
  match at_pc t with
  | AtStatus => False
  | AtTest => flag_set w = negb (Z.land (status t) TSTAT_COMP =? 0)
  | AtCarry | AtClear => flag_set w = true
  | AtCount => flag_set w = false
  | AtSum => 0 <= counter_ls (odo w) < 2 ^ 32
  | _ => True
  end.

(** The value such a read is going to return when the events [evs] are
    still to come, before any of them has arrived ([expect]) and after the
    first has ([expect_next]). *)
Definition expect (t : reader) (w : world) (evs : list hw_event) : Z :=
  match at_pc t with
  | AtStatus | AtTest | AtCarry | AtClear | AtCount =>
      extended_at t w + counted w (take (steps_to_count t) evs)
  | AtSum => counter_ms (odo w) * 2 ^ 32 + counter_ls (odo w)
  | _ => counter_64 t
  end.

Definition expect_next (t : reader) (w : world) (evs : list hw_event) : Z :=
  match at_pc t with
  | AtStatus | AtTest | AtCarry | AtClear | AtCount =>
      extended_at t w + counted w (take (pred (steps_to_count t)) evs)
  | AtSum => counter_ms (odo w) * 2 ^ 32 + counter_ls (odo w)
  | _ => counter_64 t
  end.

(** Three reads with the timer counting on: five pulses before the first;
    then nearly a full turn, a wrap, before the second reads the status
    register, and three more pulses while it folds the carry in; then seven
    pulses before the third, and three right after it has read the
    count. *)
Definition busy_plans : list (list hw_event) :=
  [[HwEvent 5 1];
   [HwEvent (2 ^ 32 - 2) 3; HwEvent 2 0; HwEvent 1 0];
   [HwEvent 7 1; HwEvent 0 0; HwEvent 0 0; HwEvent 3 1]].

Definition third_read : read :=
  default (Read world0 [] 0 0 world0) (poll_hw busy_plans world0 !! 2%nat).

(** The same reads after a reset. *)
Definition read_after_reset : read :=
  default (Read world0 [] 0 0 world0)
    (poll_hw busy_plans (snd (reset_store "1" 1 world_full)) !! 2%nat).

(** Two reads, twelve pulses arriving right after the second has read the
    status register. *)
Definition torn_plans : list (list hw_event) :=
  [[]; [HwEvent 0 0; HwEvent 12 0]].

(** ** A reset among the readers

    The word [odo_set_gpt_field] writes back, from the word [r] it read. *)
Definition field_word (field : Z * Z) (val r : Z) : Z :=
  let (pos, sz) := field in
  let v := s32 r in
  let v := reset_field (Z.to_nat sz) pos v in
  let mask := shl val pos in
  Z.lor v mask.

(** [reset_store], for a write that asks for a reset, cut into its memory
    and register accesses like [counter_show] above; the sleep is one
    step.  The local [word] is the [v] of [odo_set_gpt_field]. *)
Inductive rpc :=
| AtHigh | AtLow | AtDisableRead | AtDisableWrite | AtSleep
| AtEnableRead | AtEnableWrite | AtZeroAccess | AtZeroFirst | AtZeroLast
| AtDone.

Record resetter := Resetter { at_rpc : rpc; word : Z }.

Definition resetter_start : resetter := Resetter AtHigh 0.

Definition resetter_step (t : resetter) : M resetter :=
  match at_rpc t with
  | AtHigh =>
      modify_odo (set_counter_ms 0) ;; ret (Resetter AtLow (word t))
  | AtLow =>
      modify_odo (set_counter_ls 0) ;; ret (Resetter AtDisableRead (word t))
  | AtDisableRead =>
      r <~ ioread32 TCTL_REG ;; ret (Resetter AtDisableWrite r)
  | AtDisableWrite =>
      iowrite32 (field_word TCTL_TEN 0x0 (word t)) TCTL_REG ;;
      ret (Resetter AtSleep (word t))
  | AtSleep =>
      msleep 10 ;; ret (Resetter AtEnableRead (word t))
  | AtEnableRead =>
      r <~ ioread32 TCTL_REG ;; ret (Resetter AtEnableWrite r)
  | AtEnableWrite =>
      iowrite32 (field_word TCTL_TEN 0x1 (word t)) TCTL_REG ;;
      ret (Resetter AtZeroAccess (word t))
  | AtZeroAccess =>
      modify_odo (set_nb_access 0) ;; ret (Resetter AtZeroFirst (word t))
  | AtZeroFirst =>
      modify_odo (set_first_access 0) ;; ret (Resetter AtZeroLast (word t))
  | AtZeroLast =>
      modify_odo (set_last_access 0) ;; ret (Resetter AtDone (word t))
  | AtDone => ret t
  end.

Fixpoint resetter_run (fuel : nat) (t : resetter) : M resetter :=
  match fuel with
  | O => ret t
  | S fuel' => t' <~ resetter_step t ;; resetter_run fuel' t'
  end.

(** A read [q] and a reset [r] under a schedule: [true] lets the read take
    its next step, [false] the reset.  Nothing in the source makes either
    wait for the other. *)
Fixpoint interleave_reset (sched : list bool) (q : reader) (r : resetter)
  : M (reader * resetter) :=
  match sched with
  | [] => ret (q, r)
  | true :: sched' => q' <~ reader_step q ;; interleave_reset sched' q' r
  | false :: sched' => r' <~ resetter_step r ;; interleave_reset sched' q r'
  end.

(** The read has seen the flag and incremented the high word; the whole
    reset runs; the read goes on with its write-back of the flag. *)
Definition reset_mid_update : list bool :=
  [true; true; true;
   false; false; false; false; false; false; false; false; false; false;
   true; true; true; true; true; true].

(** The reset has zeroed the counter, disabled the timer and slept; the
    whole read runs; the reset goes on with the enabling of the timer. *)
Definition read_mid_reset : list bool :=
  [false; false; false; false; false;
   true; true; true; true; true; true; true; true; true;
   false; false; false; false; false].

(** * Properties *)

(** ** Bits of wrapped integers *)

Section Bits.

Lemma u32_range z : 0 <= u32 z < 2 ^ 32.
Proof. unfold u32. apply Z.mod_pos_bound. lia. Qed.

Lemma u32_small z : 0 <= z < 2 ^ 32 -> u32 z = z.
Proof. unfold u32. apply Z.mod_small. Qed.

Lemma u32_s32 z : u32 (s32 z) = u32 z.
Proof.
  unfold u32, s32.
  rewrite (Z.mod_eq (z + 2 ^ 31) (2 ^ 32)) by lia.
  replace (z + 2 ^ 31 - 2 ^ 32 * ((z + 2 ^ 31) / 2 ^ 32) - 2 ^ 31)
    with (z + (- ((z + 2 ^ 31) / 2 ^ 32)) * 2 ^ 32) by ring.
  apply Z_mod_plus_full.
Qed.

Lemma u32_testbit z i :
  Z.testbit (u32 z) i = (i <? 32) && Z.testbit z i.
Proof.
  unfold u32. destruct (Z.ltb_spec i 32).
  - destruct (Z.neg_nonneg_cases i).
    + rewrite !Z.testbit_neg_r by lia. reflexivity.
    + rewrite Z.mod_pow2_bits_low by lia. reflexivity.
  - rewrite Z.mod_pow2_bits_high by lia. reflexivity.
Qed.

Lemma s32_testbit z i : i < 32 -> Z.testbit (s32 z) i = Z.testbit z i.
Proof.
  intros Hi.
  assert (H := u32_testbit (s32 z) i). rewrite u32_s32, u32_testbit in H.
  destruct (Z.ltb_spec i 32); [|lia]. simpl in H. congruence.
Qed.

Lemma shl_testbit a n i :
  0 <= i < 32 -> Z.testbit (shl a n) i = Z.testbit a (i - n).
Proof.
  intros Hi. unfold shl. rewrite s32_testbit by lia.
  apply Z.shiftl_spec. lia.
Qed.

Lemma bit_of_one k : Z.testbit 1 k = (k =? 0).
Proof.
  destruct (Z.eqb_spec k 0) as [->|Hk]; [reflexivity|].
  destruct (Z.neg_nonneg_cases k).
  - apply Z.testbit_neg_r. lia.
  - change 1 with (2 ^ 0). apply Z.pow2_bits_false. lia.
Qed.

Lemma small_testbit_high z n i :
  0 <= z < 2 ^ n -> n <= i -> Z.testbit z i = false.
Proof.
  intros Hz Hi.
  destruct (Z.neg_nonneg_cases n).
  - rewrite Z.pow_neg_r in Hz by lia. lia.
  - rewrite <- (Z.mod_small z (2 ^ n)) by lia.
    apply Z.mod_pow2_bits_high. lia.
Qed.

(** The clearing loop clears exactly the bits [bit, bit + n). *)
Lemma reset_field_testbit n : forall bit v i,
  0 <= i < 32 ->
  Z.testbit (reset_field n bit v) i =
  Z.testbit v i && negb ((bit <=? i) && (i <? bit + Z.of_nat n)).
Proof.
  induction n as [|n IH]; intros bit v i Hi.
  - simpl reset_field.
    replace (bit + Z.of_nat 0) with bit by lia.
    destruct (Z.leb_spec bit i), (Z.ltb_spec i bit); try lia;
      simpl; rewrite ?andb_true_r; reflexivity.
  - simpl reset_field. rewrite IH by lia.
    rewrite Z.land_spec, Z.lnot_spec by lia.
    rewrite shl_testbit, bit_of_one by lia.
    destruct (Z.eqb_spec (i - bit) 0), (Z.leb_spec (bit + 1) i),
      (Z.leb_spec bit i), (Z.ltb_spec i (bit + 1 + Z.of_nat n)),
      (Z.ltb_spec i (bit + Z.of_nat (S n))); try lia;
      simpl; rewrite ?andb_true_r, ?andb_false_r; reflexivity.
Qed.

End Bits.

(** ** The register field accessor *)

Lemma field_put_testbit r pos sz val i :
  0 <= pos -> 0 <= sz -> 0 <= i ->
  Z.testbit (field_put r (pos, sz) val) i =
  Z.testbit r i && negb ((pos <=? i) && (i <? pos + sz)) || Z.testbit val (i - pos).
Proof.
  intros Hp Hs Hi. unfold field_put.
  rewrite Z.lor_spec, Z.land_spec, Z.lnot_spec, !Z.shiftl_spec by lia.
  f_equal. f_equal. f_equal.
  destruct (Z.leb_spec pos i).
  - rewrite Z.testbit_ones_nonneg by lia.
    destruct (Z.ltb_spec (i - pos) sz), (Z.ltb_spec i (pos + sz)); try lia; reflexivity.
  - rewrite Z.testbit_neg_r by lia. reflexivity.
Qed.

(** The word the accessor pushes to the register. *)
Lemma odo_set_gpt_field_word r pos sz val :
  0 <= r < 2 ^ 32 -> 0 <= pos -> 0 <= sz -> pos + sz <= 32 -> 0 <= val < 2 ^ sz ->
  u32 (Z.lor (reset_field (Z.to_nat sz) pos (s32 r)) (shl (s32 val) pos))
  = field_put r (pos, sz) val.
Proof.
  intros Hr Hp Hs Hps Hv.
  apply Z.bits_inj'. intros i Hi.
  rewrite u32_testbit, field_put_testbit by lia.
  destruct (Z.ltb_spec i 32) as [Hlt|Hge]; simpl.
  - rewrite Z.lor_spec, reset_field_testbit, shl_testbit by lia.
    rewrite Z2Nat.id by lia. rewrite s32_testbit by lia.
    f_equal.
    destruct (Z.neg_nonneg_cases (i - pos)).
    + rewrite !Z.testbit_neg_r by lia. reflexivity.
    + apply s32_testbit. lia.
  - rewrite (small_testbit_high r 32) by lia.
    rewrite (small_testbit_high val sz) by lia. reflexivity.
Qed.

(** ** The overflow-extended counter *)

Arguments u32 : simpl never.
Arguments s32 : simpl never.
Arguments u64 : simpl never.

(** Run monadic code symbolically: unfold the monad, the driver's
    primitives and the record projections, and nothing of the arithmetic. *)
Ltac run_m :=
  cbv beta iota zeta delta
    [bind ret when modify_odo get_odo put_odo get_jiffies odo_read_count
     ioread32 iowrite32 msleep reg_peek fst snd
     odo vmem jiffies io_log gpt_base counter_ms counter_ls nb_access
     first_access last_access set_counter_ms set_counter_ls set_nb_access
     set_first_access set_last_access negb].

Lemma w1c_clears x : Z.land (u32 (Z.land x (Z.lnot 1))) 1 = 0.
Proof.
  apply Z.bits_inj'. intros i Hi.
  rewrite Z.land_spec, u32_testbit, Z.land_spec, Z.lnot_spec, bit_of_one, Z.bits_0 by lia.
  destruct (Z.eqb_spec i 0); simpl; rewrite ?andb_false_r; reflexivity.
Qed.

Lemma high_low_disjoint a b :
  0 <= b < 2 ^ 32 -> Z.land (Z.shiftl a 32) b = 0.
Proof.
  intros Hb. apply Z.bits_inj'. intros i Hi.
  rewrite Z.land_spec, Z.bits_0, Z.shiftl_spec by lia.
  destruct (Z.ltb_spec i 32).
  - rewrite Z.testbit_neg_r by lia. reflexivity.
  - rewrite (small_testbit_high b 32) by lia. apply andb_false_r.
Qed.

(** The sum computed in [counter_show] is the two words side by side. *)
Lemma counter_64_lor ms ls :
  0 <= ms < 2 ^ 32 -> 0 <= ls < 2 ^ 32 ->
  u64 (u64 (Z.shiftl (u64 ms) 32) + ls) = Z.lor (Z.shiftl ms 32) ls.
Proof.
  intros Hm Hl.
  rewrite <- Z.lxor_lor, <- Z.add_nocarry_lxor by (apply high_low_disjoint; lia).
  unfold u64. rewrite (Z.mod_small ms) by lia.
  rewrite Z.shiftl_mul_pow2 by lia.
  rewrite (Z.mod_small (ms * 2 ^ 32)) by nia.
  apply Z.mod_small. nia.
Qed.

Lemma reg_word_range regs off : 0 <= reg_word regs off < 2 ^ 32.
Proof. apply u32_range. Qed.

Lemma reg_word_insert_ne regs off off' x :
  off <> off' -> reg_word (<[off := x]> regs) off' = reg_word regs off'.
Proof. intros H. unfold reg_word. rewrite lookup_insert_ne by exact H. reflexivity. Qed.

Lemma reg_word_insert regs off x : reg_word (<[off := x]> regs) off = u32 x.
Proof. unfold reg_word. rewrite lookup_insert_eq. reflexivity. Qed.

Lemma reg_peek_world o regs now log off :
  reg_peek (World o regs now log) off = reg_word regs off.
Proof. reflexivity. Qed.

Lemma u32_idem z : u32 (u32 z) = u32 z.
Proof. apply u32_small, u32_range. Qed.

(** [counter_show] in closed form: the value returned and the world it
    leaves, read off the world it starts in. *)
Lemma counter_show_eq (w : world) :
  counter_show w =
  let ms := if flag_set w then u32 (counter_ms (odo w) + 1) else counter_ms (odo w) in
  let low := reg_peek w TCN_REG in
  let v := u64 (u64 (Z.shiftl (u64 ms) 32) + low) in
  ((v, fmt_counter v),
   World
     (Mk_odo (gpt_base (odo w)) ms low (u32 (nb_access (odo w) + 1))
        (if first_access (odo w) =? 0 then jiffies w else first_access (odo w))
        (jiffies w))
     (if flag_set w
      then <[TSTAT_REG := Z.land (reg_peek w TSTAT_REG) (Z.lnot 1)]> (vmem w)
      else vmem w)
     (jiffies w)
     (io_log w ++
        if flag_set w
        then [IoRead TSTAT_REG (reg_peek w TSTAT_REG); IoWrite TSTAT_REG 1;
              IoRead TCN_REG (reg_peek w TCN_REG)]
        else [IoRead TSTAT_REG (reg_peek w TSTAT_REG);
              IoRead TCN_REG (reg_peek w TCN_REG)])).
Proof.
  destruct w as [[base ms ls nb fa la] regs now log].
  unfold counter_show, flag_set. run_m.
  destruct (Z.land (reg_word regs TSTAT_REG) TSTAT_COMP =? 0) eqn:Hflag;
    destruct (fa =? 0) eqn:Hfa; run_m; unfold gpt_store; simpl (_ =? _);
    rewrite ?reg_word_insert_ne by discriminate;
    rewrite u32_s32, (u32_small (reg_word regs TCN_REG)) by apply reg_word_range;
    rewrite <- ?app_assoc; reflexivity.
Qed.

(** After a read the compare flag is down: either it was down all along or
    the write-back has just cleared it. *)
Lemma counter_show_flag_clear (w : world) :
  flag_set (snd (counter_show w)) = false.
Proof.
  rewrite counter_show_eq. cbn [snd].
  destruct (flag_set w) eqn:Hf.
  - unfold flag_set. rewrite reg_peek_world, reg_word_insert.
    change TSTAT_COMP with 1. rewrite w1c_clears. reflexivity.
  - unfold flag_set in *. rewrite reg_peek_world. exact Hf.
Qed.

(** A read leaves the count and the configuration registers alone. *)
Lemma counter_show_regs (w : world) (off : Z) :
  off <> TSTAT_REG ->
  reg_peek (snd (counter_show w)) off = reg_peek w off.
Proof.
  intros Hoff. rewrite counter_show_eq. cbn [snd]. rewrite reg_peek_world.
  destruct (flag_set w); [|reflexivity].
  apply reg_word_insert_ne. congruence.
Qed.

(** C1.  One read of the counter attribute, in any state of the channel:
    the status register is read; when its compare flag is set the high word
    [counter_ms] goes up by one (as an unsigned long: from any value below
    the last one it becomes that value plus one) and the flag is written back
    to the status register, which clears it; then the count register is
    read; the value returned is [(counter_ms << 32) | count], built from the
    high word as it stands after the carry. *)
Theorem counter_show_steps (w : world) :
  0 <= counter_ms (odo w) < 2 ^ 32 ->
  let st := reg_peek w TSTAT_REG in
  let low := reg_peek w TCN_REG in
  let r := counter_show w in
  let w' := snd r in
  io_log w' = io_log w ++
    (if flag_set w
     then [IoRead TSTAT_REG st; IoWrite TSTAT_REG 1; IoRead TCN_REG low]
     else [IoRead TSTAT_REG st; IoRead TCN_REG low]) /\
  counter_ms (odo w') =
    (if flag_set w then u32 (counter_ms (odo w) + 1) else counter_ms (odo w)) /\
  (flag_set w = true -> counter_ms (odo w) < 2 ^ 32 - 1 ->
   counter_ms (odo w') = counter_ms (odo w) + 1) /\
  flag_set w' = false /\
  counter_ls (odo w') = low /\
  fst (fst r) = Z.lor (Z.shiftl (counter_ms (odo w')) 32) low /\
  snd (fst r) = fmt_counter (fst (fst r)).
Proof.
  intros Hms st low r w'. subst r w' st low.
  rewrite counter_show_eq. cbn [fst snd odo io_log counter_ms counter_ls].
  repeat split.
  - intros -> Hroom. apply u32_small. lia.
  - pose proof (counter_show_flag_clear w) as Hc.
    rewrite counter_show_eq in Hc. exact Hc.
  - apply counter_64_lor; [|apply reg_word_range].
    destruct (flag_set w); [apply u32_range|exact Hms].
Qed.

Lemma counter_show_steps_witness :
  0 <= counter_ms (odo world_wrapped) < 2 ^ 32 /\
  counter_ms (odo (snd (counter_show world_wrapped))) = 8 /\
  fst (fst (counter_show world_wrapped)) = 0x80000000C.
Proof.
  assert (H : 0 <= counter_ms (odo world_wrapped) < 2 ^ 32) by (simpl; lia).
  split; [exact H|].
  destruct (counter_show_steps world_wrapped H) as (_ & Hms & _ & _ & _ & Hv & _).
  split; [rewrite Hms; reflexivity | rewrite Hv; reflexivity].
Defined.

(** ** The register field accessor, continued *)

(** [odo_set_gpt_field] in closed form: one read of the register, one
    write to the same register. *)
Lemma odo_set_gpt_field_eq reg pos sz val (w : world) :
  odo_set_gpt_field reg (pos, sz) val w =
  let r := reg_peek w reg in
  let x := u32 (Z.lor (reset_field (Z.to_nat sz) pos (s32 r)) (shl val pos)) in
  (tt, World (odo w) (<[reg := gpt_store reg x r]> (vmem w)) (jiffies w)
             (io_log w ++ [IoRead reg r; IoWrite reg x])).
Proof.
  unfold odo_set_gpt_field. run_m. rewrite <- app_assoc. reflexivity.
Qed.

Lemma field_put_range r p sz v :
  0 <= r < 2 ^ 32 -> 0 <= p -> 0 <= sz -> p + sz <= 32 -> 0 <= v < 2 ^ sz ->
  0 <= field_put r (p, sz) v < 2 ^ 32.
Proof.
  intros Hr Hp Hs Hps Hv.
  assert (Hnn : 0 <= field_put r (p, sz) v).
  { unfold field_put. apply Z.lor_nonneg. split.
    - apply Z.land_nonneg. lia.
    - apply Z.shiftl_nonneg. lia. }
  split; [exact Hnn|].
  destruct (Z.eq_dec (field_put r (p, sz) v) 0) as [->|Hnz]; [lia|].
  apply Z.log2_lt_pow2; [lia|].
  destruct (Z.lt_ge_cases (Z.log2 (field_put r (p, sz) v)) 32) as [Hl|Hl]; [exact Hl|].
  pose proof (Z.bit_log2 (field_put r (p, sz) v) ltac:(lia)) as Hb.
  rewrite field_put_testbit in Hb by (try apply Z.log2_nonneg; lia).
  rewrite (small_testbit_high r 32 _ Hr) in Hb by lia.
  rewrite (small_testbit_high v sz _ Hv) in Hb by lia.
  discriminate.
Qed.

(** The accessor on a plain register, for a value that fits the field. *)
Lemma odo_set_gpt_field_put reg p sz val v (w : world) :
  val = s32 v ->
  0 <= p -> 0 <= sz -> p + sz <= 32 -> 0 <= v < 2 ^ sz -> reg <> TSTAT_REG ->
  odo_set_gpt_field reg (p, sz) val w =
  let r := reg_peek w reg in
  (tt, World (odo w) (<[reg := field_put r (p, sz) v]> (vmem w)) (jiffies w)
             (io_log w ++ [IoRead reg r; IoWrite reg (field_put r (p, sz) v)])).
Proof.
  intros -> Hp Hs Hps Hv Hreg.
  rewrite odo_set_gpt_field_eq. cbv zeta.
  rewrite (odo_set_gpt_field_word (reg_peek w reg) p sz v) by (try apply reg_word_range; lia).
  unfold gpt_store. destruct (Z.eqb_spec reg TSTAT_REG); [contradiction|reflexivity].
Qed.

(** C7.  The field accessor on a register holding [r], for a field at bit
    offset [p] of width [sz] inside the 32 bits and a value [v] that fits
    the field: it reads the register once and writes back, to that same
    register and to no other, exactly [r] with the field cleared or-ed with
    [v << p]; the bits outside the field are those of [r], the bits inside
    are those of [v]. *)
Theorem odo_set_gpt_field_spec (w : world) (reg p sz v : Z) :
  0 <= p -> 0 <= sz -> p + sz <= 32 -> 0 <= v < 2 ^ sz ->
  let r := reg_peek w reg in
  let r' := Z.lor (Z.land r (Z.lnot (Z.shiftl (Z.ones sz) p))) (Z.shiftl v p) in
  let w' := snd (odo_set_gpt_field reg (p, sz) (s32 v) w) in
  io_log w' = io_log w ++ [IoRead reg r; IoWrite reg r'] /\
  (forall i, ~ (p <= i < p + sz) -> Z.testbit r' i = Z.testbit r i) /\
  (forall i, p <= i < p + sz -> Z.testbit r' i = Z.testbit v (i - p)) /\
  (forall off, off <> reg -> vmem w' !! off = vmem w !! off) /\
  (reg <> TSTAT_REG -> reg_peek w' reg = r') /\
  odo w' = odo w /\ jiffies w' = jiffies w.
Proof.
  intros Hp Hs Hps Hv r r' w'. subst w'.
  rewrite odo_set_gpt_field_eq. cbn [snd io_log vmem odo jiffies]. fold r.
  assert (Hr : 0 <= r < 2 ^ 32) by apply reg_word_range.
  rewrite (odo_set_gpt_field_word r p sz v Hr Hp Hs Hps Hv).
  change (field_put r (p, sz) v) with r'.
  assert (Hbits : forall i, 0 <= i -> Z.testbit r' i =
            Z.testbit r i && negb ((p <=? i) && (i <? p + sz)) || Z.testbit v (i - p)).
  { intros i Hi. apply (field_put_testbit r p sz v i); lia. }
  repeat split.
  - intros i Hout. destruct (Z.neg_nonneg_cases i).
    + rewrite !Z.testbit_neg_r by lia. reflexivity.
    + rewrite Hbits by lia.
      destruct (Z.leb_spec p i), (Z.ltb_spec i (p + sz)); try lia; simpl;
        rewrite andb_true_r.
      * rewrite (small_testbit_high v sz) by lia. apply orb_false_r.
      * rewrite (Z.testbit_neg_r v) by lia. apply orb_false_r.
  - intros i Hin. rewrite Hbits by lia.
    destruct (Z.leb_spec p i), (Z.ltb_spec i (p + sz)); try lia; simpl.
    rewrite andb_false_r. reflexivity.
  - intros off Hoff. apply lookup_insert_ne. congruence.
  - intros Hreg. unfold reg_peek. cbn [vmem]. rewrite reg_word_insert.
    unfold gpt_store. destruct (Z.eqb_spec reg TSTAT_REG); [contradiction|].
    apply u32_small. apply (field_put_range r p sz v); lia.
Qed.

Lemma odo_set_gpt_field_spec_witness :
  (0 <= 1 /\ 0 <= 3 /\ 1 + 3 <= 32 /\ 0 <= 5 < 2 ^ 3) /\
  io_log (snd (odo_set_gpt_field TCTL_REG (1, 3) (s32 5) world0)) =
  io_log world0 ++ [IoRead TCTL_REG 1047; IoWrite TCTL_REG 1051].
Proof.
  split; [lia|].
  exact (proj1 (odo_set_gpt_field_spec world0 TCTL_REG 1 3 5
                  ltac:(lia) ltac:(lia) ltac:(lia) ltac:(lia))).
Defined.

(** ** The timer configurator *)

Lemma field_get_testbit r p sz i :
  0 <= p -> 0 <= sz -> 0 <= i ->
  Z.testbit (field_get r (p, sz)) i = Z.testbit r (i + p) && (i <? sz).
Proof.
  intros Hp Hs Hi. unfold field_get.
  rewrite Z.land_spec, Z.shiftr_spec, Z.testbit_ones_nonneg by lia.
  reflexivity.
Qed.

(** Reading back the field that was put. *)
Lemma field_get_put r p sz v :
  0 <= p -> 0 <= sz -> 0 <= v < 2 ^ sz ->
  field_get (field_put r (p, sz) v) (p, sz) = v.
Proof.
  intros Hp Hs Hv. apply Z.bits_inj'. intros i Hi.
  rewrite field_get_testbit, field_put_testbit by lia.
  replace (i + p - p) with i by lia.
  destruct (Z.ltb_spec i sz).
  - destruct (Z.leb_spec p (i + p)), (Z.ltb_spec (i + p) (p + sz)); try lia.
    simpl. rewrite andb_false_r, andb_true_r. reflexivity.
  - rewrite (small_testbit_high v sz) by lia. apply andb_false_r.
Qed.

(** Putting one field leaves a disjoint field as it was. *)
Lemma field_get_put_other r p sz v p' sz' :
  0 <= p -> 0 <= sz -> 0 <= v < 2 ^ sz -> 0 <= p' -> 0 <= sz' ->
  p + sz <= p' \/ p' + sz' <= p ->
  field_get (field_put r (p, sz) v) (p', sz') = field_get r (p', sz').
Proof.
  intros Hp Hs Hv Hp' Hs' Hdisj. apply Z.bits_inj'. intros i Hi.
  rewrite !field_get_testbit, field_put_testbit by lia.
  destruct (Z.ltb_spec i sz'); [|rewrite !andb_false_r; reflexivity].
  rewrite !andb_true_r.
  destruct (Z.leb_spec p (i + p')), (Z.ltb_spec (i + p') (p + sz)); try lia; simpl;
    rewrite andb_true_r.
  - rewrite (small_testbit_high v sz) by lia. apply orb_false_r.
  - rewrite (Z.testbit_neg_r v) by lia. apply orb_false_r.
Qed.

Lemma field_put_whole r v :
  0 <= r < 2 ^ 32 -> 0 <= v < 2 ^ 32 -> field_put r (0, 32) v = v.
Proof.
  intros Hr Hv. apply Z.bits_inj'. intros i Hi.
  rewrite field_put_testbit by lia. replace (i - 0) with i by lia.
  destruct (Z.ltb_spec i (0 + 32)).
  - destruct (Z.leb_spec 0 i); [|lia]. simpl. rewrite andb_false_r. reflexivity.
  - rewrite (small_testbit_high r 32), (small_testbit_high v 32) by lia. reflexivity.
Qed.

Lemma bind_eq {A B} (m : M A) (k : A -> M B) w :
  bind m k w = k (fst (m w)) (snd (m w)).
Proof. unfold bind. destruct (m w). reflexivity. Qed.

Ltac unfold_fields :=
  unfold TCTL_TEN, TCTL_CC, TCTL_CLKSOURCE, TPRER_PRESCALER, TCTL_COMP_EN,
    TCTL_FRR, TCMP_CMP in *.

(** One field write of the configurator, on a plain register and with a
    value that fits the field; then read the touched registers back. *)
Ltac setup_step v :=
  rewrite bind_eq;
  rewrite (odo_set_gpt_field_put _ _ _ _ v)
    by first [reflexivity | lia | discriminate];
  cbv zeta; cbn [fst snd odo vmem jiffies io_log];
  unfold reg_peek; cbn [vmem];
  repeat (rewrite reg_word_insert || rewrite reg_word_insert_ne by discriminate).

(** C8.  [odo_timer_setup] issues eight field writes, each a read of the
    register followed by a write of the word with the field replaced, in
    this order: enable bit off; reset-on-disable (CC) on; clock source 3
    (the TIN pulse input); prescaler field 0 (divide by 1); compare enable
    on; free-run bit off (restart on compare); compare value 0xFFFFFFFF;
    enable bit on.  The enable bit is off in every control word written
    before the last one. *)
Theorem odo_timer_setup_sequence (w : world) :
  let c0 := reg_peek w TCTL_REG in
  let c1 := field_put c0 TCTL_TEN 0 in
  let c2 := field_put c1 TCTL_CC 1 in
  let c3 := field_put c2 TCTL_CLKSOURCE 3 in
  let p0 := reg_peek w TPRER_REG in
  let p1 := field_put p0 TPRER_PRESCALER 0 in
  let c4 := field_put c3 TCTL_COMP_EN 1 in
  let c5 := field_put c4 TCTL_FRR 0 in
  let m0 := reg_peek w TCMP_REG in
  let c6 := field_put c5 TCTL_TEN 1 in
  let w' := snd (odo_timer_setup w) in
  io_log w' = io_log w ++
    [IoRead TCTL_REG c0; IoWrite TCTL_REG c1;
     IoRead TCTL_REG c1; IoWrite TCTL_REG c2;
     IoRead TCTL_REG c2; IoWrite TCTL_REG c3;
     IoRead TPRER_REG p0; IoWrite TPRER_REG p1;
     IoRead TCTL_REG c3; IoWrite TCTL_REG c4;
     IoRead TCTL_REG c4; IoWrite TCTL_REG c5;
     IoRead TCMP_REG m0; IoWrite TCMP_REG 0xFFFFFFFF;
     IoRead TCTL_REG c5; IoWrite TCTL_REG c6] /\
  Forall (fun c => field_get c TCTL_TEN = 0) [c1; c2; c3; c4; c5] /\
  (reg_peek w' TCTL_REG = c6 /\ reg_peek w' TPRER_REG = p1 /\
   reg_peek w' TCMP_REG = 0xFFFFFFFF) /\
  (field_get c6 TCTL_TEN = 1 /\ field_get c6 TCTL_CC = 1 /\
   field_get c6 TCTL_CLKSOURCE = 3 /\ field_get p1 TPRER_PRESCALER = 0 /\
   field_get c6 TCTL_COMP_EN = 1 /\ field_get c6 TCTL_FRR = 0) /\
  odo w' = odo w /\ fst (odo_timer_setup w) = 0.
Proof.
  intros c0 c1 c2 c3 p0 p1 c4 c5 m0 c6 w'.
  assert (H0 : 0 <= c0 < 2 ^ 32) by apply reg_word_range.
  assert (Hp0 : 0 <= p0 < 2 ^ 32) by apply reg_word_range.
  assert (Hm0 : 0 <= m0 < 2 ^ 32) by apply reg_word_range.
  assert (H1 : 0 <= c1 < 2 ^ 32) by (apply field_put_range; lia).
  assert (H2 : 0 <= c2 < 2 ^ 32) by (apply field_put_range; lia).
  assert (H3 : 0 <= c3 < 2 ^ 32) by (apply field_put_range; lia).
  assert (H4 : 0 <= c4 < 2 ^ 32) by (apply field_put_range; lia).
  assert (H5 : 0 <= c5 < 2 ^ 32) by (apply field_put_range; lia).
  assert (H6 : 0 <= c6 < 2 ^ 32) by (apply field_put_range; lia).
  assert (Hp1 : 0 <= p1 < 2 ^ 32) by (apply field_put_range; lia).
  assert (Heq : odo_timer_setup w =
    (0, World (odo w)
          (<[TCTL_REG := c6]> (<[TCMP_REG := 0xFFFFFFFF]> (<[TCTL_REG := c5]>
           (<[TCTL_REG := c4]> (<[TPRER_REG := p1]> (<[TCTL_REG := c3]>
           (<[TCTL_REG := c2]> (<[TCTL_REG := c1]> (vmem w)))))))))
          (jiffies w)
          (io_log w ++
             [IoRead TCTL_REG c0; IoWrite TCTL_REG c1;
              IoRead TCTL_REG c1; IoWrite TCTL_REG c2;
              IoRead TCTL_REG c2; IoWrite TCTL_REG c3;
              IoRead TPRER_REG p0; IoWrite TPRER_REG p1;
              IoRead TCTL_REG c3; IoWrite TCTL_REG c4;
              IoRead TCTL_REG c4; IoWrite TCTL_REG c5;
              IoRead TCMP_REG m0; IoWrite TCMP_REG 0xFFFFFFFF;
              IoRead TCTL_REG c5; IoWrite TCTL_REG c6]))).
  { unfold odo_timer_setup.
    unfold_fields.
    setup_step 0. change (field_put (reg_word (vmem w) TCTL_REG) (0, 1) 0) with c1.
    setup_step 1. rewrite (u32_small c1 H1). change (field_put c1 (10, 1) 1) with c2.
    setup_step 3. rewrite (u32_small c2 H2). change (field_put c2 (1, 3) 3) with c3.
    setup_step 0. change (field_put (reg_word (vmem w) TPRER_REG) (0, 10) 0) with p1.
    setup_step 1. rewrite (u32_small c3 H3). change (field_put c3 (4, 1) 1) with c4.
    setup_step 0. rewrite (u32_small c4 H4). change (field_put c4 (8, 1) 0) with c5.
    setup_step 0xFFFFFFFF.
    rewrite (field_put_whole (reg_word (vmem w) TCMP_REG) 0xFFFFFFFF)
      by (try apply reg_word_range; lia).
    setup_step 1. rewrite (u32_small c5 H5). change (field_put c5 (0, 1) 1) with c6.
    unfold ret. rewrite <- !app_assoc. reflexivity. }
  subst w'. rewrite Heq. cbn [fst snd io_log odo].
  assert (G1 : field_get c1 TCTL_TEN = 0) by (apply field_get_put; lia).
  assert (G2 : field_get c2 TCTL_TEN = 0).
  { unfold c2. unfold_fields. rewrite field_get_put_other by lia. exact G1. }
  assert (G3 : field_get c3 TCTL_TEN = 0).
  { unfold c3. unfold_fields. rewrite field_get_put_other by lia. exact G2. }
  assert (G4 : field_get c4 TCTL_TEN = 0).
  { unfold c4. unfold_fields. rewrite field_get_put_other by lia. exact G3. }
  assert (G5 : field_get c5 TCTL_TEN = 0).
  { unfold c5. unfold_fields. rewrite field_get_put_other by lia. exact G4. }
  split; [reflexivity|].
  split; [repeat constructor; assumption|].
  split.
  { unfold reg_peek. cbn [vmem].
    repeat (rewrite reg_word_insert || rewrite reg_word_insert_ne by discriminate).
    rewrite (u32_small c6 H6), (u32_small p1 Hp1). repeat split. }
  split; [|split; reflexivity].
  unfold c6, c5, c4, c3, c2, c1, p1. unfold_fields.
  repeat split.
  - apply field_get_put; lia.
  - rewrite !field_get_put_other by lia.
    apply field_get_put; lia.
  - rewrite !field_get_put_other by lia.
    apply field_get_put; lia.
  - apply field_get_put; lia.
  - rewrite !field_get_put_other by lia.
    apply field_get_put; lia.
  - rewrite !field_get_put_other by lia.
    apply field_get_put; lia.
Qed.

(** ** The reset coordinator *)

Lemma gpt_settle_other regs off :
  off <> TCN_REG -> reg_word (gpt_settle regs) off = reg_word regs off.
Proof.
  intros Hoff. unfold gpt_settle.
  destruct (negb _ && _); [|reflexivity].
  apply reg_word_insert_ne. congruence.
Qed.

Lemma modify_odo_eq f (w : world) :
  modify_odo f w = (tt, World (f (odo w)) (vmem w) (jiffies w) (io_log w)).
Proof. reflexivity. Qed.

(** [odo_reset_count] in closed form. *)
Lemma odo_reset_count_eq (w : world) :
  odo_reset_count w =
  let c0 := reg_peek w TCTL_REG in
  let c1 := field_put c0 TCTL_TEN 0 in
  let c2 := field_put c1 TCTL_TEN 1 in
  (0, World (set_counter_ls 0 (set_counter_ms 0 (odo w)))
        (<[TCTL_REG := c2]> (gpt_settle (<[TCTL_REG := c1]> (vmem w))))
        (jiffies w)
        (io_log w ++ [IoRead TCTL_REG c0; IoWrite TCTL_REG c1; Sleep 10;
                      IoRead TCTL_REG c1; IoWrite TCTL_REG c2])).
Proof.
  cbv zeta.
  set (c0 := reg_peek w TCTL_REG).
  set (c1 := field_put c0 TCTL_TEN 0).
  set (c2 := field_put c1 TCTL_TEN 1).
  assert (H1 : 0 <= c1 < 2 ^ 32)
    by (apply field_put_range; try apply reg_word_range; lia).
  unfold odo_reset_count. unfold_fields.
  rewrite bind_eq, modify_odo_eq. cbn [fst snd].
  rewrite bind_eq, modify_odo_eq. cbn [fst snd odo vmem jiffies io_log].
  setup_step 0. change (field_put (reg_word (vmem w) TCTL_REG) (0, 1) 0) with c1.
  rewrite bind_eq. unfold msleep at 1. cbn [fst snd odo vmem jiffies io_log].
  setup_step 1.
  rewrite gpt_settle_other, reg_word_insert by discriminate.
  rewrite (u32_small c1 H1). change (field_put c1 (0, 1) 1) with c2.
  rewrite <- !app_assoc. reflexivity.
Qed.

(** The parser fails with a negative errno only. *)
Lemma _kstrtoull_error s base e :
  _kstrtoull s base = inl e -> e = - EINVAL \/ e = - ERANGE.
Proof.
  unfold _kstrtoull. destruct (_parse_integer s base 0 0) as [[res rv] rest].
  destruct (2 ^ 64 <=? res); [intros [= <-]; right; reflexivity|].
  destruct (rv =? 0); [intros [= <-]; left; reflexivity|].
  destruct (at_end _); [discriminate|intros [= <-]; left; reflexivity].
Qed.

Lemma kstrtoint_error s base e :
  kstrtoint s base = inl e -> e = - EINVAL \/ e = - ERANGE.
Proof.
  unfold kstrtoint, kstrtoll, kstrtoull.
  destruct (starts_with "-" s).
  - destruct (_kstrtoull (skip_char "-" s) base) as [rv|tmp] eqn:Hp.
    + intros [= <-]. exact (_kstrtoull_error _ _ _ Hp).
    + destruct (2 ^ 63 <? tmp); [intros [= <-]; right; reflexivity|].
      destruct (_ =? _); [discriminate|intros [= <-]; right; reflexivity].
  - destruct (_kstrtoull (skip_char "+" s) base) as [rv|tmp] eqn:Hp.
    + intros [= <-]. exact (_kstrtoull_error _ _ _ Hp).
    + destruct (2 ^ 63 <=? tmp); [intros [= <-]; right; reflexivity|].
      destruct (_ =? _); [discriminate|intros [= <-]; right; reflexivity].
Qed.

(** The writes of the spec's own examples, and the one that reaches the
    character constant of the comparison. *)
Example kstrtoint_examples :
  kstrtoint "1" 10 = inr 1 /\ kstrtoint "0" 10 = inr 0 /\
  kstrtoint "abc" 10 = inl (- EINVAL) /\ kstrtoint "49" 10 = inr 49 /\
  kstrtoint (String "1" (String "010" EmptyString)) 10 = inr 1 /\
  kstrtoint "-1" 10 = inr (-1) /\ kstrtoint "+1" 10 = inr 1 /\
  kstrtoint "1 " 10 = inl (- EINVAL) /\ kstrtoint "" 10 = inl (- EINVAL) /\
  kstrtoint "2147483648" 10 = inl (- ERANGE) /\
  kstrtoint "-2147483648" 10 = inr (-2147483648).
Proof. repeat split; reflexivity. Qed.

(** A write that asks for a reset, in closed form. *)
Lemma reset_store_reset_eq buf count reset (w : world) :
  kstrtoint buf 10 = inr reset ->
  (reset =? 1) || (reset =? Z.of_N (N_of_ascii "1")) = true ->
  reset_store buf count w =
  let c0 := reg_peek w TCTL_REG in
  let c1 := field_put c0 TCTL_TEN 0 in
  let c2 := field_put c1 TCTL_TEN 1 in
  (count, World (Mk_odo (gpt_base (odo w)) 0 0 0 0 0)
        (<[TCTL_REG := c2]> (gpt_settle (<[TCTL_REG := c1]> (vmem w))))
        (jiffies w)
        (io_log w ++ [IoRead TCTL_REG c0; IoWrite TCTL_REG c1; Sleep 10;
                      IoRead TCTL_REG c1; IoWrite TCTL_REG c2])).
Proof.
  intros Hparse Hone. unfold reset_store. rewrite Hparse, Hone.
  unfold when. rewrite !bind_eq, odo_reset_count_eq. cbv zeta. reflexivity.
Qed.

(** A write that parses but does not ask for a reset, and a write that does
    not parse. *)
Lemma reset_store_noop_eq buf count reset (w : world) :
  kstrtoint buf 10 = inr reset ->
  (reset =? 1) || (reset =? Z.of_N (N_of_ascii "1")) = false ->
  reset_store buf count w = (count, w).
Proof.
  intros Hparse Hone. unfold reset_store. rewrite Hparse, Hone. reflexivity.
Qed.

Lemma reset_store_error_eq buf count e (w : world) :
  kstrtoint buf 10 = inl e -> reset_store buf count w = (e, w).
Proof. intros Hparse. unfold reset_store. rewrite Hparse. reflexivity. Qed.

(** The control word after a reset: bit 0 set, the rest as before. *)
Lemma reenabled_word c0 :
  0 <= c0 < 2 ^ 32 ->
  let c2 := field_put (field_put c0 TCTL_TEN 0) TCTL_TEN 1 in
  0 <= c2 < 2 ^ 32 /\
  forall i, Z.testbit c2 i = if i =? 0 then true else Z.testbit c0 i.
Proof.
  intros H0 c2. unfold_fields.
  assert (H1 : 0 <= field_put c0 (0, 1) 0 < 2 ^ 32) by (apply field_put_range; lia).
  split; [apply field_put_range; lia|].
  intros i. destruct (Z.neg_nonneg_cases i).
  - rewrite !Z.testbit_neg_r by lia. destruct (Z.eqb_spec i 0); [lia|reflexivity].
  - unfold c2. rewrite !field_put_testbit by lia. rewrite !bit_of_one.
    rewrite Z.bits_0.
    destruct (Z.eqb_spec i 0) as [->|Hi]; [apply orb_true_r|].
    destruct (Z.eqb_spec (i - 0) 0); [lia|].
    destruct (Z.leb_spec 0 i), (Z.ltb_spec i (0 + 1)); try lia; simpl.
    rewrite !andb_true_r, !orb_false_r. reflexivity.
Qed.

Lemma field_get_ext a b p sz :
  0 <= p -> 0 <= sz ->
  (forall i, p <= i -> Z.testbit a i = Z.testbit b i) ->
  field_get a (p, sz) = field_get b (p, sz).
Proof.
  intros Hp Hs Hab. apply Z.bits_inj'. intros i Hi.
  rewrite !field_get_testbit by lia. rewrite Hab by lia. reflexivity.
Qed.

Lemma field_get_enabled c :
  Z.testbit c 0 = true -> field_get c TCTL_TEN = 1.
Proof.
  intros Hc. unfold_fields. apply Z.bits_inj'. intros i Hi.
  rewrite field_get_testbit, bit_of_one by lia.
  destruct (Z.eqb_spec i 0) as [->|Hne].
  - change (0 + 0) with 0. rewrite Hc. reflexivity.
  - destruct (Z.ltb_spec i 1); [lia|]. apply andb_false_r.
Qed.

(** The registers after a reset, against those before it. *)
Lemma reset_registers (w : world) :
  let c0 := reg_peek w TCTL_REG in
  let c2 := field_put (field_put c0 TCTL_TEN 0) TCTL_TEN 1 in
  let regs' := <[TCTL_REG := c2]>
                 (gpt_settle (<[TCTL_REG := field_put c0 TCTL_TEN 0]> (vmem w))) in
  reg_word regs' TCTL_REG = c2 /\
  reg_word regs' TPRER_REG = reg_peek w TPRER_REG /\
  reg_word regs' TCMP_REG = reg_peek w TCMP_REG /\
  reg_word regs' TSTAT_REG = reg_peek w TSTAT_REG.
Proof.
  intros c0 c2 regs'. subst regs'.
  destruct (reenabled_word c0 (reg_word_range _ _)) as [H2 _]. fold c2 in H2.
  unfold reg_peek.
  rewrite reg_word_insert, (u32_small c2 H2).
  rewrite !reg_word_insert_ne, !gpt_settle_other, !reg_word_insert_ne by discriminate.
  repeat split.
Qed.

(** C3.  A write to the reset attribute, by what the written string parses
    to.  The integer 1, or 49 (the character constant '1' of the source's
    comparison): the high word and the telemetry are zeroed, the enable bit
    is left set, and the write succeeds with [count].  Any other integer:
    nothing changes, and the write succeeds with [count].  No integer: the
    write returns the parser's negative errno and nothing changes. *)
Theorem reset_store_cases (buf : string) (count : Z) (w : world) :
  let r := reset_store buf count w in
  let w' := snd r in
  match kstrtoint buf 10 with
  | inr reset =>
      fst r = count /\
      if (reset =? 1) || (reset =? Z.of_N (N_of_ascii "1"))
      then counter_ms (odo w') = 0 /\ counter_ls (odo w') = 0 /\
           nb_access (odo w') = 0 /\ first_access (odo w') = 0 /\
           last_access (odo w') = 0 /\
           field_get (reg_peek w' TCTL_REG) TCTL_TEN = 1
      else w' = w
  | inl rv => rv < 0 /\ fst r = rv /\ w' = w
  end.
Proof.
  intros r w'. subst r w'.
  destruct (kstrtoint buf 10) as [rv|reset] eqn:Hparse.
  - rewrite (reset_store_error_eq _ _ _ _ Hparse).
    destruct (kstrtoint_error _ _ _ Hparse) as [-> | ->]; repeat split.
  - destruct ((reset =? 1) || (reset =? Z.of_N (N_of_ascii "1"))) eqn:Hone.
    + rewrite (reset_store_reset_eq _ _ _ _ Hparse Hone).
      cbn [fst snd odo counter_ms counter_ls nb_access first_access last_access].
      repeat split.
      rewrite reg_peek_world.
      destruct (reset_registers w) as (-> & _).
      apply field_get_enabled.
      destruct (reenabled_word (reg_peek w TCTL_REG) (reg_word_range _ _)) as [_ Hb].
      rewrite Hb. reflexivity.
    + rewrite (reset_store_noop_eq _ _ _ _ Hparse Hone). split; reflexivity.
Qed.

(** The writes of the spec's examples on a driver in use: "1" resets and
    leaves the timer enabled, "0" changes nothing, "abc" is rejected with
    -EINVAL and changes nothing. *)
Example reset_store_examples :
  (fst (reset_store "1" 1 world_wrapped) = 1 /\
   odo (snd (reset_store "1" 1 world_wrapped))
     = Mk_odo (Z.lor MEM_BASE 0x4000) 0 0 0 0 0 /\
   reg_peek (snd (reset_store "1" 1 world_wrapped)) TCTL_REG
     = reg_peek world_wrapped TCTL_REG) /\
  reset_store "0" 1 world_wrapped = (1, world_wrapped) /\
  reset_store "abc" 3 world_wrapped = (- EINVAL, world_wrapped).
Proof. repeat split; vm_compute; reflexivity. Qed.

(** With reset-on-disable configured, the reset also leaves the hardware
    count at zero. *)
Lemma reset_store_clears_count (buf : string) (count reset : Z) (w : world) :
  kstrtoint buf 10 = inr reset ->
  (reset =? 1) || (reset =? Z.of_N (N_of_ascii "1")) = true ->
  Z.testbit (reg_peek w TCTL_REG) (fst TCTL_CC) = true ->
  reg_peek (snd (reset_store buf count w)) TCN_REG = 0.
Proof.
  intros Hparse Hone Hcc.
  rewrite (reset_store_reset_eq _ _ _ _ Hparse Hone). cbn [snd].
  rewrite reg_peek_world, reg_word_insert_ne by discriminate.
  set (c0 := reg_peek w TCTL_REG) in *.
  assert (H0 : 0 <= c0 < 2 ^ 32) by apply reg_word_range.
  assert (H1 : 0 <= field_put c0 TCTL_TEN 0 < 2 ^ 32)
    by (apply field_put_range; lia).
  unfold gpt_settle. rewrite reg_word_insert, (u32_small _ H1).
  unfold TCTL_TEN, TCTL_CC in *. cbn [fst] in *.
  rewrite !field_put_testbit by lia. rewrite Hcc, Z.bits_0.
  change ((0 <=? 0) && (0 <? 0 + 1)) with true.
  change ((0 <=? 10) && (10 <? 0 + 1)) with false.
  rewrite andb_false_r. cbn [negb andb orb]. apply reg_word_insert.
Qed.

(** C4.  After a write that resets: the high word, the access count and both
    timestamps are 0; the enable bit of the control register is set; every
    other bit of the control register, hence the clock source, compare
    enable, mode and reset-on-disable fields, is as before, and so are the
    prescaler and compare registers. *)
Theorem reset_store_frame (buf : string) (count : Z) (w : world) :
  kstrtoint buf 10 = inr 1 \/ kstrtoint buf 10 = inr (Z.of_N (N_of_ascii "1")) ->
  let w' := snd (reset_store buf count w) in
  let c := reg_peek w TCTL_REG in
  let c' := reg_peek w' TCTL_REG in
  (counter_ms (odo w') = 0 /\ nb_access (odo w') = 0 /\
   first_access (odo w') = 0 /\ last_access (odo w') = 0) /\
  field_get c' TCTL_TEN = 1 /\
  (forall i, i <> 0 -> Z.testbit c' i = Z.testbit c i) /\
  (field_get c' TCTL_CLKSOURCE = field_get c TCTL_CLKSOURCE /\
   field_get c' TCTL_COMP_EN = field_get c TCTL_COMP_EN /\
   field_get c' TCTL_FRR = field_get c TCTL_FRR /\
   field_get c' TCTL_CC = field_get c TCTL_CC) /\
  reg_peek w' TPRER_REG = reg_peek w TPRER_REG /\
  reg_peek w' TCMP_REG = reg_peek w TCMP_REG /\
  io_log w' = io_log w ++
    [IoRead TCTL_REG c; IoWrite TCTL_REG (field_put c TCTL_TEN 0); Sleep 10;
     IoRead TCTL_REG (field_put c TCTL_TEN 0); IoWrite TCTL_REG c'].
Proof.
  intros Hparse w' c c'.
  assert (Heq : exists reset, kstrtoint buf 10 = inr reset /\
            (reset =? 1) || (reset =? Z.of_N (N_of_ascii "1")) = true).
  { destruct Hparse as [H|H]; eexists; (split; [exact H|reflexivity]). }
  destruct Heq as (reset & Hp & Hone).
  subst c' w'. rewrite (reset_store_reset_eq _ _ _ _ Hp Hone).
  cbn [snd odo io_log counter_ms counter_ls nb_access first_access last_access].
  rewrite !reg_peek_world.
  destruct (reset_registers w) as (Hc & Hpr & Hcm & _).
  cbv zeta in Hc, Hpr, Hcm. rewrite !Hc, Hpr, Hcm. fold c.
  destruct (reenabled_word c (reg_word_range _ _)) as [_ Hb].
  assert (Hrest : forall i, i <> 0 ->
            Z.testbit (field_put (field_put c TCTL_TEN 0) TCTL_TEN 1) i = Z.testbit c i).
  { intros i Hi. rewrite Hb. destruct (Z.eqb_spec i 0); [contradiction|reflexivity]. }
  split; [repeat split|].
  split; [apply field_get_enabled; rewrite Hb; reflexivity|].
  split; [exact Hrest|].
  split; [|repeat split].
  unfold TCTL_CLKSOURCE, TCTL_COMP_EN, TCTL_FRR, TCTL_CC.
  repeat split; apply field_get_ext; try lia; intros i Hi; apply Hrest; lia.
Qed.

Lemma reset_store_frame_witness :
  (kstrtoint "1" 10 = inr 1 \/ kstrtoint "1" 10 = inr (Z.of_N (N_of_ascii "1"))) /\
  counter_ms (odo (snd (reset_store "1" 1 world_wrapped))) = 0 /\
  field_get (reg_peek (snd (reset_store "1" 1 world_wrapped)) TCTL_REG) TCTL_TEN = 1.
Proof.
  assert (H : kstrtoint "1" 10 = inr 1 \/
              kstrtoint "1" 10 = inr (Z.of_N (N_of_ascii "1")))
    by (left; reflexivity).
  split; [exact H|].
  destruct (reset_store_frame "1" 1 world_wrapped H) as ((Hms & _) & Hen & _).
  split; [exact Hms | exact Hen].
Defined.

(** ** The extended counter, the events coming between the reads *)

Lemma counter_64_value ms ls :
  0 <= ms < 2 ^ 32 -> 0 <= ls < 2 ^ 32 ->
  u64 (u64 (Z.shiftl (u64 ms) 32) + ls) = ms * 2 ^ 32 + ls.
Proof.
  intros Hm Hl. unfold u64. rewrite (Z.mod_small ms) by lia.
  rewrite Z.shiftl_mul_pow2 by lia.
  rewrite (Z.mod_small (ms * 2 ^ 32)) by nia.
  apply Z.mod_small. nia.
Qed.

Lemma carry_cases (w : world) : carry w = 0 \/ carry w = 1.
Proof. unfold carry. destruct (flag_set w); [right|left]; reflexivity. Qed.

(** A read while the high word has room for the carry. *)
Lemma counter_show_no_overflow (w : world) :
  0 <= counter_ms (odo w) -> counter_ms (odo w) + carry w < 2 ^ 32 ->
  fst (fst (counter_show w)) =
    (counter_ms (odo w) + carry w) * 2 ^ 32 + reg_peek w TCN_REG /\
  counter_ms (odo (snd (counter_show w))) = counter_ms (odo w) + carry w.
Proof.
  intros Hlo Hhi. rewrite counter_show_eq. cbn [fst snd odo counter_ms].
  unfold carry in *. destruct (flag_set w).
  - rewrite (u32_small (counter_ms (odo w) + 1)) by lia.
    split; [|reflexivity].
    apply counter_64_value; [lia|apply reg_word_range].
  - rewrite Z.add_0_r in *. split; [|reflexivity].
    apply counter_64_value; [lia|apply reg_word_range].
Qed.

Lemma raised_flag x : Z.land (u32 (Z.lor x 1)) 1 = 1.
Proof.
  apply Z.bits_inj'. intros i Hi.
  rewrite Z.land_spec, u32_testbit, Z.lor_spec, bit_of_one.
  destruct (Z.eqb_spec i 0) as [->|Hne]; [|apply andb_false_r].
  rewrite orb_true_r. reflexivity.
Qed.

Lemma poll_unfold evs (w : world) :
  poll evs w =
  Sample w (fst (fst (counter_show w))) (snd (counter_show w)) ::
  match evs with
  | [] => []
  | e :: evs' => poll evs' (env_step e (snd (counter_show w)))
  end.
Proof. destruct evs; reflexivity. Qed.

(** The 64-bit value runs out as well: when the high word is at 2^32 - 1
    the next carry wraps it to 0 and the value returned drops. *)
Lemma poll_drops_at_full_high_word :
  Forall at_most_one_wrap [HwEvent (2 ^ 32 - 2) 1] /\
  world_ok world_full /\
  map out (poll [HwEvent (2 ^ 32 - 2) 1] world_full) = [0xFFFFFFFF00000005; 3] /\
  ~ StronglySorted Z.le (map out (poll [HwEvent (2 ^ 32 - 2) 1] world_full)).
Proof.
  split; [repeat constructor; unfold at_most_one_wrap; simpl; lia|].
  split; [unfold world_ok, odo_ok; simpl; lia|].
  assert (Hout : map out (poll [HwEvent (2 ^ 32 - 2) 1] world_full)
                 = [0xFFFFFFFF00000005; 3]) by (vm_compute; reflexivity).
  split; [exact Hout|].
  rewrite Hout. intros Hs. inversion Hs as [|a l _ Hall]; subst.
  inversion Hall as [|b l' Hle _]; subst. lia.
Qed.

(** *** The full high word can be reached from a fresh driver *)

(** Pulses that do not take the count past its maximum. *)
Lemma env_step_no_wrap (e : hw_event) (w : world) :
  Z.testbit (reg_peek w TCTL_REG) (fst TCTL_TEN) = true ->
  0 <= pulses e -> reg_peek w TCN_REG + pulses e < 2 ^ 32 ->
  let w2 := env_step e w in
  odo w2 = odo w /\ reg_peek w2 TCTL_REG = reg_peek w TCTL_REG /\
  reg_peek w2 TCN_REG = reg_peek w TCN_REG + pulses e /\ carry w2 = carry w.
Proof.
  intros Hen Hd Hfit w2. subst w2.
  unfold carry, flag_set, env_step, gpt_count.
  rewrite !reg_peek_world. unfold reg_peek in *. rewrite Hen. cbn [negb].
  destruct (Z.ltb_spec (reg_word (vmem w) TCN_REG + pulses e) (2 ^ 32)); [|lia].
  rewrite (reg_word_insert_ne _ TCN_REG TSTAT_REG) by discriminate.
  rewrite (reg_word_insert_ne _ TCN_REG TCTL_REG) by discriminate.
  rewrite reg_word_insert.
  rewrite (u32_small (reg_word (vmem w) TCN_REG + pulses e)); [repeat split|].
  pose proof (reg_word_range (vmem w) TCN_REG). lia.
Qed.

(** Pulses that take the count past its maximum. *)
Lemma env_step_wrap (e : hw_event) (w : world) :
  Z.testbit (reg_peek w TCTL_REG) (fst TCTL_TEN) = true ->
  2 ^ 32 <= reg_peek w TCN_REG + pulses e ->
  let w2 := env_step e w in
  odo w2 = odo w /\ reg_peek w2 TCTL_REG = reg_peek w TCTL_REG /\
  reg_peek w2 TCN_REG = u32 (reg_peek w TCN_REG + pulses e) /\ carry w2 = 1.
Proof.
  intros Hen Hwrap w2. subst w2.
  unfold carry, flag_set, env_step, gpt_count.
  rewrite !reg_peek_world. unfold reg_peek in *. rewrite Hen. cbn [negb].
  destruct (Z.ltb_spec (reg_word (vmem w) TCN_REG + pulses e) (2 ^ 32)); [lia|].
  rewrite (reg_word_insert _ TSTAT_REG).
  change TSTAT_COMP with 1. rewrite raised_flag.
  rewrite !(reg_word_insert_ne _ TSTAT_REG) by discriminate.
  rewrite (reg_word_insert_ne _ TCN_REG TCTL_REG) by discriminate.
  rewrite reg_word_insert, u32_idem. repeat split.
Qed.

Lemma carry_flag_clear (w : world) : flag_set w = false -> carry w = 0.
Proof. unfold carry. intros ->. reflexivity. Qed.

(** A read at a turn of the counter. *)
Lemma counter_show_at_turn (k : Z) (w : world) :
  at_turn k w -> k < 2 ^ 32 ->
  fst (fst (counter_show w)) = k * 2 ^ 32 /\
  let w1 := snd (counter_show w) in
  Z.testbit (reg_peek w1 TCTL_REG) (fst TCTL_TEN) = true /\
  reg_peek w1 TCN_REG = 0 /\ counter_ms (odo w1) = k /\ carry w1 = 0.
Proof.
  intros (Hen & Hcn & Hlo & Hk) Hfit.
  destruct (counter_show_no_overflow w Hlo ltac:(lia)) as [Hv Hms].
  cbv zeta. rewrite Hv, Hms, Hcn, Hk. split; [lia|].
  rewrite !counter_show_regs by discriminate.
  repeat split; try assumption.
  apply carry_flag_clear, counter_show_flag_clear.
Qed.

(** One pulse, a read, a turn less one pulse: the next read is one turn on. *)
Lemma one_carry_step (k : Z) (w : world) (rest : list hw_event) :
  at_turn k w -> k < 2 ^ 32 ->
  exists w2,
    at_turn (k + 1) w2 /\
    map out (poll (one_carry ++ rest) w) =
      k * 2 ^ 32 :: k * 2 ^ 32 + 1 :: map out (poll rest w2).
Proof.
  intros Hturn Hfit.
  destruct (counter_show_at_turn k w Hturn Hfit) as (Hv & Hen & Hcn & Hms & Hc).
  assert (Hk : 0 <= k)
    by (destruct Hturn as (_ & _ & ? & ?), (carry_cases w); lia).
  set (w1 := snd (counter_show w)) in *.
  destruct (env_step_no_wrap (HwEvent 1 0) w1 Hen) as (Ho & Hen2 & Hcn2 & Hc2);
    [simpl; lia | rewrite Hcn; simpl; lia |].
  set (w2 := env_step (HwEvent 1 0) w1) in *.
  cbn [pulses] in Hcn2. rewrite Hcn in Hcn2. rewrite Hc in Hc2.
  assert (Hen2' : Z.testbit (reg_peek w2 TCTL_REG) (fst TCTL_TEN) = true)
    by (rewrite Hen2; exact Hen).
  assert (Hms2 : counter_ms (odo w2) = k) by (rewrite Ho; exact Hms).
  destruct (counter_show_no_overflow w2) as [Hv2 Hms3];
    [lia | lia |].
  rewrite Hms2, Hc2, Hcn2 in Hv2. rewrite Hms2, Hc2 in Hms3.
  set (w3 := snd (counter_show w2)) in *.
  assert (Hen3 : Z.testbit (reg_peek w3 TCTL_REG) (fst TCTL_TEN) = true).
  { subst w3. rewrite counter_show_regs by discriminate. exact Hen2'. }
  assert (Hcn3 : reg_peek w3 TCN_REG = 1).
  { subst w3. rewrite counter_show_regs by discriminate. exact Hcn2. }
  destruct (env_step_wrap (HwEvent (2 ^ 32 - 1) 0) w3 Hen3) as (Ho4 & Hen4 & Hcn4 & Hc4);
    [rewrite Hcn3; simpl; lia|].
  set (w4 := env_step (HwEvent (2 ^ 32 - 1) 0) w3) in *.
  rewrite Hcn3 in Hcn4.
  exists w4. split.
  - unfold at_turn. rewrite Hen4, Hen3, Hcn4, Hc4, Ho4, Hms3.
    repeat split; lia.
  - unfold one_carry. cbn [app]. rewrite (poll_unfold _ w), (poll_unfold _ w2).
    cbn [map out]. fold w1 w2 w3 w4.
    rewrite Hv, Hv2. f_equal. f_equal. lia.
Qed.

(** [n] carries in a row. *)
Lemma carry_events_steps (n : nat) : forall (k : Z) (w : world) (rest : list hw_event),
  at_turn k w -> k + Z.of_nat n <= 2 ^ 32 ->
  exists (w2 : world) (front : list Z),
    at_turn (k + Z.of_nat n) w2 /\
    map out (poll (carry_events n ++ rest) w) = front ++ map out (poll rest w2).
Proof.
  induction n as [|n IH]; intros k w rest Hturn Hfit.
  - exists w, []. rewrite Z.add_0_r. split; [exact Hturn|reflexivity].
  - cbn [carry_events]. rewrite <- app_assoc.
    destruct (one_carry_step k w (carry_events n ++ rest) Hturn ltac:(lia))
      as (w2 & Hturn2 & Hout).
    destruct (IH (k + 1) w2 rest Hturn2 ltac:(lia)) as (w3 & front & Hturn3 & Hout3).
    exists w3, (k * 2 ^ 32 :: k * 2 ^ 32 + 1 :: front). split.
    + replace (k + Z.of_nat (S n)) with (k + 1 + Z.of_nat n) by lia. exact Hturn3.
    + rewrite Hout, Hout3. reflexivity.
Qed.

Lemma carry_events_ok (n : nat) : Forall at_most_one_wrap (carry_events n).
Proof.
  induction n as [|n IH]; [constructor|].
  cbn [carry_events one_carry app].
  repeat constructor; try exact IH; unfold at_most_one_wrap; simpl; lia.
Qed.

Lemma world0_at_turn : at_turn 0 world0.
Proof. unfold at_turn. repeat split; vm_compute; congruence. Qed.

(** From the freshly configured driver, 2^32 - 1 carries in a row leave the
    high word full; five pulses and a nearly full turn later the value
    returned has dropped.  Every event is within the operational
    assumption. *)
Lemma poll_drops_from_fresh_driver (n : nat) :
  Z.of_nat n = 2 ^ 32 - 1 ->
  let evs := carry_events n ++ [HwEvent 5 0; HwEvent (2 ^ 32 - 2) 0] in
  Forall at_most_one_wrap evs /\
  ~ StronglySorted Z.le (map out (poll evs world0)).
Proof.
  intros Hn evs. subst evs. split.
  - apply Forall_app. split; [apply carry_events_ok|].
    repeat constructor; unfold at_most_one_wrap; simpl; lia.
  - destruct (carry_events_steps n 0 world0 [HwEvent 5 0; HwEvent (2 ^ 32 - 2) 0]
                world0_at_turn ltac:(lia)) as (w & front & Hturn & Hout).
    rewrite Hout. rewrite Z.add_0_l, Hn in Hturn. clear Hout.
    destruct (counter_show_at_turn _ w Hturn ltac:(lia)) as (Hv & Hen & Hcn & Hms & Hc).
    set (w1 := snd (counter_show w)) in *.
    destruct (env_step_no_wrap (HwEvent 5 0) w1 Hen) as (Ho & Hen2 & Hcn2 & Hc2);
      [simpl; lia | rewrite Hcn; simpl; lia |].
    set (w2 := env_step (HwEvent 5 0) w1) in *.
    cbn [pulses] in Hcn2. rewrite Hcn in Hcn2. rewrite Hc in Hc2.
    assert (Hen2' : Z.testbit (reg_peek w2 TCTL_REG) (fst TCTL_TEN) = true)
      by (rewrite Hen2; exact Hen).
    assert (Hms2 : counter_ms (odo w2) = 2 ^ 32 - 1) by (rewrite Ho; exact Hms).
    destruct (counter_show_no_overflow w2) as [Hv2 Hms3]; [lia | lia |].
    rewrite Hms2, Hc2, Hcn2 in Hv2. rewrite Hms2, Hc2 in Hms3.
    set (w3 := snd (counter_show w2)) in *.
    assert (Hen3 : Z.testbit (reg_peek w3 TCTL_REG) (fst TCTL_TEN) = true).
    { subst w3. rewrite counter_show_regs by discriminate. exact Hen2'. }
    assert (Hcn3 : reg_peek w3 TCN_REG = 5).
    { subst w3. rewrite counter_show_regs by discriminate. exact Hcn2. }
    destruct (env_step_wrap (HwEvent (2 ^ 32 - 2) 0) w3 Hen3)
      as (Ho4 & Hen4 & Hcn4 & Hc4); [rewrite Hcn3; simpl; lia|].
    set (w4 := env_step (HwEvent (2 ^ 32 - 2) 0) w3) in *.
    rewrite Hcn3 in Hcn4.
    assert (Hflag4 : flag_set w4 = true).
    { unfold carry in Hc4. destruct (flag_set w4); [reflexivity|discriminate]. }
    assert (Hv4 : fst (fst (counter_show w4)) = 3).
    { rewrite counter_show_eq. cbn [fst]. rewrite Hflag4, Ho4, Hms3, Hcn4.
      vm_compute. reflexivity. }
    rewrite (poll_unfold _ w), (poll_unfold _ w2), (poll_unfold _ w4).
    cbn [map out]. fold w1 w2 w3 w4. rewrite Hv2, Hv4.
    intros Hs. apply StronglySorted_app_1_r in Hs.
    inversion Hs as [|a l Hs' _]; subst.
    inversion Hs' as [|a l _ Hall]; subst.
    inversion Hall as [|b l' Hle _]; subst. lia.
Qed.

(** The same with the number of carries spelled out. *)
Corollary full_high_word_reachable :
  let evs := carry_events (Z.to_nat (2 ^ 32 - 1))
             ++ [HwEvent 5 0; HwEvent (2 ^ 32 - 2) 0] in
  Forall at_most_one_wrap evs /\
  ~ StronglySorted Z.le (map out (poll evs world0)).
Proof. apply poll_drops_from_fresh_driver. apply Z2Nat.id. lia. Qed.

(** ** The telemetry tracker *)

Lemma u32_add_l a b : u32 (u32 a + b) = u32 (a + b).
Proof. unfold u32. apply Zplus_mod_idemp_l. Qed.

(** Every read in a run, once the first-access time is or becomes nonzero. *)
Lemma poll_telemetry (evs : list hw_event) : forall (w : world) t k s,
  t <> 0 ->
  (if first_access (odo w) =? 0 then jiffies w else first_access (odo w)) = t ->
  poll evs w !! k = Some s ->
  first_access (odo (post s)) = t /\
  last_access (odo (post s)) = jiffies (pre s) /\
  nb_access (odo (post s)) = u32 (nb_access (odo w) + Z.of_nat k + 1).
Proof.
  induction evs as [|e evs IH]; intros w t k s Ht Hfirst Hk;
    rewrite poll_unfold in Hk; destruct k as [|k]; simpl in Hk.
  - injection Hk as <-. rewrite counter_show_eq.
    cbn [post pre snd odo first_access last_access nb_access].
    rewrite Z.add_0_r. auto.
  - discriminate.
  - injection Hk as <-. rewrite counter_show_eq.
    cbn [post pre snd odo first_access last_access nb_access].
    rewrite Z.add_0_r. auto.
  - assert (Hpost : first_access (odo (env_step e (snd (counter_show w)))) = t).
    { rewrite counter_show_eq. exact Hfirst. }
    destruct (IH (env_step e (snd (counter_show w))) t k s Ht) as (Hf & Hl & Hn);
      [|exact Hk|].
    + rewrite Hpost. destruct (Z.eqb_spec t 0); [contradiction|reflexivity].
    + split; [exact Hf|]. split; [exact Hl|].
      rewrite Hn. rewrite counter_show_eq.
      cbn [env_step snd odo nb_access].
      rewrite <- Z.add_assoc, u32_add_l. f_equal. lia.
Qed.

(** C6 (amended).  Reads of the counter attribute in one telemetry epoch, the
    first of them at a nonzero tick count: after that read and after every
    later one [first_access] is the tick count of the first read; each read
    sets [last_access] to the tick count it sees and adds one to
    [nb_access] (an unsigned long). *)
Theorem first_access_epoch (evs : list hw_event) (w : world) (k : nat) (s : sample) :
  first_access (odo w) = 0 ->
  jiffies w <> 0 ->
  poll evs w !! k = Some s ->
  first_access (odo (post s)) = jiffies w /\
  last_access (odo (post s)) = jiffies (pre s) /\
  nb_access (odo (post s)) = u32 (nb_access (odo w) + Z.of_nat k + 1).
Proof.
  intros Hunset Hnow Hk.
  apply (poll_telemetry evs w (jiffies w) k s Hnow); [|exact Hk].
  rewrite Hunset. reflexivity.
Qed.

Lemma first_access_epoch_witness :
  (first_access (odo world0) = 0 /\ jiffies world0 <> 0 /\
   poll some_events world0 !! 2%nat = Some third_sample) /\
  first_access (odo (post third_sample)) = 1000 /\
  last_access (odo (post third_sample)) = 1004 /\
  nb_access (odo (post third_sample)) = 3.
Proof.
  assert (H1 : first_access (odo world0) = 0) by (vm_compute; reflexivity).
  assert (H2 : jiffies world0 <> 0) by (vm_compute; congruence).
  assert (H3 : poll some_events world0 !! 2%nat = Some third_sample)
    by (vm_compute; reflexivity).
  split; [repeat split; assumption|].
  destruct (first_access_epoch some_events world0 2 third_sample H1 H2 H3)
    as (Hf & Hl & Hn).
  split; [rewrite Hf; vm_compute; reflexivity|].
  split; [rewrite Hl | rewrite Hn]; vm_compute; reflexivity.
Defined.

(** C6, as stated, fails when the first read of the epoch comes at tick 0:
    the time it records is the "unset" value, and the second read records
    its own time over it. *)
Lemma first_access_overwritten :
  first_access (odo world_tick0) = 0 /\ nb_access (odo world_tick0) = 0 /\
  map (fun s => first_access (odo (post s))) (poll [HwEvent 0 5] world_tick0)
  = [0; 5].
Proof. repeat split; vm_compute; reflexivity. Qed.

(** The mean period when the product [diff * 1000] fits an unsigned long. *)
Lemma mean_period_show_in_range (HZ : Z) (w : world) :
  odo_ok (odo w) ->
  let diff := u32 (last_access (odo w) - first_access (odo w)) in
  diff * 1000 < 2 ^ 32 ->
  fst (fst (mean_period_show HZ w)) =
    if nb_access (odo w) =? 0 then 0
    else diff * 1000 / HZ / nb_access (odo w).
Proof.
  intros (_ & _ & Hnb & _) diff Hfit.
  unfold mean_period_show, bind, get_odo, ret. cbn [fst snd]. fold diff.
  destruct (Z.eqb_spec (nb_access (odo w)) 0) as [->|Hne]; [reflexivity|].
  destruct (Z.leb_spec (nb_access (odo w)) 0); [lia|].
  rewrite u32_small; [reflexivity|].
  pose proof (u32_range (last_access (odo w) - first_access (odo w))).
  subst diff. lia.
Qed.

(** The figures of the spec: three accesses over 900 ticks at 100 ticks per
    second, and no access at all. *)
Example mean_period_show_3000 :
  fst (mean_period_show 100 (World (Mk_odo 0 0 0 3 100 1000) ∅ 1000 []))
    = (3000, "3000 ms" +:+ String "010" EmptyString) /\
  fst (fst (mean_period_show 100 (World (Mk_odo 0 0 0 0 0 0) ∅ 1000 []))) = 0.
Proof. split; vm_compute; reflexivity. Qed.

(** C5.  After two reads of the counter attribute 4294968 ticks apart the
    product [diff * 1000] no longer fits the 32-bit unsigned long and wraps:
    at 100 ticks per second the attribute shows 3 ms, where
    [diff * 1000 / HZ / nb_access] is 21474840 ms. *)
Theorem mean_period_show_overflow :
  (nb_access (odo world_long_span) = 2 /\
   first_access (odo world_long_span) = 1000 /\
   last_access (odo world_long_span) = 1000 + 4294968) /\
  fst (mean_period_show 100 world_long_span)
    = (3, "3 ms" +:+ String "010" EmptyString) /\
  (last_access (odo world_long_span) - first_access (odo world_long_span))
    * 1000 / 100 / nb_access (odo world_long_span) = 21474840.
Proof. repeat split; vm_compute; reflexivity. Qed.

(** ** Module initialisation *)

(** Loading with the default timer number and no device-tree node. *)
Example odo_init_default :
  odo_init 2 (Platform None true true true 0 true true)
           (World (Mk_odo 0 0 0 0 0 0) ∅ 1000 [])
  = Loaded 2 world0.
Proof. vm_compute. reflexivity. Qed.

(** The accepted timer numbers whose array reads stay inside the tables. *)
Lemma odo_init_indices (gpt_id : Z) :
  2 <= gpt_id <= 6 ->
  is_Some (array_get MEM_GPT_OFFSET (gpt_id - 1)) /\
  (gpt_id <= 5 -> is_Some (array_get GPT_TIN gpt_id)).
Proof.
  intros H.
  assert (Hc : gpt_id = 2 \/ gpt_id = 3 \/ gpt_id = 4 \/ gpt_id = 5 \/ gpt_id = 6) by lia.
  destruct Hc as [-> | [-> | [-> | [-> | ->]]]]; (split; [eexists; reflexivity|]);
    intros; try lia; eexists; reflexivity.
Qed.

(** C10.  Timer 6 passes the fallback range check, and [offset[6 - 1]] is
    the last entry of its table, but [gpio[6]] is one past the end of the
    six-entry GPT_TIN table: initialisation reads outside the array. *)
Theorem odo_init_gpio_overrun (a b c e f : bool) (d : Z) (w0 : world) :
  (6 <? 2) || (6 <? 6) = false /\
  length GPT_TIN = 6%nat /\ length MEM_GPT_OFFSET = 6%nat /\
  array_get MEM_GPT_OFFSET (6 - 1) = Some 0x1F000 /\
  array_get GPT_TIN 6 = None /\
  odo_init 6 (Platform None a b c d e f) w0 = OutOfBounds "gpio" 6.
Proof. repeat split. Qed.

(** ** Concurrent readers *)

Ltac run_reader :=
  cbv beta iota zeta delta
    [interleave reader_run reader_step reader_start at_pc status counter_64
     serial_schedule race_schedule
     bind ret when modify_odo get_odo put_odo get_jiffies odo_read_count
     ioread32 iowrite32 reg_peek fst snd
     odo vmem jiffies io_log gpt_base counter_ms counter_ls nb_access
     first_access last_access set_counter_ms set_counter_ls set_nb_access
     set_first_access set_last_access negb].

(** The reader machine run alone is [counter_show]. *)
Lemma reader_run_counter_show (w : world) :
  reader_run 9 reader_start w =
  (Reader AtReturn (reg_peek w TSTAT_REG) (fst (fst (counter_show w))),
   snd (counter_show w)).
Proof.
  rewrite counter_show_eq. unfold flag_set.
  destruct w as [[base ms ls nb fa la] regs now log]. run_reader.
  destruct (Z.land (reg_word regs TSTAT_REG) TSTAT_COMP =? 0) eqn:Hflag;
    destruct (fa =? 0) eqn:Hfa; run_reader; rewrite ?Hfa; unfold gpt_store;
    simpl (_ =? _);
    rewrite ?reg_word_insert_ne by discriminate;
    rewrite u32_s32, (u32_small (reg_word regs TCN_REG)) by apply reg_word_range;
    rewrite <- ?app_assoc; reflexivity.
Qed.

Lemma interleave_first n : forall a b (w : world) rest,
  interleave (repeat true n ++ rest) a b w =
  interleave rest (fst (reader_run n a w)) b (snd (reader_run n a w)).
Proof.
  induction n as [|n IH]; intros a b w rest; [reflexivity|].
  cbn [repeat app interleave reader_run]. rewrite !bind_eq. apply IH.
Qed.

Lemma interleave_second n : forall a b (w : world),
  interleave (repeat false n) a b w =
  ((a, fst (reader_run n b w)), snd (reader_run n b w)).
Proof.
  induction n as [|n IH]; intros a b w; [reflexivity|].
  cbn [repeat app interleave reader_run]. rewrite !bind_eq. apply IH.
Qed.

(** One reader after the other is two calls of [counter_show]. *)
Lemma interleave_serial (w : world) :
  snd (interleave serial_schedule reader_start reader_start w) =
  snd (counter_show (snd (counter_show w))).
Proof.
  change serial_schedule with (repeat true 9 ++ repeat false 9).
  rewrite interleave_first, interleave_second, !reader_run_counter_show.
  reflexivity.
Qed.

(** The second reader reads the status register before the first has
    cleared the flag. *)
Lemma interleave_race (w : world) :
  flag_set w = true ->
  let r := interleave race_schedule reader_start reader_start w in
  counter_ms (odo (snd r)) = u32 (counter_ms (odo w) + 2) /\
  status (fst (fst r)) = reg_peek w TSTAT_REG /\
  status (snd (fst r)) = reg_peek w TSTAT_REG /\
  at_pc (fst (fst r)) = AtReturn /\ at_pc (snd (fst r)) = AtReturn.
Proof.
  intros Hf r. subst r. unfold flag_set in Hf.
  destruct w as [[base ms ls nb fa la] regs now log].
  rewrite reg_peek_world in Hf. apply negb_true_iff in Hf.
  run_reader. rewrite Hf. run_reader.
  destruct (fa =? 0) eqn:Hfa; run_reader; rewrite ?Hfa; run_reader;
    try (destruct (now =? 0) eqn:Hnow; run_reader);
    rewrite u32_add_l, <- Z.add_assoc; repeat split.
Qed.

(** *** A reset among the readers *)

Lemma odo_set_gpt_field_steps reg field val :
  odo_set_gpt_field reg field val =
  (r <~ ioread32 reg ;; iowrite32 (field_word field val r) reg).
Proof. destruct field. reflexivity. Qed.

(** The reset machine run alone is a resetting [reset_store]. *)
Lemma resetter_run_reset_store (buf : string) (count reset : Z) (w : world) :
  kstrtoint buf 10 = inr reset ->
  (reset =? 1) || (reset =? Z.of_N (N_of_ascii "1")) = true ->
  snd (resetter_run 10 resetter_start w) = snd (reset_store buf count w) /\
  at_rpc (fst (resetter_run 10 resetter_start w)) = AtDone.
Proof.
  intros Hparse Hone. unfold reset_store. rewrite Hparse, Hone.
  unfold odo_reset_count. rewrite !odo_set_gpt_field_steps.
  destruct w as [[base ms ls nb fa la] regs now log].
  split; reflexivity.
Qed.

Ltac run_threads :=
  cbv beta iota zeta delta
    [interleave_reset interleave reader_run resetter_run reader_step resetter_step
     reader_start resetter_start at_pc status counter_64 at_rpc word
     reset_mid_update read_mid_reset
     bind ret when modify_odo get_odo put_odo get_jiffies odo_read_count
     ioread32 iowrite32 msleep reg_peek fst snd
     odo vmem jiffies io_log gpt_base counter_ms counter_ls nb_access
     first_access last_access set_counter_ms set_counter_ls set_nb_access
     set_first_access set_last_access negb].

(** A reset that runs between a read's increment of the high word and its
    write-back of the flag. *)
Lemma interleave_reset_mid_update (w : world) :
  flag_set w = true ->
  let r := interleave_reset reset_mid_update reader_start resetter_start w in
  at_pc (fst (fst r)) = AtReturn /\ at_rpc (snd (fst r)) = AtDone /\
  status (fst (fst r)) = reg_peek w TSTAT_REG /\
  counter_ms (odo (snd r)) = 0 /\ flag_set (snd r) = false /\
  nb_access (odo (snd r)) = 1 /\
  counter_64 (fst (fst r)) = reg_peek (snd r) TCN_REG.
Proof.
  intros Hf r. subst r. unfold flag_set in Hf.
  destruct w as [[base ms ls nb fa la] regs now log].
  rewrite reg_peek_world in Hf. apply negb_true_iff in Hf.
  run_threads. rewrite Hf. run_threads.
  change (0 =? 0) with true. run_threads.
  match goal with |- context [reg_word ?R TCN_REG] => set (regs' := R) end.
  split; [reflexivity|]. split; [reflexivity|]. split; [reflexivity|].
  split; [reflexivity|]. split.
  { unfold flag_set. rewrite reg_peek_world. unfold regs'.
    rewrite reg_word_insert. unfold gpt_store at 1. rewrite Z.eqb_refl.
    change (u32 TSTAT_COMP) with 1. change TSTAT_COMP with 1.
    rewrite w1c_clears. reflexivity. }
  split; [reflexivity|].
  rewrite u32_s32, (u32_small (reg_word regs' TCN_REG)) by apply reg_word_range.
  rewrite (counter_64_value 0) by (try apply reg_word_range; lia). lia.
Qed.

(** A read that runs while a reset sleeps. *)
Lemma interleave_read_mid_reset (w : world) :
  flag_set w = true ->
  let r := interleave_reset read_mid_reset reader_start resetter_start w in
  at_pc (fst (fst r)) = AtReturn /\ at_rpc (snd (fst r)) = AtDone /\
  status (fst (fst r)) = reg_peek w TSTAT_REG /\
  counter_ms (odo (snd r)) = 1 /\ flag_set (snd r) = false /\
  nb_access (odo (snd r)) = 0 /\ first_access (odo (snd r)) = 0 /\
  last_access (odo (snd r)) = 0.
Proof.
  intros Hf r. subst r. unfold flag_set in Hf.
  destruct w as [[base ms ls nb fa la] regs now log].
  rewrite reg_peek_world in Hf. apply negb_true_iff in Hf.
  assert (Hst : forall x, reg_word (gpt_settle (<[TCTL_REG := x]> regs)) TSTAT_REG
                         = reg_word regs TSTAT_REG).
  { intros x. rewrite gpt_settle_other by discriminate.
    apply reg_word_insert_ne. discriminate. }
  run_threads. rewrite !Hst, Hf. run_threads.
  destruct (fa =? 0); run_threads.
  all: split; [reflexivity|]; split; [reflexivity|]; split; [reflexivity|].
  all: split; [reflexivity|]; split; [|repeat split].
  all: unfold flag_set; rewrite reg_peek_world.
  all: rewrite reg_word_insert_ne by discriminate.
  all: rewrite reg_word_insert; unfold gpt_store at 1; rewrite Z.eqb_refl.
  all: change (u32 TSTAT_COMP) with 1; change TSTAT_COMP with 1.
  all: rewrite w1c_clears; reflexivity.
Qed.

(** C9 (amended).  The source takes no lock, so the steps of two calls may
    come in any order.  On a state with the compare flag up:
    when two reads of the counter attribute run one after the other, the
    pair behaves as two calls of [counter_show] and the flag is folded into
    the high word once;
    when the second read takes its look at the status register right after
    the first has, before the first has written the flag back, both have
    seen the flag, both reach their return and the high word has gone up by
    two for the one wrap;
    when a reset runs between a read's increment of the high word and its
    write-back of the flag, the wrap is lost: both calls return, the read
    had seen the flag, and afterwards the high word is 0 and the flag is
    down, the read having returned the hardware count alone and counted as
    access number 1;
    when a read runs while a reset sleeps, both calls return and afterwards
    the high word is 1 and the flag is down, while the access count and the
    access times are 0 as if nothing had been read.
    Neither of the last two states is left by the two calls run one after
    the other: a reset followed by a read leaves the high word and the
    access count at 1, a read followed by a reset leaves both at 0. *)
Theorem counter_show_unlocked (w : world) :
  flag_set w = true ->
  let serial := interleave serial_schedule reader_start reader_start w in
  let racy := interleave race_schedule reader_start reader_start w in
  let mixed := interleave_reset reset_mid_update reader_start resetter_start w in
  let asleep := interleave_reset read_mid_reset reader_start resetter_start w in
  let reset_read := snd (counter_show (snd (reset_store "1" 1 w))) in
  let read_reset := snd (reset_store "1" 1 (snd (counter_show w))) in
  (snd serial = snd (counter_show (snd (counter_show w))) /\
   counter_ms (odo (snd serial)) = u32 (counter_ms (odo w) + 1)) /\
  (status (fst (fst racy)) = reg_peek w TSTAT_REG /\
   status (snd (fst racy)) = reg_peek w TSTAT_REG /\
   at_pc (fst (fst racy)) = AtReturn /\ at_pc (snd (fst racy)) = AtReturn /\
   counter_ms (odo (snd racy)) = u32 (counter_ms (odo w) + 2)) /\
  (at_pc (fst (fst mixed)) = AtReturn /\ at_rpc (snd (fst mixed)) = AtDone /\
   status (fst (fst mixed)) = reg_peek w TSTAT_REG /\
   counter_ms (odo (snd mixed)) = 0 /\ flag_set (snd mixed) = false /\
   nb_access (odo (snd mixed)) = 1 /\
   counter_64 (fst (fst mixed)) = reg_peek (snd mixed) TCN_REG) /\
  (at_pc (fst (fst asleep)) = AtReturn /\ at_rpc (snd (fst asleep)) = AtDone /\
   status (fst (fst asleep)) = reg_peek w TSTAT_REG /\
   counter_ms (odo (snd asleep)) = 1 /\ flag_set (snd asleep) = false /\
   nb_access (odo (snd asleep)) = 0 /\ first_access (odo (snd asleep)) = 0 /\
   last_access (odo (snd asleep)) = 0) /\
  (counter_ms (odo reset_read) = 1 /\ nb_access (odo reset_read) = 1) /\
  (counter_ms (odo read_reset) = 0 /\ nb_access (odo read_reset) = 0).
Proof.
  intros Hf serial racy mixed asleep reset_read read_reset.
  subst serial racy mixed asleep reset_read read_reset.
  destruct (interleave_race w Hf) as (Hms & Hsa & Hsb & Ha & Hb).
  split; [split; [apply interleave_serial|]|].
  { rewrite interleave_serial.
    pose proof (counter_show_flag_clear w) as Hclear.
    rewrite !counter_show_eq in *. cbn [snd odo counter_ms] in *.
    rewrite Hclear, Hf. reflexivity. }
  split; [repeat split; assumption|].
  split; [exact (interleave_reset_mid_update w Hf)|].
  split; [exact (interleave_read_mid_reset w Hf)|].
  assert (Hparse : kstrtoint "1" 10 = inr 1) by reflexivity.
  assert (Hone : (1 =? 1) || (1 =? Z.of_N (N_of_ascii "1")) = true) by reflexivity.
  split.
  - set (w1 := snd (reset_store "1" 1 w)).
    assert (Ho1 : odo w1 = Mk_odo (gpt_base (odo w)) 0 0 0 0 0)
      by (subst w1; rewrite (reset_store_reset_eq _ _ _ _ Hparse Hone); reflexivity).
    assert (Hc1 : carry w1 = 1).
    { subst w1. rewrite (reset_store_reset_eq _ _ _ _ Hparse Hone). cbn [snd].
      unfold carry, flag_set. rewrite reg_peek_world.
      destruct (reset_registers w) as (_ & _ & _ & ->).
      unfold flag_set in Hf. rewrite Hf. reflexivity. }
    split.
    + destruct (counter_show_no_overflow w1) as [_ ->];
        rewrite Ho1; cbn [counter_ms]; rewrite ?Hc1; lia.
    + rewrite counter_show_eq. cbn [snd odo nb_access]. rewrite Ho1. reflexivity.
  - rewrite (reset_store_reset_eq _ _ _ _ Hparse Hone). split; reflexivity.
Qed.

Lemma counter_show_unlocked_witness :
  flag_set world_wrapped = true /\
  counter_ms (odo world_wrapped) = 7 /\
  counter_ms (odo (snd (interleave serial_schedule reader_start reader_start
                          world_wrapped))) = 8 /\
  counter_ms (odo (snd (interleave race_schedule reader_start reader_start
                          world_wrapped))) = 9 /\
  counter_ms (odo (snd (interleave_reset reset_mid_update reader_start
                          resetter_start world_wrapped))) = 0 /\
  counter_ms (odo (snd (interleave_reset read_mid_reset reader_start
                          resetter_start world_wrapped))) = 1.
Proof.
  assert (H : flag_set world_wrapped = true) by (vm_compute; reflexivity).
  split; [exact H|]. split; [reflexivity|].
  destruct (counter_show_unlocked world_wrapped H)
    as ((_ & Hs) & (_ & _ & _ & _ & Hr) & (_ & _ & _ & Hm & _) &
        (_ & _ & _ & Hd & _) & _).
  split; [rewrite Hs; vm_compute; reflexivity|].
  split; [rewrite Hr; vm_compute; reflexivity|].
  split; [exact Hm|exact Hd].
Defined.

(** C9, as stated, fails: nothing keeps the second reader from the status
    register while the first is between its read and its write-back.  One
    flag, both readers have seen it set, and the high word went from 7 to
    9. *)
Lemma counter_show_double_carry :
  let r := interleave race_schedule reader_start reader_start world_wrapped in
  counter_ms (odo world_wrapped) = 7 /\
  reg_peek world_wrapped TSTAT_REG = 1 /\
  status (fst (fst r)) = 1 /\ status (snd (fst r)) = 1 /\
  counter_ms (odo (snd r)) = 9 /\
  List.filter (fun e => match e with IoWrite _ _ => true | _ => false end)
         (io_log (snd r))
  = [IoWrite TSTAT_REG 1; IoWrite TSTAT_REG 1].
Proof. vm_compute. repeat split. Qed.

(** ** Reads while the timer counts on *)

Lemma pulses_of_cons e evs : pulses_of (e :: evs) = pulses e + pulses_of evs.
Proof. reflexivity. Qed.

Lemma pulses_of_app l1 l2 : pulses_of (l1 ++ l2) = pulses_of l1 + pulses_of l2.
Proof.
  induction l1 as [|e l1 IH]; [reflexivity|].
  cbn [app]. rewrite !pulses_of_cons, IH. lia.
Qed.

Lemma counted_nil w : counted w [] = 0.
Proof. unfold counted. destruct (enabled w); reflexivity. Qed.

Lemma counted_cons w e evs : counted w (e :: evs) = counted w [e] + counted w evs.
Proof.
  unfold counted. destruct (enabled w); [|reflexivity].
  rewrite !pulses_of_cons. cbn. lia.
Qed.

Lemma counted_app w l1 l2 : counted w (l1 ++ l2) = counted w l1 + counted w l2.
Proof.
  unfold counted. destruct (enabled w); [apply pulses_of_app|reflexivity].
Qed.

Lemma counted_same w w' evs :
  reg_peek w' TCTL_REG = reg_peek w TCTL_REG -> counted w' evs = counted w evs.
Proof. intros H. unfold counted, enabled. rewrite H. reflexivity. Qed.

Lemma flag_of_carry w w' : carry w' = carry w -> flag_set w' = flag_set w.
Proof. unfold carry. destruct (flag_set w'), (flag_set w); congruence. Qed.

Lemma carry_flag_set w : flag_set w = true -> carry w = 1.
Proof. unfold carry. intros ->. reflexivity. Qed.

Lemma no_wrap_small x : 0 <= x -> x / 2 ^ 32 <= 0 -> x < 2 ^ 32.
Proof.
  intros Hx Hd. destruct (Z.lt_ge_cases x (2 ^ 32)) as [|Hge]; [assumption|].
  assert (1 <= x / 2 ^ 32) by (apply Z.div_le_lower_bound; lia). lia.
Qed.

Lemma one_wrap_small x : x / 2 ^ 32 <= 1 -> x < 2 ^ 33.
Proof.
  intros Hd. destruct (Z.lt_ge_cases x (2 ^ 33)) as [|Hge]; [assumption|].
  assert (2 <= x / 2 ^ 32) by (apply Z.div_le_lower_bound; lia). lia.
Qed.

(** What an event within the operational assumption does. *)
Lemma env_step_calm (e : hw_event) (t : reader) (w : world) :
  calm_event e t w = true ->
  let w1 := env_step e w in
  0 <= pulses e /\ odo w1 = odo w /\
  reg_peek w1 TCTL_REG = reg_peek w TCTL_REG /\
  extended w1 = extended w + counted w [e] /\
  (mid_read (at_pc t) = true -> flag_set w1 = flag_set w).
Proof.
  intros H w1. unfold calm_event in H. apply andb_true_iff in H as [Hd Hw].
  apply Z.leb_le in Hd, Hw. split; [exact Hd|].
  pose proof (reg_word_range (vmem w) TCN_REG) as Hr. fold (reg_peek w TCN_REG) in Hr.
  unfold wraps in Hw. unfold counted, pulses_of. cbn [map fold_right].
  rewrite Z.add_0_r.
  destruct (enabled w) eqn:Hen.
  - unfold enabled in Hen.
    destruct (Z.lt_ge_cases (reg_peek w TCN_REG + pulses e) (2 ^ 32)) as [Hlt|Hge].
    + destruct (env_step_no_wrap e w Hen Hd Hlt) as (Ho & Hc & Hn & Hcar).
      fold w1 in Ho, Hc, Hn, Hcar.
      split; [exact Ho|]. split; [exact Hc|]. split.
      * unfold extended. rewrite Ho, Hn, Hcar. lia.
      * intros _. apply flag_of_carry, Hcar.
    + destruct (env_step_wrap e w Hen Hge) as (Ho & Hc & Hn & Hcar).
      fold w1 in Ho, Hc, Hn, Hcar.
      destruct (mid_read (at_pc t)).
      { apply no_wrap_small in Hw; lia. }
      assert (Hc0 : carry w = 0).
      { destruct (carry_cases w) as [|H1]; [assumption|]. rewrite H1 in Hw.
        apply no_wrap_small in Hw; lia. }
      rewrite Hc0 in Hw. apply one_wrap_small in Hw.
      split; [exact Ho|]. split; [exact Hc|]. split; [|discriminate].
      unfold extended. rewrite Ho, Hn, Hcar, Hc0.
      unfold u32. rewrite (Z.mod_eq _ (2 ^ 32)) by lia.
      assert ((reg_peek w TCN_REG + pulses e) / 2 ^ 32 = 1) as ->
        by (symmetry;
            apply Z.div_unique with (r := reg_peek w TCN_REG + pulses e - 2 ^ 32);
            lia).
      lia.
  - assert (Hv : vmem w1 = vmem w).
    { subst w1. unfold env_step, gpt_count. cbn [vmem].
      unfold enabled, reg_peek in Hen. rewrite Hen. reflexivity. }
    assert (Hpeek : forall off, reg_peek w1 off = reg_peek w off)
      by (intros off; unfold reg_peek; rewrite Hv; reflexivity).
    assert (Hf : flag_set w1 = flag_set w)
      by (unfold flag_set; rewrite Hpeek; reflexivity).
    split; [reflexivity|]. split; [apply Hpeek|]. split; [|intros _; exact Hf].
    unfold extended, carry. rewrite Hf, Hpeek.
    change (odo w1) with (odo w). lia.
Qed.

Lemma flag_set_same (w w' : world) : vmem w' = vmem w -> flag_set w' = flag_set w.
Proof. intros H. unfold flag_set, reg_peek. rewrite H. reflexivity. Qed.

Lemma carry_same (w w' : world) : vmem w' = vmem w -> carry w' = carry w.
Proof. intros H. unfold carry. rewrite (flag_set_same _ _ H). reflexivity. Qed.

Lemma reg_peek_same (w w' : world) off : vmem w' = vmem w -> reg_peek w' off = reg_peek w off.
Proof. intros H. unfold reg_peek. rewrite H. reflexivity. Qed.

Lemma counted_vmem (w w' : world) evs : vmem w' = vmem w -> counted w' evs = counted w evs.
Proof. intros H. apply counted_same, reg_peek_same, H. Qed.

Lemma extended_same (w w' : world) :
  vmem w' = vmem w -> counter_ms (odo w') = counter_ms (odo w) ->
  extended w' = extended w.
Proof.
  intros Hv Hm. unfold extended.
  rewrite Hm, (carry_same _ _ Hv), (reg_peek_same _ _ _ Hv). reflexivity.
Qed.

(** One step of a read, the hardware standing still. *)
Lemma reader_step_inv (t : reader) (w : world) :
  read_inv t w -> extended_at t w < 2 ^ 64 ->
  let r := reader_step t w in
  read_inv (fst r) (snd r) /\
  status (fst r) = status t /\
  extended_at (fst r) (snd r) = extended_at t w /\
  reg_peek (snd r) TCTL_REG = reg_peek w TCTL_REG /\
  (steps_left (fst r) <= pred (steps_left t))%nat /\
  forall evs, expect (fst r) (snd r) evs = expect_next t w evs.
Proof.
  intros [Hms Hinv] Hb r.
  pose proof (reg_word_range (vmem w) TCN_REG) as Hr. fold (reg_peek w TCN_REG) in Hr.
  destruct t as [p st c]. unfold read_inv, expect, expect_next in *.
  unfold extended_at, steps_to_count, steps_left in *.
  cbn [at_pc status counter_64] in *.
  destruct p; try contradiction.
  - (* AtTest *)
    subst r. cbn [reader_step at_pc]. unfold ret. cbn [fst snd at_pc status counter_64].
    destruct (Z.land st TSTAT_COMP =? 0) eqn:Hst; cbn [negb] in *;
      cbn [at_pc status]; repeat split; try assumption; try lia.
  - (* AtCarry *)
    assert (Hpc : at_pc (fst r) = AtClear) by reflexivity.
    assert (Hst : status (fst r) = st) by reflexivity.
    assert (Hv : vmem (snd r) = vmem w) by reflexivity.
    assert (Ho : counter_ms (odo (snd r)) = u32 (counter_ms (odo w) + 1)) by reflexivity.
    clearbody r. rewrite Hpc, Hst.
    rewrite (flag_set_same _ _ Hv), (reg_peek_same _ _ _ Hv).
    assert (Hc : carry w = 1) by (apply carry_flag_set, Hinv).
    assert (Hroom : counter_ms (odo w) + 1 < 2 ^ 32).
    { unfold extended in Hb. rewrite Hc in Hb. nia. }
    rewrite u32_small in Ho by lia.
    assert (He : extended (snd r) - 2 ^ 32 = extended w - 0).
    { unfold extended. rewrite Ho, (carry_same _ _ Hv), (reg_peek_same _ _ _ Hv). lia. }
    repeat split; try assumption; try lia.
    intros evs. rewrite He, (counted_vmem _ _ _ Hv). reflexivity.
  - (* AtClear *)
    assert (Hpc : at_pc (fst r) = AtCount) by reflexivity.
    assert (Hst : status (fst r) = st) by reflexivity.
    assert (Hv : vmem (snd r) =
                 <[TSTAT_REG := gpt_store TSTAT_REG (u32 TSTAT_COMP) (reg_peek w TSTAT_REG)]>
                   (vmem w)) by reflexivity.
    assert (Ho : odo (snd r) = odo w) by reflexivity.
    clearbody r. rewrite Hpc, Hst.
    assert (Hf : flag_set (snd r) = false).
    { unfold flag_set, reg_peek. rewrite Hv, reg_word_insert.
      unfold gpt_store. rewrite Z.eqb_refl. change (u32 TSTAT_COMP) with 1.
      change TSTAT_COMP with 1. rewrite w1c_clears. reflexivity. }
    assert (Hn : forall off, off <> TSTAT_REG -> reg_peek (snd r) off = reg_peek w off).
    { intros off Hoff. unfold reg_peek. rewrite Hv.
      apply reg_word_insert_ne. congruence. }
    assert (Hc : carry w = 1) by (apply carry_flag_set, Hinv).
    assert (He : extended (snd r) - 0 = extended w - 2 ^ 32).
    { unfold extended, carry. rewrite Hf, Ho, Hn by discriminate.
      unfold carry in Hc. rewrite Hinv. lia. }
    rewrite Ho, Hn by discriminate.
    repeat split; try assumption; try lia.
    intros evs. rewrite He. f_equal. apply counted_same, Hn. discriminate.
  - (* AtCount *)
    assert (Hpc : at_pc (fst r) = AtSum) by reflexivity.
    assert (Hst : status (fst r) = st) by reflexivity.
    assert (Hv : vmem (snd r) = vmem w) by reflexivity.
    assert (Ho : counter_ms (odo (snd r)) = counter_ms (odo w)) by reflexivity.
    assert (Hl : counter_ls (odo (snd r)) = u32 (s32 (reg_peek w TCN_REG)))
      by reflexivity.
    clearbody r. rewrite Hpc, Hst.
    rewrite u32_s32, u32_small in Hl by lia.
    rewrite (reg_peek_same _ _ _ Hv), (extended_same _ _ Hv Ho), Ho, Hl.
    repeat split; try assumption; try lia.
    intros evs. cbn [pred take]. rewrite counted_nil.
    unfold extended, carry. rewrite Hinv. lia.
  - (* AtSum *)
    destruct Hinv as [Hl0 Hl1].
    assert (Hpc : at_pc (fst r) = AtAccess) by reflexivity.
    assert (Hst : status (fst r) = st) by reflexivity.
    assert (Hw : snd r = w) by reflexivity.
    assert (Hc : counter_64 (fst r) =
                 u64 (u64 (Z.shiftl (u64 (counter_ms (odo w))) 32) + counter_ls (odo w)))
      by reflexivity.
    clearbody r. rewrite Hpc, Hst, Hw, Hc.
    assert (Hroom : counter_ms (odo w) < 2 ^ 32).
    { unfold extended in Hb. destruct (carry_cases w); nia. }
    rewrite counter_64_value by lia.
    repeat split; try assumption; try lia.
  - (* AtAccess *)
    assert (Hpc : at_pc (fst r) = AtLast) by reflexivity.
    assert (Hst : status (fst r) = st) by reflexivity.
    assert (Hv : vmem (snd r) = vmem w) by reflexivity.
    assert (Ho : counter_ms (odo (snd r)) = counter_ms (odo w)) by reflexivity.
    assert (Hc : counter_64 (fst r) = c) by reflexivity.
    clearbody r. rewrite Hpc, Hst, Hc.
    rewrite (reg_peek_same _ _ _ Hv), (extended_same _ _ Hv Ho), Ho.
    repeat split; try assumption; try lia.
  - (* AtLast *)
    assert (Hpc : at_pc (fst r) = AtFirst) by reflexivity.
    assert (Hst : status (fst r) = st) by reflexivity.
    assert (Hv : vmem (snd r) = vmem w) by reflexivity.
    assert (Ho : counter_ms (odo (snd r)) = counter_ms (odo w)) by reflexivity.
    assert (Hc : counter_64 (fst r) = c) by reflexivity.
    clearbody r. rewrite Hpc, Hst, Hc.
    rewrite (reg_peek_same _ _ _ Hv), (extended_same _ _ Hv Ho), Ho.
    repeat split; try assumption; try lia.
  - (* AtFirst *)
    assert (Hall : at_pc (fst r) = AtReturn /\ status (fst r) = st /\
                   vmem (snd r) = vmem w /\
                   counter_ms (odo (snd r)) = counter_ms (odo w) /\
                   counter_64 (fst r) = c).
    { subst r. cbn [reader_step at_pc]. unfold bind, get_odo, when, ret.
      destruct (first_access (odo w) =? 0); repeat split. }
    destruct Hall as (Hpc & Hst & Hv & Ho & Hc).
    clearbody r. rewrite Hpc, Hst, Hc.
    rewrite (reg_peek_same _ _ _ Hv), (extended_same _ _ Hv Ho), Ho.
    repeat split; try assumption; try lia.
  - (* AtReturn *)
    subst r. cbn [reader_step at_pc]. unfold ret. cbn [fst snd at_pc status counter_64].
    repeat split; try assumption; try lia.
Qed.

Lemma calm_pulses (evs : list hw_event) : forall t w,
  calm evs t w = true -> Forall (fun e => 0 <= pulses e) evs.
Proof.
  induction evs as [|e evs IH]; intros t w H; [constructor|].
  cbn [calm] in H. apply andb_true_iff in H as [He Hrest].
  constructor; [|exact (IH _ _ Hrest)].
  unfold calm_event in He. apply andb_true_iff in He as [Hd _].
  apply Z.leb_le, Hd.
Qed.

Lemma pulses_of_nonneg (evs : list hw_event) :
  Forall (fun e => 0 <= pulses e) evs -> 0 <= pulses_of evs.
Proof.
  induction 1 as [|e evs He _ IH]; [reflexivity|].
  rewrite pulses_of_cons. lia.
Qed.

Lemma counted_nonneg (w : world) (evs : list hw_event) :
  Forall (fun e => 0 <= pulses e) evs -> 0 <= counted w evs.
Proof.
  intros H. unfold counted. destruct (enabled w); [apply pulses_of_nonneg, H|lia].
Qed.

Lemma pulses_of_take_le (n : nat) (evs : list hw_event) :
  Forall (fun e => 0 <= pulses e) evs -> pulses_of (take n evs) <= pulses_of evs.
Proof.
  intros H. rewrite <- (take_drop n evs) at 2. rewrite pulses_of_app.
  assert (0 <= pulses_of (drop n evs)); [|lia].
  apply pulses_of_nonneg, Forall_drop, H.
Qed.

Lemma counted_take_le (w : world) (n : nat) (evs : list hw_event) :
  Forall (fun e => 0 <= pulses e) evs -> counted w (take n evs) <= counted w evs.
Proof.
  intros H. unfold counted. destruct (enabled w); [apply pulses_of_take_le, H|lia].
Qed.

Lemma expect_next_nil (t : reader) (w : world) : expect_next t w [] = expect t w [].
Proof.
  unfold expect, expect_next. destruct (at_pc t); rewrite ?take_nil; reflexivity.
Qed.

(** An event of the hardware while a read is under way. *)
Lemma env_step_inv (e : hw_event) (evs : list hw_event) (t : reader) (w : world) :
  read_inv t w -> calm_event e t w = true ->
  let w1 := env_step e w in
  read_inv t w1 /\
  extended_at t w1 = extended_at t w + counted w [e] /\
  reg_peek w1 TCTL_REG = reg_peek w TCTL_REG /\
  expect_next t w1 evs = expect t w (e :: evs).
Proof.
  intros [Hms Hinv] Hcalm w1.
  destruct (env_step_calm e t w Hcalm) as (Hd & Ho & Hc & He & Hf). fold w1 in Ho, Hc, He, Hf.
  assert (Hcnt : forall l, counted w1 l = counted w l)
    by (intros l; apply counted_same, Hc).
  unfold read_inv, expect, expect_next. unfold extended_at, steps_to_count.
  rewrite Ho, He, !Hcnt.
  destruct t as [p st c]. cbn [at_pc status counter_64] in *.
  destruct p; try contradiction; cbn [mid_read] in Hf;
    rewrite ?(Hf eq_refl);
    (split; [split; assumption|]); (split; [clear; lia|]); (split; [exact Hc|]);
    try reflexivity.
  - destruct (Z.land st TSTAT_COMP =? 0); cbn [pred take];
      rewrite (counted_cons w e (take _ evs)); clear; lia.
  - cbn [pred take]. rewrite (counted_cons w e (take _ evs)). clear. lia.
  - cbn [pred take]. rewrite (counted_cons w e (take _ evs)). clear. lia.
  - cbn [pred take]. rewrite (counted_cons w e (take _ evs)). clear. lia.
Qed.

(** The rest of a read, the hardware standing still. *)
Lemma reader_run_inv (n : nat) : forall (t : reader) (w : world),
  read_inv t w -> extended_at t w < 2 ^ 64 -> (steps_left t <= n)%nat ->
  let r := reader_run n t w in
  at_pc (fst r) = AtReturn /\ status (fst r) = status t /\
  counter_64 (fst r) = expect t w [] /\
  extended (snd r) = extended_at t w /\
  0 <= counter_ms (odo (snd r)) /\
  reg_peek (snd r) TCTL_REG = reg_peek w TCTL_REG.
Proof.
  induction n as [|n IH]; intros t w Hinv Hb Hn r; subst r.
  - cbn [reader_run]. unfold ret. cbn [fst snd].
    destruct Hinv as [Hms Hinv]. unfold expect, extended_at, steps_left in *.
    destruct (at_pc t); try lia.
    repeat split; try assumption; try lia.
  - cbn [reader_run]. rewrite bind_eq.
    destruct (reader_step_inv t w Hinv Hb) as (Hinv1 & Hst & He & Hc & Hl & Hx).
    cbv zeta in *.
    set (t1 := fst (reader_step t w)) in *. set (w1 := snd (reader_step t w)) in *.
    destruct (IH t1 w1 Hinv1 ltac:(lia) ltac:(lia)) as (Ha & Hb1 & Hc1 & Hd & He1 & Hf).
    rewrite Ha, Hb1, Hc1, Hd, Hf, Hst, He, Hc, Hx, expect_next_nil.
    repeat split; assumption.
Qed.

(** A read from any place after the status read, the hardware going on. *)
Lemma reader_steps_hw_inv (evs : list hw_event) : forall (t : reader) (w : world),
  read_inv t w -> calm evs t w = true ->
  extended_at t w + counted w evs < 2 ^ 64 ->
  let r := (t' <~ reader_steps_hw evs t ;; reader_run 9 t') w in
  at_pc (fst r) = AtReturn /\ status (fst r) = status t /\
  counter_64 (fst r) = expect t w evs /\
  extended (snd r) = extended_at t w + counted w evs /\
  0 <= counter_ms (odo (snd r)) /\
  reg_peek (snd r) TCTL_REG = reg_peek w TCTL_REG.
Proof.
  induction evs as [|e evs IH]; intros t w Hinv Hcalm Hb r; subst r.
  - rewrite counted_nil in *. rewrite Z.add_0_r in *.
    cbn [reader_steps_hw]. rewrite bind_eq. unfold ret. cbn [fst snd].
    apply reader_run_inv; try assumption.
    unfold steps_left. destruct (at_pc t); lia.
  - pose proof (calm_pulses _ _ _ Hcalm) as Hnn.
    apply Forall_cons in Hnn as [Hd Hnn].
    cbn [calm] in Hcalm. apply andb_true_iff in Hcalm as [He Hrest].
    rewrite counted_cons in Hb.
    pose proof (counted_nonneg w evs Hnn) as Hpos.
    destruct (env_step_inv e evs t w Hinv He) as (Hinv1 & Hx1 & Hc1 & Hn1).
    cbv zeta in *.
    set (w1 := env_step e w) in *.
    destruct (reader_step_inv t w1 Hinv1 ltac:(lia)) as (Hinv2 & Hst & Hx2 & Hc2 & _ & Hn2).
    cbv zeta in *.
    assert (Hrun : (t' <~ reader_steps_hw (e :: evs) t ;; reader_run 9 t') w =
                   (t' <~ reader_steps_hw evs (fst (reader_step t w1)) ;; reader_run 9 t')
                     (snd (reader_step t w1))).
    { cbn [reader_steps_hw]. rewrite !bind_eq. reflexivity. }
    rewrite Hrun.
    set (t2 := fst (reader_step t w1)) in *. set (w2 := snd (reader_step t w1)) in *.
    assert (Hcnt : counted w2 evs = counted w evs)
      by (apply counted_same; rewrite Hc2, Hc1; reflexivity).
    destruct (IH t2 w2 Hinv2 Hrest ltac:(rewrite Hcnt; lia))
      as (Ha & Hb1 & Hc3 & Hd3 & He3 & Hf3).
    rewrite Ha, Hb1, Hc3, Hd3, Hf3, Hst, Hn2, Hn1, Hx2, Hx1, Hc2, Hc1, Hcnt.
    rewrite (counted_cons w e evs).
    repeat split; try assumption; lia.
Qed.

Lemma extended_bounds (w : world) :
  0 <= counter_ms (odo w) -> extended w < 2 ^ 64 ->
  counter_ms (odo w) + carry w < 2 ^ 32.
Proof.
  intros Hms Hb. unfold extended in Hb.
  pose proof (reg_word_range (vmem w) TCN_REG) as Hr. fold (reg_peek w TCN_REG) in Hr.
  destruct (carry_cases w); nia.
Qed.

(** A whole read, the hardware going on. *)
Lemma counter_show_hw_spec (evs : list hw_event) (w : world) :
  0 <= counter_ms (odo w) -> calm evs reader_start w = true ->
  extended w + counted w evs < 2 ^ 64 ->
  let r := counter_show_hw evs w in
  at_pc (fst r) = AtReturn /\
  counter_64 (fst r) =
    extended w + counted w (take (count_read_at (status (fst r))) evs) /\
  extended (snd r) = extended w + counted w evs /\
  0 <= counter_ms (odo (snd r)) /\
  reg_peek (snd r) TCTL_REG = reg_peek w TCTL_REG.
Proof.
  intros Hms Hcalm Hb r. subst r. unfold counter_show_hw.
  destruct evs as [|e evs].
  - rewrite counted_nil, Z.add_0_r in Hb.
    cbn [reader_steps_hw]. rewrite bind_eq. unfold ret. cbn [fst snd].
    rewrite reader_run_counter_show. cbn [fst snd at_pc status counter_64].
    rewrite take_nil, !counted_nil, !Z.add_0_r.
    pose proof (extended_bounds w Hms Hb) as Hroom.
    destruct (counter_show_no_overflow w Hms Hroom) as [Hv Hm].
    split; [reflexivity|]. split; [exact Hv|].
    split; [|split; [rewrite Hm; destruct (carry_cases w); lia|
                     apply counter_show_regs; discriminate]].
    unfold extended.
    rewrite Hm, (carry_flag_clear _ (counter_show_flag_clear w)),
      counter_show_regs by discriminate. lia.
  - pose proof (calm_pulses _ _ _ Hcalm) as Hnn.
    apply Forall_cons in Hnn as [Hd Hnn].
    cbn [calm] in Hcalm. apply andb_true_iff in Hcalm as [He Hrest].
    rewrite counted_cons in Hb.
    pose proof (counted_nonneg w evs Hnn) as Hpos.
    destruct (env_step_calm e reader_start w He) as (_ & Ho & Hc & Hx & _).
    cbv zeta in *. set (w1 := env_step e w) in *.
    assert (Hrun : (t <~ reader_steps_hw (e :: evs) reader_start ;; reader_run 9 t) w =
                   (t' <~ reader_steps_hw evs (fst (reader_step reader_start w1)) ;;
                    reader_run 9 t') (snd (reader_step reader_start w1))).
    { cbn [reader_steps_hw]. rewrite !bind_eq. reflexivity. }
    rewrite Hrun. clear Hrun.
    set (t2 := fst (reader_step reader_start w1)) in *.
    set (w2 := snd (reader_step reader_start w1)) in *.
    assert (Hpc : at_pc t2 = AtTest) by reflexivity.
    assert (Hst : status t2 = reg_peek w1 TSTAT_REG) by reflexivity.
    assert (Hv : vmem w2 = vmem w1) by reflexivity.
    assert (Ho2 : odo w2 = odo w1) by reflexivity.
    assert (Hinv : read_inv t2 w2).
    { unfold read_inv. rewrite Hpc, Hst, Ho2, Ho. split; [exact Hms|].
      rewrite (flag_set_same _ _ Hv). reflexivity. }
    assert (Hx2 : extended_at t2 w2 = extended w + counted w [e]).
    { unfold extended_at. rewrite Hpc, (extended_same _ _ Hv), Hx; [lia|].
      rewrite Ho2. reflexivity. }
    assert (Hc2 : reg_peek w2 TCTL_REG = reg_peek w TCTL_REG)
      by (rewrite (reg_peek_same _ _ _ Hv); exact Hc).
    assert (Hcnt : forall l, counted w2 l = counted w l)
      by (intros l; apply counted_same, Hc2).
    destruct (reader_steps_hw_inv evs t2 w2 Hinv Hrest ltac:(rewrite Hx2, Hcnt; lia))
      as (Ha & Hb1 & Hc3 & Hd3 & He3 & Hf3).
    cbv zeta in *. rewrite Ha, Hb1, Hc3, Hd3, Hf3.
    split; [reflexivity|].
    split; [|split; [rewrite Hx2, Hcnt, (counted_cons w e evs); lia|
                     split; [exact He3|exact Hc2]]].
    unfold expect. rewrite Hpc, Hx2, Hcnt. unfold steps_to_count, count_read_at.
    rewrite Hpc.
    destruct (Z.land (status t2) TSTAT_COMP =? 0); cbn [take];
      rewrite (counted_cons w e (take _ evs)); lia.
Qed.

Lemma calm_poll_pulses (plans : list (list hw_event)) : forall w,
  calm_poll plans w = true -> Forall (fun e => 0 <= pulses e) (concat plans).
Proof.
  induction plans as [|evs plans IH]; intros w H; [constructor|].
  cbn [calm_poll] in H. apply andb_true_iff in H as [He Hrest].
  cbn [concat]. apply Forall_app. split.
  - exact (calm_pulses _ _ _ He).
  - exact (IH _ Hrest).
Qed.

(** Every read of a run returns the count the channel stood for at the
    start plus the pulses counted before its read of the count register. *)
Lemma poll_hw_values (plans : list (list hw_event)) : forall (w : world),
  0 <= counter_ms (odo w) -> calm_poll plans w = true ->
  extended w + counted w (concat plans) < 2 ^ 64 ->
  forall (k : nat) (r : read), poll_hw plans w !! k = Some r ->
  value r = extended w + counted w (concat (take k plans)) + counted w (early r).
Proof.
  induction plans as [|evs plans IH]; intros w Hms Hcalm Hb k r Hk; [discriminate|].
  pose proof (calm_poll_pulses _ _ Hcalm) as Hnn.
  cbn [concat] in Hnn, Hb. apply Forall_app in Hnn as [Hn1 Hn2].
  rewrite counted_app in Hb.
  pose proof (counted_nonneg w _ Hn2) as Hpos.
  cbn [calm_poll] in Hcalm. apply andb_true_iff in Hcalm as [He Hrest].
  destruct (counter_show_hw_spec evs w Hms He ltac:(lia)) as (_ & Hv & Hx & Hm & Hc).
  cbv zeta in *.
  assert (Hcnt : forall l, counted (snd (counter_show_hw evs w)) l = counted w l)
    by (intros l; apply counted_same, Hc).
  cbn [poll_hw] in Hk. destruct k as [|k].
  - injection Hk as <-. unfold early. cbn [value seen during take concat].
    rewrite counted_nil, Hv. lia.
  - cbn [lookup] in Hk. change (poll_hw plans (snd (counter_show_hw evs w)) !! k = Some r) in Hk.
    rewrite (IH _ Hm Hrest ltac:(rewrite Hx, Hcnt; lia) k r Hk).
    rewrite Hx, !Hcnt. cbn [take concat]. rewrite counted_app. lia.
Qed.

Lemma poll_hw_sorted (plans : list (list hw_event)) : forall (w : world),
  0 <= counter_ms (odo w) -> calm_poll plans w = true ->
  extended w + counted w (concat plans) < 2 ^ 64 ->
  StronglySorted Z.le (map value (poll_hw plans w)) /\
  Forall (fun v => extended w <= v) (map value (poll_hw plans w)).
Proof.
  induction plans as [|evs plans IH]; intros w Hms Hcalm Hb;
    [split; constructor|].
  pose proof (calm_poll_pulses _ _ Hcalm) as Hnn.
  cbn [concat] in Hnn, Hb. apply Forall_app in Hnn as [Hn1 Hn2].
  rewrite counted_app in Hb.
  pose proof (counted_nonneg w _ Hn2) as Hpos.
  cbn [calm_poll] in Hcalm. apply andb_true_iff in Hcalm as [He Hrest].
  destruct (counter_show_hw_spec evs w Hms He ltac:(lia)) as (_ & Hv & Hx & Hm & Hc).
  cbv zeta in *.
  assert (Hcnt : forall l, counted (snd (counter_show_hw evs w)) l = counted w l)
    by (intros l; apply counted_same, Hc).
  destruct (IH _ Hm Hrest ltac:(rewrite Hx, Hcnt; lia)) as [Hs Hall].
  cbn [poll_hw map value]. rewrite Hv.
  set (n := count_read_at _).
  pose proof (counted_take_le w n evs Hn1) as Hle.
  pose proof (counted_nonneg w (take n evs) (Forall_take _ _ _ Hn1)) as Hge.
  split.
  - constructor; [exact Hs|].
    eapply Forall_impl; [exact Hall|]. cbv beta. intros v Hv'. rewrite Hx in Hv'. lia.
  - constructor; [lia|].
    eapply Forall_impl; [exact Hall|]. cbv beta. intros v Hv'. rewrite Hx in Hv'.
    pose proof (counted_nonneg w evs Hn1). lia.
Qed.

(** A reader that has returned stays where it is. *)
Lemma reader_run_returned (n : nat) (t : reader) (w : world) :
  at_pc t = AtReturn -> reader_run n t w = (t, w).
Proof.
  intros H. induction n as [|n IH]; [reflexivity|].
  cbn [reader_run]. rewrite bind_eq.
  assert (Hs : reader_step t w = (t, w))
    by (unfold reader_step; rewrite H; reflexivity).
  rewrite Hs. exact IH.
Qed.

Lemma reader_run_add (n m : nat) (t : reader) (w : world) :
  reader_run (n + m) t w = reader_run m (fst (reader_run n t w)) (snd (reader_run n t w)).
Proof.
  revert t w. induction n as [|n IH]; intros t w; [reflexivity|].
  cbn [Nat.add reader_run]. rewrite !bind_eq. apply IH.
Qed.

(** An event before a read is an event at the start of it. *)
Lemma counter_show_hw_before (e : hw_event) (w : world) :
  counter_show_hw [e] w = counter_show_hw [] (env_step e w).
Proof.
  unfold counter_show_hw. cbn [reader_steps_hw]. rewrite !bind_eq.
  unfold ret. cbn [fst snd].
  set (w1 := env_step e w).
  change (reader_run 9 (fst (reader_step reader_start w1)) (snd (reader_step reader_start w1)))
    with (reader_run 9 (fst (reader_run 1 reader_start w1)) (snd (reader_run 1 reader_start w1))).
  rewrite <- (reader_run_add 1 9).
  change (1 + 9)%nat with (9 + 1)%nat. rewrite reader_run_add.
  rewrite reader_run_counter_show. cbn [fst snd].
  apply reader_run_returned. reflexivity.
Qed.

(** Reads with the events in between are reads with each event at the start
    of the next read. *)
Lemma poll_as_poll_hw (evs : list hw_event) : forall (w : world),
  map out (poll evs w) = map value (poll_hw ([] :: map (fun e => [e]) evs) w) /\
  map post (poll evs w) = map after (poll_hw ([] :: map (fun e => [e]) evs) w).
Proof.
  assert (Hfirst : forall w, counter_show_hw [] w =
            (Reader AtReturn (reg_peek w TSTAT_REG) (fst (fst (counter_show w))),
             snd (counter_show w))).
  { intros w. unfold counter_show_hw. cbn [reader_steps_hw]. rewrite bind_eq.
    apply reader_run_counter_show. }
  induction evs as [|e evs IH]; intros w.
  - cbn [poll map poll_hw]. rewrite Hfirst. split; reflexivity.
  - rewrite poll_unfold. cbn [map]. cbn [poll_hw]. rewrite Hfirst.
    cbn [fst snd map value after out post counter_64].
    destruct (IH (env_step e (snd (counter_show w)))) as [IH1 IH2].
    rewrite IH1, IH2. cbn [poll_hw map value after].
    rewrite counter_show_hw_before. split; reflexivity.
Qed.

(** C2 (amended).  Reads of the counter attribute with no reset in between,
    the timer counting on meanwhile.  Provided that pulses only add to the
    count, that the count does not wrap between a read's look at the status
    register and its look at the count register, and that at any other
    time it wraps at most once and not while the flag of an earlier wrap is
    still up (one wrap at most from the count read of one query to the
    status read of the next), the values returned never go down, for as
    long as the count the channel stands for, with the pulses counted
    during the reads, stays below 2^64. *)
Theorem poll_hw_monotone (plans : list (list hw_event)) (w : world) :
  0 <= counter_ms (odo w) ->
  calm_poll plans w = true ->
  extended w + counted w (concat plans) < 2 ^ 64 ->
  StronglySorted Z.le (map value (poll_hw plans w)).
Proof. intros Hms Hcalm Hb. apply poll_hw_sorted; assumption. Qed.

Lemma poll_hw_monotone_witness :
  (0 <= counter_ms (odo world0) /\ calm_poll busy_plans world0 = true /\
   extended world0 + counted world0 (concat busy_plans) < 2 ^ 64) /\
  map value (poll_hw busy_plans world0) = [5; 2 ^ 32 + 6; 2 ^ 32 + 13] /\
  StronglySorted Z.le (map value (poll_hw busy_plans world0)).
Proof.
  assert (H1 : 0 <= counter_ms (odo world0)) by (vm_compute; congruence).
  assert (H2 : calm_poll busy_plans world0 = true) by (vm_compute; reflexivity).
  assert (H3 : extended world0 + counted world0 (concat busy_plans) < 2 ^ 64)
    by (vm_compute; reflexivity).
  split; [repeat split; assumption|].
  split; [vm_compute; reflexivity|].
  exact (poll_hw_monotone busy_plans world0 H1 H2 H3).
Defined.

(** C2, as stated, fails.  The status register and the count register are
    read one after the other: with the count ten pulses short of its
    maximum, twelve pulses that arrive between the two reads of the second
    query make the count wrap once; the query has found the flag down and
    reads the wrapped count, and returns less than the query before it.
    The count moves forward, wraps once in all, and the 64-bit count is far
    from its end. *)
Lemma poll_hw_drops_mid_read :
  world_ok world_near_wrap /\
  Forall (fun e => 0 <= pulses e) (concat torn_plans) /\
  reg_peek world_near_wrap TCN_REG + pulses_of (concat torn_plans) < 2 * 2 ^ 32 /\
  extended world_near_wrap + counted world_near_wrap (concat torn_plans) < 2 ^ 64 /\
  map value (poll_hw torn_plans world_near_wrap) = [0x7FFFFFFF6; 0x700000002] /\
  ~ StronglySorted Z.le (map value (poll_hw torn_plans world_near_wrap)).
Proof.
  split; [unfold world_ok, odo_ok; simpl; lia|].
  split; [repeat constructor; simpl; lia|].
  split; [vm_compute; reflexivity|].
  split; [vm_compute; reflexivity|].
  assert (Hout : map value (poll_hw torn_plans world_near_wrap)
                 = [0x7FFFFFFF6; 0x700000002]) by (vm_compute; reflexivity).
  split; [exact Hout|].
  rewrite Hout. intros Hs. inversion Hs as [|a l _ Hall]; subst.
  inversion Hall as [|b l' Hle _]; subst. lia.
Qed.

(** The 64-bit value runs out as well, whatever the assumption on the
    wraps: at the full high word the next carry makes the value drop. *)
Lemma poll_hw_drops_at_full_high_word :
  calm_poll [[]; [HwEvent (2 ^ 32 - 2) 1]] world_full = true /\
  map value (poll_hw [[]; [HwEvent (2 ^ 32 - 2) 1]] world_full)
  = [0xFFFFFFFF00000005; 3].
Proof. vm_compute. split; reflexivity. Qed.

(** * Further properties of the driver *)

(** ** The field accessor on any value *)

(** The word pushed to the register, for any [val]: nothing masks [val] to
    the width of the field. *)
Lemma odo_set_gpt_field_word_any r pos sz val :
  0 <= r < 2 ^ 32 -> 0 <= pos ->
  u32 (Z.lor (reset_field (Z.to_nat sz) pos (s32 r)) (shl val pos))
  = u32 (field_put r (pos, Z.max 0 sz) val).
Proof.
  intros Hr Hp. apply Z.bits_inj'. intros i Hi.
  rewrite !u32_testbit.
  destruct (Z.ltb_spec i 32) as [Hlt|Hge]; [|reflexivity]. cbn [andb].
  rewrite field_put_testbit by lia.
  rewrite Z.lor_spec, reset_field_testbit, shl_testbit, s32_testbit by lia.
  replace (Z.of_nat (Z.to_nat sz)) with (Z.max 0 sz) by lia. reflexivity.
Qed.

(** X1.  The accessor does not check that the value fits the field.  For a
    field inside the register and any [val], the word written is [r] with
    the field cleared, or-ed with [val << pos] cut to 32 bits: below the
    field the bits of [r] stay, inside it they are those of [val], and above
    it every bit of [val] that sticks out is or-ed onto the bit of [r], so
    an oversized value can set bits of the neighbouring fields and never
    clears one.  With [sz <= 0] nothing is cleared. *)
Theorem odo_set_gpt_field_unchecked (w : world) (reg pos sz val : Z) :
  0 <= pos < 32 -> pos + Z.max 0 sz <= 32 ->
  let r := reg_peek w reg in
  let x := u32 (field_put r (pos, Z.max 0 sz) val) in
  io_log (snd (odo_set_gpt_field reg (pos, sz) val w))
    = io_log w ++ [IoRead reg r; IoWrite reg x] /\
  (forall i, 0 <= i < pos -> Z.testbit x i = Z.testbit r i) /\
  (forall i, pos <= i < pos + sz -> Z.testbit x i = Z.testbit val (i - pos)) /\
  (forall i, pos + Z.max 0 sz <= i < 32 ->
     Z.testbit x i = Z.testbit r i || Z.testbit val (i - pos)).
Proof.
  intros Hp Hps r x.
  assert (Hr : 0 <= r < 2 ^ 32) by apply reg_word_range.
  rewrite odo_set_gpt_field_eq. cbn [snd io_log]. fold r.
  rewrite (odo_set_gpt_field_word_any r pos sz val Hr) by lia. fold x.
  split; [reflexivity|].
  assert (Hbits : forall i, 0 <= i < 32 -> Z.testbit x i =
            Z.testbit r i && negb ((pos <=? i) && (i <? pos + Z.max 0 sz))
            || Z.testbit val (i - pos)).
  { intros i Hi. unfold x. rewrite u32_testbit.
    destruct (Z.ltb_spec i 32); [|lia]. cbn [andb].
    apply field_put_testbit; lia. }
  repeat split.
  - intros i Hi. rewrite Hbits by lia.
    destruct (Z.leb_spec pos i); [lia|]. cbn [andb negb].
    rewrite andb_true_r, (Z.testbit_neg_r val) by lia. apply orb_false_r.
  - intros i Hi. rewrite Hbits by lia.
    destruct (Z.leb_spec pos i), (Z.ltb_spec i (pos + Z.max 0 sz)); try lia.
    cbn [andb negb]. rewrite andb_false_r. reflexivity.
  - intros i Hi. rewrite Hbits by lia.
    destruct (Z.ltb_spec i (pos + Z.max 0 sz)); [lia|].
    rewrite andb_false_r. cbn [negb]. rewrite andb_true_r. reflexivity.
Qed.

Lemma odo_set_gpt_field_unchecked_witness :
  (0 <= 1 < 32 /\ 1 + Z.max 0 3 <= 32) /\
  io_log (snd (odo_set_gpt_field TCTL_REG (1, 3) 0xFF world0))
    = io_log world0 ++ [IoRead TCTL_REG 1047; IoWrite TCTL_REG 1535].
Proof.
  split; [lia|].
  exact (proj1 (odo_set_gpt_field_unchecked world0 TCTL_REG 1 3 0xFF
                  ltac:(lia) ltac:(lia))).
Defined.

(** ** Field writes composed *)

(** A value that fits its field has no bit outside it. *)
Lemma fitting_bit_outside v p sz i :
  0 <= v < 2 ^ sz -> ~ (p <= i < p + sz) -> Z.testbit v (i - p) = false.
Proof.
  intros Hv Hout. destruct (Z.lt_ge_cases i p).
  - apply Z.testbit_neg_r. lia.
  - apply (small_testbit_high v sz); lia.
Qed.

Lemma field_put_put r p sz v1 v2 :
  0 <= p -> 0 <= sz -> 0 <= v1 < 2 ^ sz ->
  field_put (field_put r (p, sz) v1) (p, sz) v2 = field_put r (p, sz) v2.
Proof.
  intros Hp Hs Hv1. apply Z.bits_inj'. intros i Hi.
  rewrite !field_put_testbit by lia.
  destruct (Z.leb_spec p i), (Z.ltb_spec i (p + sz)); cbn [andb negb];
    rewrite ?andb_false_r, ?andb_true_r; try reflexivity;
    rewrite (fitting_bit_outside v1 p sz i Hv1) by lia;
    rewrite orb_false_r; reflexivity.
Qed.

Lemma field_put_comm r p1 sz1 v1 p2 sz2 v2 :
  0 <= p1 -> 0 <= sz1 -> 0 <= v1 < 2 ^ sz1 ->
  0 <= p2 -> 0 <= sz2 -> 0 <= v2 < 2 ^ sz2 ->
  p1 + sz1 <= p2 \/ p2 + sz2 <= p1 ->
  field_put (field_put r (p1, sz1) v1) (p2, sz2) v2
  = field_put (field_put r (p2, sz2) v2) (p1, sz1) v1.
Proof.
  intros Hp1 Hs1 Hv1 Hp2 Hs2 Hv2 Hdisj. apply Z.bits_inj'. intros i Hi.
  rewrite !field_put_testbit by lia.
  destruct (Z.leb_spec p1 i), (Z.ltb_spec i (p1 + sz1)),
    (Z.leb_spec p2 i), (Z.ltb_spec i (p2 + sz2)); try lia;
    cbn [andb negb]; rewrite ?andb_false_r, ?andb_true_r;
    rewrite ?(fitting_bit_outside v1 p1 sz1 i Hv1) by lia;
    rewrite ?(fitting_bit_outside v2 p2 sz2 i Hv2) by lia;
    rewrite ?orb_false_r, ?orb_false_l; reflexivity.
Qed.

Lemma reg_word_small regs off x :
  0 <= x < 2 ^ 32 -> reg_word (<[off := x]> regs) off = x.
Proof. intros Hx. rewrite reg_word_insert. apply u32_small, Hx. Qed.

(** X2.  On a plain register (any but the write-1-to-clear status
    register), for a field inside the register and two values [v1] and [v2]
    that fit the field ([0 <= v < 2^sz]), the last write wins: writing [v1]
    and then [v2] to the field leaves the registers exactly as writing [v2]
    alone. *)
Theorem odo_set_gpt_field_overwrite (w : world) (reg p sz v1 v2 : Z) :
  0 <= p -> 0 <= sz -> p + sz <= 32 ->
  0 <= v1 < 2 ^ sz -> 0 <= v2 < 2 ^ sz -> reg <> TSTAT_REG ->
  vmem (snd ((odo_set_gpt_field reg (p, sz) (s32 v1) ;;
              odo_set_gpt_field reg (p, sz) (s32 v2)) w))
  = vmem (snd (odo_set_gpt_field reg (p, sz) (s32 v2) w)).
Proof.
  intros Hp Hs Hps Hv1 Hv2 Hreg.
  rewrite bind_eq.
  rewrite !(odo_set_gpt_field_put reg p sz _ _ _ eq_refl) by assumption.
  cbv zeta. cbn [fst snd vmem]. rewrite reg_peek_world.
  rewrite reg_word_small
    by (apply field_put_range; try apply reg_word_range; lia).
  rewrite field_put_put by lia. apply insert_insert_eq.
Qed.

Lemma odo_set_gpt_field_overwrite_witness :
  (0 <= 1 /\ 0 <= 3 /\ 1 + 3 <= 32 /\ 0 <= 5 < 2 ^ 3 /\ 0 <= 2 < 2 ^ 3 /\
   TCTL_REG <> TSTAT_REG) /\
  reg_peek (snd ((odo_set_gpt_field TCTL_REG (1, 3) (s32 5) ;;
                  odo_set_gpt_field TCTL_REG (1, 3) (s32 2)) world0)) TCTL_REG
  = 1045.
Proof.
  split; [repeat split; try lia; discriminate|].
  unfold reg_peek.
  rewrite (odo_set_gpt_field_overwrite world0 TCTL_REG 1 3 5 2
             ltac:(lia) ltac:(lia) ltac:(lia) ltac:(lia) ltac:(lia)
             ltac:(discriminate)).
  vm_compute. reflexivity.
Defined.

(** X3.  Two field writes whose values fit their fields ([0 <= v < 2^sz]),
    to disjoint fields of one plain register or to two different plain
    registers (neither the write-1-to-clear status register), can be
    swapped: the registers end up the same in either order. *)
Theorem odo_set_gpt_field_commute (w : world)
    (reg1 p1 sz1 v1 reg2 p2 sz2 v2 : Z) :
  0 <= p1 -> 0 <= sz1 -> p1 + sz1 <= 32 -> 0 <= v1 < 2 ^ sz1 ->
  0 <= p2 -> 0 <= sz2 -> p2 + sz2 <= 32 -> 0 <= v2 < 2 ^ sz2 ->
  reg1 <> TSTAT_REG -> reg2 <> TSTAT_REG ->
  reg1 <> reg2 \/ p1 + sz1 <= p2 \/ p2 + sz2 <= p1 ->
  vmem (snd ((odo_set_gpt_field reg1 (p1, sz1) (s32 v1) ;;
              odo_set_gpt_field reg2 (p2, sz2) (s32 v2)) w))
  = vmem (snd ((odo_set_gpt_field reg2 (p2, sz2) (s32 v2) ;;
                odo_set_gpt_field reg1 (p1, sz1) (s32 v1)) w)).
Proof.
  intros Hp1 Hs1 Hps1 Hv1 Hp2 Hs2 Hps2 Hv2 Hr1 Hr2 Hsep.
  rewrite !bind_eq.
  rewrite !(odo_set_gpt_field_put _ _ _ _ _ _ eq_refl) by assumption.
  cbv zeta. cbn [fst snd vmem]. rewrite !reg_peek_world.
  destruct (Z.eq_dec reg1 reg2) as [<-|Hne].
  - rewrite !reg_word_small
      by (apply field_put_range; try apply reg_word_range; lia).
    rewrite !insert_insert_eq. f_equal.
    apply field_put_comm; lia.
  - rewrite !reg_word_insert_ne by congruence.
    apply insert_insert_ne. congruence.
Qed.

Lemma odo_set_gpt_field_commute_witness :
  (0 <= 1 /\ 0 <= 3 /\ 1 + 3 <= 32 /\ 0 <= 5 < 2 ^ 3 /\
   0 <= 8 /\ 0 <= 1 /\ 8 + 1 <= 32 /\ 0 <= 1 < 2 ^ 1 /\
   TCTL_REG <> TSTAT_REG /\ (TCTL_REG <> TCTL_REG \/ 1 + 3 <= 8 \/ 8 + 1 <= 1)) /\
  reg_peek (snd ((odo_set_gpt_field TCTL_REG (1, 3) (s32 5) ;;
                  odo_set_gpt_field TCTL_REG (8, 1) (s32 1)) world0)) TCTL_REG
  = 1307.
Proof.
  split; [repeat split; try lia; try discriminate; right; lia|].
  unfold reg_peek.
  rewrite (odo_set_gpt_field_commute world0 TCTL_REG 1 3 5 TCTL_REG 8 1 1
             ltac:(lia) ltac:(lia) ltac:(lia) ltac:(lia)
             ltac:(lia) ltac:(lia) ltac:(lia) ltac:(lia)
             ltac:(discriminate) ltac:(discriminate) ltac:(right; lia)).
  vm_compute. reflexivity.
Defined.

(** The condition on the values is needed.  A value wider than its field
    spills into the bits above it (X1): there a later write to the field
    leaves it, and a write to the neighbouring field clears it or not
    according to the order. *)
Lemma odo_set_gpt_field_oversized :
  let w12 := snd ((odo_set_gpt_field TCTL_REG (1, 3) 0xFF ;;
                   odo_set_gpt_field TCTL_REG (1, 3) 2) world0) in
  let w2 := snd (odo_set_gpt_field TCTL_REG (1, 3) 2 world0) in
  let wab := snd ((odo_set_gpt_field TCTL_REG (1, 3) 0xFF ;;
                   odo_set_gpt_field TCTL_REG (4, 1) 0) world0) in
  let wba := snd ((odo_set_gpt_field TCTL_REG (4, 1) 0 ;;
                   odo_set_gpt_field TCTL_REG (1, 3) 0xFF) world0) in
  reg_peek w12 TCTL_REG = 1525 /\ reg_peek w2 TCTL_REG = 1045 /\
  reg_peek wab TCTL_REG = 1519 /\ reg_peek wba TCTL_REG = 1535.
Proof. vm_compute. repeat split. Qed.

(** ** The configurator: what it leaves alone, and running it again *)

Lemma bit_of_three k : Z.testbit 3 k = (k =? 0) || (k =? 1).
Proof.
  destruct (Z.eqb_spec k 0) as [->|H0]; [reflexivity|].
  destruct (Z.eqb_spec k 1) as [->|H1]; [reflexivity|].
  destruct (Z.neg_nonneg_cases k).
  - apply Z.testbit_neg_r. lia.
  - apply (small_testbit_high 3 2); lia.
Qed.

Ltac split_comparison :=
  lazymatch goal with
  | |- context [(?i <=? ?j)] => destruct (Z.leb_spec i j)
  | |- context [(?i <? ?j)] => destruct (Z.ltb_spec i j)
  | |- context [(?i =? ?j)] => destruct (Z.eqb_spec i j)
  end.

Ltac split_comparisons := repeat (split_comparison; try (exfalso; lia)).

(** The bits of the configured control word. *)
Lemma tctl_configured_testbit c i :
  0 <= i ->
  Z.testbit (tctl_configured c) i =
  if (i =? 0) || (i =? 1) || (i =? 2) || (i =? 4) || (i =? 10) then true
  else if (i =? 3) || (i =? 8) then false
  else Z.testbit c i.
Proof.
  intros Hi. unfold tctl_configured. unfold_fields.
  rewrite !field_put_testbit by lia.
  rewrite !bit_of_one, bit_of_three, !Z.bits_0.
  generalize (Z.testbit c i). intros b.
  split_comparisons; destruct b; reflexivity.
Qed.

(** The registers after [odo_timer_setup]. *)
Lemma odo_timer_setup_vmem (w : world) :
  let c := tctl_configured (reg_peek w TCTL_REG) in
  let p := field_put (reg_peek w TPRER_REG) TPRER_PRESCALER 0 in
  let w' := snd (odo_timer_setup w) in
  reg_peek w' TCTL_REG = c /\ reg_peek w' TPRER_REG = p /\
  reg_peek w' TCMP_REG = 0xFFFFFFFF /\
  (forall off, off <> TCTL_REG -> off <> TPRER_REG -> off <> TCMP_REG ->
     reg_peek w' off = reg_peek w off) /\
  odo w' = odo w /\ jiffies w' = jiffies w.
Proof.
  intros c p w'. subst w'.
  set (c0 := reg_peek w TCTL_REG) in *.
  set (c1 := field_put c0 TCTL_TEN 0).
  set (c2 := field_put c1 TCTL_CC 1).
  set (c3 := field_put c2 TCTL_CLKSOURCE 3).
  set (c4 := field_put c3 TCTL_COMP_EN 1).
  set (c5 := field_put c4 TCTL_FRR 0).
  assert (H0 : 0 <= c0 < 2 ^ 32) by apply reg_word_range.
  assert (H1 : 0 <= c1 < 2 ^ 32) by (apply field_put_range; lia).
  assert (H2 : 0 <= c2 < 2 ^ 32) by (apply field_put_range; lia).
  assert (H3 : 0 <= c3 < 2 ^ 32) by (apply field_put_range; lia).
  assert (H4 : 0 <= c4 < 2 ^ 32) by (apply field_put_range; lia).
  assert (H5 : 0 <= c5 < 2 ^ 32) by (apply field_put_range; lia).
  assert (H6 : 0 <= field_put c5 TCTL_TEN 1 < 2 ^ 32)
    by (apply field_put_range; lia).
  change (field_put c5 TCTL_TEN 1) with c in H6.
  assert (Hp : 0 <= p < 2 ^ 32)
    by (apply field_put_range; try apply reg_word_range; lia).
  assert (Heq : snd (odo_timer_setup w) =
    World (odo w)
      (<[TCTL_REG := c]> (<[TCMP_REG := 0xFFFFFFFF]> (<[TCTL_REG := c5]>
       (<[TCTL_REG := c4]> (<[TPRER_REG := p]> (<[TCTL_REG := c3]>
       (<[TCTL_REG := c2]> (<[TCTL_REG := c1]> (vmem w)))))))))
      (jiffies w) (io_log (snd (odo_timer_setup w)))).
  { unfold odo_timer_setup. unfold_fields.
    setup_step 0. change (field_put (reg_word (vmem w) TCTL_REG) (0, 1) 0) with c1.
    setup_step 1. rewrite (u32_small c1 H1). change (field_put c1 (10, 1) 1) with c2.
    setup_step 3. rewrite (u32_small c2 H2). change (field_put c2 (1, 3) 3) with c3.
    setup_step 0. change (field_put (reg_word (vmem w) TPRER_REG) (0, 10) 0) with p.
    setup_step 1. rewrite (u32_small c3 H3). change (field_put c3 (4, 1) 1) with c4.
    setup_step 0. rewrite (u32_small c4 H4). change (field_put c4 (8, 1) 0) with c5.
    setup_step 0xFFFFFFFF.
    rewrite (field_put_whole (reg_word (vmem w) TCMP_REG) 0xFFFFFFFF)
      by (try apply reg_word_range; lia).
    setup_step 1. rewrite (u32_small c5 H5). change (field_put c5 (0, 1) 1) with c.
    reflexivity. }
  rewrite Heq. rewrite !reg_peek_world. cbn [odo jiffies].
  repeat split.
  - rewrite reg_word_insert. apply u32_small, H6.
  - repeat (rewrite reg_word_insert || rewrite reg_word_insert_ne by discriminate).
    apply u32_small, Hp.
  - repeat (rewrite reg_word_insert || rewrite reg_word_insert_ne by discriminate).
    reflexivity.
  - intros off Hc Hpr Hcm. rewrite reg_peek_world.
    rewrite !reg_word_insert_ne by congruence. reflexivity.
Qed.

(** The accesses [odo_timer_setup] makes. *)
Lemma odo_timer_setup_log (w : world) :
  let c0 := reg_peek w TCTL_REG in
  let c1 := field_put c0 TCTL_TEN 0 in
  let c2 := field_put c1 TCTL_CC 1 in
  let c3 := field_put c2 TCTL_CLKSOURCE 3 in
  let p0 := reg_peek w TPRER_REG in
  let p1 := field_put p0 TPRER_PRESCALER 0 in
  let c4 := field_put c3 TCTL_COMP_EN 1 in
  let c5 := field_put c4 TCTL_FRR 0 in
  let m0 := reg_peek w TCMP_REG in
  let c6 := field_put c5 TCTL_TEN 1 in
  io_log (snd (odo_timer_setup w)) = io_log w ++
    [IoRead TCTL_REG c0; IoWrite TCTL_REG c1;
     IoRead TCTL_REG c1; IoWrite TCTL_REG c2;
     IoRead TCTL_REG c2; IoWrite TCTL_REG c3;
     IoRead TPRER_REG p0; IoWrite TPRER_REG p1;
     IoRead TCTL_REG c3; IoWrite TCTL_REG c4;
     IoRead TCTL_REG c4; IoWrite TCTL_REG c5;
     IoRead TCMP_REG m0; IoWrite TCMP_REG 0xFFFFFFFF;
     IoRead TCTL_REG c5; IoWrite TCTL_REG c6].
Proof.
  intros c0 c1 c2 c3 p0 p1 c4 c5 m0 c6.
  assert (H0 : 0 <= c0 < 2 ^ 32) by apply reg_word_range.
  assert (H1 : 0 <= c1 < 2 ^ 32) by (apply field_put_range; lia).
  assert (H2 : 0 <= c2 < 2 ^ 32) by (apply field_put_range; lia).
  assert (H3 : 0 <= c3 < 2 ^ 32) by (apply field_put_range; lia).
  assert (H4 : 0 <= c4 < 2 ^ 32) by (apply field_put_range; lia).
  assert (H5 : 0 <= c5 < 2 ^ 32) by (apply field_put_range; lia).
  unfold odo_timer_setup. unfold_fields.
  setup_step 0. change (field_put (reg_word (vmem w) TCTL_REG) (0, 1) 0) with c1.
  setup_step 1. rewrite (u32_small c1 H1). change (field_put c1 (10, 1) 1) with c2.
  setup_step 3. rewrite (u32_small c2 H2). change (field_put c2 (1, 3) 3) with c3.
  setup_step 0. change (field_put (reg_word (vmem w) TPRER_REG) (0, 10) 0) with p1.
  setup_step 1. rewrite (u32_small c3 H3). change (field_put c3 (4, 1) 1) with c4.
  setup_step 0. rewrite (u32_small c4 H4). change (field_put c4 (8, 1) 0) with c5.
  setup_step 0xFFFFFFFF.
  rewrite (field_put_whole (reg_word (vmem w) TCMP_REG) 0xFFFFFFFF)
    by (try apply reg_word_range; lia).
  setup_step 1. rewrite (u32_small c5 H5). change (field_put c5 (0, 1) 1) with c6.
  unfold ret. cbn [snd io_log]. rewrite <- !app_assoc. reflexivity.
Qed.

(** With the enable bit clear and the CC bit set the count is held at
    zero. *)
Lemma clears_count_bits (c : Z) :
  Z.testbit c (fst TCTL_TEN) = false -> Z.testbit c (fst TCTL_CC) = true ->
  clears_count c.
Proof.
  intros Hten Hcc regs Hc. unfold gpt_settle. rewrite Hc, Hten, Hcc.
  cbn [negb andb]. apply reg_word_insert.
Qed.

(** X4.  The writes of [odo_timer_setup] go to TCTL, TPRER and TCMP only and
    change nothing but the seven control bits it programs (bits 0-4, 8 and
    10 of TCTL), the ten prescaler bits and the compare register: every
    other bit of TCTL and TPRER, and every register other than these three
    and the count (a pending compare flag included), is left as found, and
    running the setup a second time leaves all of them as the first run
    left them.  The count register is not written, but it does not survive
    the setup on hardware with reset-on-disable: the control words of the
    second to the fifth write to TCTL have the enable bit clear and the CC
    bit set, the state in which that hardware holds the count at zero. *)
Theorem odo_timer_setup_frame (w : world) :
  let w1 := snd (odo_timer_setup w) in
  let w2 := snd (odo_timer_setup w1) in
  (forall i, ~ In i [0; 1; 2; 3; 4; 8; 10] ->
     Z.testbit (reg_peek w1 TCTL_REG) i = Z.testbit (reg_peek w TCTL_REG) i) /\
  (forall i, 10 <= i ->
     Z.testbit (reg_peek w1 TPRER_REG) i = Z.testbit (reg_peek w TPRER_REG) i) /\
  (forall off, off <> TCTL_REG -> off <> TPRER_REG -> off <> TCMP_REG ->
     off <> TCN_REG -> reg_peek w1 off = reg_peek w off) /\
  (forall off, off <> TCN_REG -> reg_peek w2 off = reg_peek w1 off) /\
  (exists log c1 c2 c3 c4 c5 c6,
     io_log w1 = io_log w ++ log /\
     written log = [TCTL_REG; TCTL_REG; TCTL_REG; TPRER_REG;
                    TCTL_REG; TCTL_REG; TCMP_REG; TCTL_REG] /\
     writes_to TCTL_REG log = [c1; c2; c3; c4; c5; c6] /\
     Forall clears_count [c2; c3; c4; c5]).
Proof.
  intros w1 w2.
  destruct (odo_timer_setup_vmem w) as (Hc & Hp & Hm & Hother & _).
  destruct (odo_timer_setup_vmem w1) as (Hc2 & Hp2 & Hm2 & Hother2 & _).
  fold w1 in Hc, Hp, Hm, Hother. fold w2 in Hc2, Hp2, Hm2, Hother2.
  split; [|split; [|split; [|split]]].
  - intros i Hi. rewrite Hc. destruct (Z.neg_nonneg_cases i).
    + rewrite !Z.testbit_neg_r by lia. reflexivity.
    + rewrite tctl_configured_testbit by lia.
      cbn [In] in Hi. split_comparisons; try reflexivity; exfalso; apply Hi; lia.
  - intros i Hi. rewrite Hp. unfold_fields. rewrite field_put_testbit by lia.
    rewrite Z.bits_0.
    destruct (Z.leb_spec 0 i), (Z.ltb_spec i (0 + 10)); try lia.
    cbn [andb negb]. rewrite andb_true_r, orb_false_r. reflexivity.
  - intros off H1 H2 H3 _. apply Hother; assumption.
  - intros off _.
    destruct (Z.eq_dec off TCTL_REG) as [->|Hc'];
      [|destruct (Z.eq_dec off TPRER_REG) as [->|Hp'];
        [|destruct (Z.eq_dec off TCMP_REG) as [->|Hm']]].
    + rewrite Hc2, Hc. apply Z.bits_inj'. intros i Hi.
      rewrite !tctl_configured_testbit by lia.
      split_comparisons; reflexivity.
    + rewrite Hp2, Hp. unfold_fields. apply field_put_put; lia.
    + rewrite Hm2, Hm. reflexivity.
    + apply Hother2; assumption.
  - pose proof (odo_timer_setup_log w) as Hlog. cbv zeta in Hlog. fold w1 in Hlog.
    eexists _, _, _, _, _, _, _. split; [exact Hlog|].
    split; [reflexivity|]. split; [reflexivity|].
    set (c0 := reg_peek w TCTL_REG).
    assert (Hbits : forall c, Z.testbit c 0 = false -> Z.testbit c 10 = true ->
                              clears_count c)
      by (intros c; apply clears_count_bits).
    unfold_fields.
    repeat constructor; apply Hbits;
      rewrite !field_put_testbit by lia;
      rewrite ?bit_of_one, ?bit_of_three, ?Z.bits_0;
      cbn; rewrite ?andb_false_r, ?orb_true_r, ?orb_false_r; reflexivity.
Qed.

(** ** The first read after a reset *)

(** A reset does not touch the status register. *)
Lemma reset_store_keeps_flag (buf : string) (count reset : Z) (w : world) :
  kstrtoint buf 10 = inr reset ->
  (reset =? 1) || (reset =? Z.of_N (N_of_ascii "1")) = true ->
  carry (snd (reset_store buf count w)) = carry w.
Proof.
  intros Hparse Hone.
  rewrite (reset_store_reset_eq _ _ _ _ Hparse Hone). cbn [snd].
  unfold carry, flag_set. rewrite reg_peek_world.
  destruct (reset_registers w) as (_ & _ & _ & ->). reflexivity.
Qed.

(** Without reset-on-disable the hardware count survives the reset. *)
Lemma reset_store_keeps_count (buf : string) (count reset : Z) (w : world) :
  kstrtoint buf 10 = inr reset ->
  (reset =? 1) || (reset =? Z.of_N (N_of_ascii "1")) = true ->
  Z.testbit (reg_peek w TCTL_REG) (fst TCTL_CC) = false ->
  reg_peek (snd (reset_store buf count w)) TCN_REG = reg_peek w TCN_REG.
Proof.
  intros Hparse Hone Hcc.
  rewrite (reset_store_reset_eq _ _ _ _ Hparse Hone). cbn [snd].
  rewrite reg_peek_world, reg_word_insert_ne by discriminate.
  set (c0 := reg_peek w TCTL_REG) in *.
  assert (H0 : 0 <= c0 < 2 ^ 32) by apply reg_word_range.
  assert (H1 : 0 <= field_put c0 TCTL_TEN 0 < 2 ^ 32)
    by (apply field_put_range; lia).
  unfold gpt_settle. rewrite reg_word_insert, (u32_small _ H1).
  unfold TCTL_TEN, TCTL_CC in *. cbn [fst] in *.
  rewrite !field_put_testbit by lia. rewrite Hcc, Z.bits_0.
  rewrite andb_false_l, orb_false_l, andb_false_r.
  apply reg_word_insert_ne. discriminate.
Qed.

(** X5.  A reset clears the software high word but does not acknowledge the
    compare flag.  The read that follows a reset returns the hardware count
    alone when the flag was down at the reset, and 2^32 plus the count when
    a wrap was pending; with reset-on-disable configured the count is 0,
    without it the count is the one from before the reset.  That read is
    access number 1 and its tick count is both the first and the last
    access time. *)
Theorem reset_then_counter_show (buf : string) (count reset : Z) (w : world) :
  kstrtoint buf 10 = inr reset ->
  (reset =? 1) || (reset =? Z.of_N (N_of_ascii "1")) = true ->
  let w1 := snd (reset_store buf count w) in
  let r := counter_show w1 in
  let cc := Z.testbit (reg_peek w TCTL_REG) (fst TCTL_CC) in
  fst (fst r) = carry w * 2 ^ 32 + (if cc then 0 else reg_peek w TCN_REG) /\
  counter_ms (odo (snd r)) = carry w /\
  nb_access (odo (snd r)) = 1 /\
  first_access (odo (snd r)) = jiffies w /\
  last_access (odo (snd r)) = jiffies w.
Proof.
  intros Hparse Hone w1 r cc. subst r.
  assert (Hms : counter_ms (odo w1) = 0)
    by (subst w1; rewrite (reset_store_reset_eq _ _ _ _ Hparse Hone); reflexivity).
  assert (Hc : carry w1 = carry w) by (apply (reset_store_keeps_flag _ _ _ _ Hparse Hone)).
  assert (Hcn : reg_peek w1 TCN_REG = if cc then 0 else reg_peek w TCN_REG).
  { subst cc. destruct (Z.testbit (reg_peek w TCTL_REG) (fst TCTL_CC)) eqn:Hcc.
    - apply (reset_store_clears_count _ _ _ _ Hparse Hone Hcc).
    - apply (reset_store_keeps_count _ _ _ _ Hparse Hone Hcc). }
  destruct (counter_show_no_overflow w1) as [Hv Hms'].
  { rewrite Hms. lia. }
  { rewrite Hms. destruct (carry_cases w1); lia. }
  rewrite Hv, Hms', Hms, Hc, Hcn. split; [reflexivity|]. split; [reflexivity|].
  rewrite counter_show_eq. cbn [snd odo nb_access first_access last_access].
  subst w1. rewrite (reset_store_reset_eq _ _ _ _ Hparse Hone).
  cbn [snd odo nb_access first_access jiffies]. repeat split.
Qed.

Lemma reset_then_counter_show_witness :
  (kstrtoint "1" 10 = inr 1 /\
   (1 =? 1) || (1 =? Z.of_N (N_of_ascii "1")) = true) /\
  carry world_wrapped = 1 /\
  fst (fst (counter_show (snd (reset_store "1" 1 world_wrapped)))) = 2 ^ 32.
Proof.
  assert (H1 : kstrtoint "1" 10 = inr 1) by reflexivity.
  assert (H2 : (1 =? 1) || (1 =? Z.of_N (N_of_ascii "1")) = true) by reflexivity.
  split; [split; assumption|].
  split; [vm_compute; reflexivity|].
  destruct (reset_then_counter_show "1" 1 1 world_wrapped H1 H2) as (Hv & _).
  rewrite Hv. vm_compute. reflexivity.
Defined.

(** ** The odometer counts the pulses *)

(** X6.  With the timer enabled, reads of the counter attribute without a
    reset in between, the timer counting on meanwhile.  Provided that
    pulses only add to the count, that the count does not wrap between a
    read's look at the status register and its look at the count register,
    and that at any other time it wraps at most once and not while the flag
    of an earlier wrap is still up, every read returns the count the
    channel stood for at the start (high word, a flagged wrap, hardware
    count) plus all the pulses that have arrived before that read's look at
    the count register, for as long as the count with all the pulses of the
    run stays below 2^64. *)
Theorem poll_counts_pulses (plans : list (list hw_event)) (w : world)
    (k : nat) (r : read) :
  enabled w = true ->
  0 <= counter_ms (odo w) ->
  calm_poll plans w = true ->
  extended w + pulses_of (concat plans) < 2 ^ 64 ->
  poll_hw plans w !! k = Some r ->
  value r = extended w + pulses_of (concat (take k plans)) + pulses_of (early r).
Proof.
  intros Hen Hms Hcalm Hb Hk.
  assert (Hcnt : forall l, counted w l = pulses_of l)
    by (intros l; unfold counted; rewrite Hen; reflexivity).
  rewrite <- !Hcnt. apply poll_hw_values; try assumption.
  rewrite Hcnt. exact Hb.
Qed.

Lemma poll_counts_pulses_witness :
  (enabled world0 = true /\ 0 <= counter_ms (odo world0) /\
   calm_poll busy_plans world0 = true /\
   extended world0 + pulses_of (concat busy_plans) < 2 ^ 64 /\
   poll_hw busy_plans world0 !! 2%nat = Some third_read) /\
  value third_read = 2 ^ 32 + 13.
Proof.
  assert (H1 : enabled world0 = true) by (vm_compute; reflexivity).
  assert (H2 : 0 <= counter_ms (odo world0)) by (vm_compute; congruence).
  assert (H3 : calm_poll busy_plans world0 = true) by (vm_compute; reflexivity).
  assert (H4 : extended world0 + pulses_of (concat busy_plans) < 2 ^ 64)
    by (vm_compute; reflexivity).
  assert (H5 : poll_hw busy_plans world0 !! 2%nat = Some third_read)
    by (vm_compute; reflexivity).
  split; [repeat split; assumption|].
  rewrite (poll_counts_pulses busy_plans world0 2 third_read H1 H2 H3 H4 H5).
  vm_compute. reflexivity.
Defined.

Lemma reset_store_enabled (buf : string) (count reset : Z) (w : world) :
  kstrtoint buf 10 = inr reset ->
  (reset =? 1) || (reset =? Z.of_N (N_of_ascii "1")) = true ->
  Z.testbit (reg_peek (snd (reset_store buf count w)) TCTL_REG) (fst TCTL_TEN) = true.
Proof.
  intros Hparse Hone.
  rewrite (reset_store_reset_eq _ _ _ _ Hparse Hone). cbn [snd].
  rewrite reg_peek_world. destruct (reset_registers w) as (-> & _).
  destruct (reenabled_word (reg_peek w TCTL_REG) (reg_word_range _ _)) as [_ Hb].
  rewrite Hb. reflexivity.
Qed.

(** X7.  After a resetting write to the reset attribute, made with
    reset-on-disable (CC) configured and while no wrap was flagged, the
    odometer reads the pulses since the reset.  Provided that, from the
    reset on, pulses only add to the count, that the count does not wrap
    between a read's look at the status register and its look at the count
    register, and that at any other time it wraps at most once and not
    while the flag of an earlier wrap is still up, every read returns the
    number of pulses that have arrived since the reset and before that
    read's look at the count register, wraps of the hardware count
    included, for as long as the pulses of the run stay below 2^64. *)
Theorem reset_then_poll (buf : string) (count reset : Z) (w : world)
    (plans : list (list hw_event)) (k : nat) (r : read) :
  kstrtoint buf 10 = inr reset ->
  (reset =? 1) || (reset =? Z.of_N (N_of_ascii "1")) = true ->
  Z.testbit (reg_peek w TCTL_REG) (fst TCTL_CC) = true ->
  flag_set w = false ->
  calm_poll plans (snd (reset_store buf count w)) = true ->
  pulses_of (concat plans) < 2 ^ 64 ->
  poll_hw plans (snd (reset_store buf count w)) !! k = Some r ->
  value r = pulses_of (concat (take k plans)) + pulses_of (early r).
Proof.
  intros Hparse Hone Hcc Hflag Hcalm Hfit Hk.
  set (w1 := snd (reset_store buf count w)) in *.
  assert (Hms : counter_ms (odo w1) = 0)
    by (subst w1; rewrite (reset_store_reset_eq _ _ _ _ Hparse Hone); reflexivity).
  assert (Hc : carry w1 = 0).
  { subst w1. rewrite (reset_store_keeps_flag _ _ _ _ Hparse Hone).
    apply carry_flag_clear, Hflag. }
  assert (Hcn : reg_peek w1 TCN_REG = 0)
    by (apply (reset_store_clears_count _ _ _ _ Hparse Hone Hcc)).
  assert (Hen : enabled w1 = true)
    by (apply (reset_store_enabled _ _ _ _ Hparse Hone)).
  assert (Hx : extended w1 = 0) by (unfold extended; rewrite Hms, Hc, Hcn; lia).
  assert (Hcnt : forall l, counted w1 l = pulses_of l)
    by (intros l; unfold counted; rewrite Hen; reflexivity).
  rewrite (poll_hw_values plans w1 ltac:(lia) Hcalm ltac:(rewrite Hx, Hcnt; lia) k r Hk).
  rewrite Hx, !Hcnt. lia.
Qed.

Lemma reset_then_poll_witness :
  (kstrtoint "1" 10 = inr 1 /\
   (1 =? 1) || (1 =? Z.of_N (N_of_ascii "1")) = true /\
   Z.testbit (reg_peek world_full TCTL_REG) (fst TCTL_CC) = true /\
   flag_set world_full = false /\
   calm_poll busy_plans (snd (reset_store "1" 1 world_full)) = true /\
   pulses_of (concat busy_plans) < 2 ^ 64 /\
   poll_hw busy_plans (snd (reset_store "1" 1 world_full)) !! 2%nat
     = Some read_after_reset) /\
  counter_ms (odo world_full) = 0xFFFFFFFF /\
  value read_after_reset = 2 ^ 32 + 13.
Proof.
  assert (H1 : kstrtoint "1" 10 = inr 1) by reflexivity.
  assert (H2 : (1 =? 1) || (1 =? Z.of_N (N_of_ascii "1")) = true) by reflexivity.
  assert (H3 : Z.testbit (reg_peek world_full TCTL_REG) (fst TCTL_CC) = true)
    by (vm_compute; reflexivity).
  assert (H4 : flag_set world_full = false) by (vm_compute; reflexivity).
  assert (H5 : calm_poll busy_plans (snd (reset_store "1" 1 world_full)) = true)
    by (vm_compute; reflexivity).
  assert (H6 : pulses_of (concat busy_plans) < 2 ^ 64) by (vm_compute; reflexivity).
  assert (H7 : poll_hw busy_plans (snd (reset_store "1" 1 world_full)) !! 2%nat
               = Some read_after_reset) by (vm_compute; reflexivity).
  split; [repeat split; assumption|]. split; [reflexivity|].
  rewrite (reset_then_poll "1" 1 1 world_full busy_plans 2 read_after_reset
             H1 H2 H3 H4 H5 H6 H7).
  vm_compute. reflexivity.
Defined.

(** ** The mean period over a run *)

Lemma ticks_before_cons k e evs :
  ticks_before (S k) (e :: evs) = ticks e + ticks_before k evs.
Proof. reflexivity. Qed.

(** The tick count each read of a run sees. *)
Lemma poll_jiffies (evs : list hw_event) : forall (w : world) (k : nat) (s : sample),
  0 <= jiffies w < 2 ^ 32 ->
  poll evs w !! k = Some s ->
  jiffies (pre s) = u32 (jiffies w + ticks_before k evs).
Proof.
  induction evs as [|e evs IH]; intros w k s Hj Hk;
    rewrite poll_unfold in Hk; destruct k as [|k]; cbn [lookup list_lookup] in Hk;
    try discriminate.
  - injection Hk as <-. cbn. rewrite Z.add_0_r. symmetry. apply u32_small, Hj.
  - injection Hk as <-. cbn. rewrite Z.add_0_r. symmetry. apply u32_small, Hj.
  - rewrite (IH (env_step e (snd (counter_show w))) k s); [|apply u32_range|exact Hk].
    rewrite counter_show_eq. cbn [snd env_step jiffies].
    rewrite u32_add_l, ticks_before_cons. f_equal. lia.
Qed.

Lemma u32_sub_l a b : u32 (u32 a - b) = u32 (a - b).
Proof. unfold u32. apply Zminus_mod_idemp_l. Qed.

(** X8.  The mean period shown after a run of reads that started a telemetry
    epoch at a nonzero tick count: the ticks elapsed between the first and
    the last read, times 1000, divided by HZ and then by the number of reads
    (not by the number of intervals between them), each division rounding
    down.  The tick counter wrapping past 2^32 in between does no harm; the
    elapsed ticks times 1000 have to fit 32 bits. *)
Theorem mean_period_after_poll (HZ : Z) (evs : list hw_event) (w : world)
    (k : nat) (s : sample) :
  0 < HZ ->
  first_access (odo w) = 0 -> nb_access (odo w) = 0 ->
  0 < jiffies w < 2 ^ 32 ->
  0 <= ticks_before k evs -> ticks_before k evs * 1000 < 2 ^ 32 ->
  Z.of_nat k + 1 < 2 ^ 32 ->
  poll evs w !! k = Some s ->
  fst (fst (mean_period_show HZ (post s)))
  = ticks_before k evs * 1000 / HZ / (Z.of_nat k + 1).
Proof.
  intros HHZ Hfirst Hnb Hj Hnn Hfit Hk Hs.
  destruct (poll_telemetry evs w (jiffies w) k s) as (Hf & Hl & Hn);
    [lia | rewrite Hfirst; reflexivity | exact Hs |].
  rewrite (poll_jiffies evs w k s) in Hl by (try lia; exact Hs).
  rewrite Hnb in Hn. rewrite u32_small in Hn by lia.
  unfold mean_period_show, bind, get_odo, ret. cbn [fst snd].
  rewrite Hf, Hl, Hn.
  destruct (Z.leb_spec (0 + Z.of_nat k + 1) 0); [lia|].
  rewrite u32_sub_l.
  replace (jiffies w + ticks_before k evs - jiffies w) with (ticks_before k evs) by lia.
  rewrite (u32_small (ticks_before k evs)) by lia.
  rewrite u32_small by lia. f_equal; lia.
Qed.

Lemma mean_period_after_poll_witness :
  (0 < 100 /\ first_access (odo world0) = 0 /\ nb_access (odo world0) = 0 /\
   0 < jiffies world0 < 2 ^ 32 /\
   0 <= ticks_before 2 some_events /\ ticks_before 2 some_events * 1000 < 2 ^ 32 /\
   Z.of_nat 2 + 1 < 2 ^ 32 /\
   poll some_events world0 !! 2%nat = Some third_sample) /\
  fst (fst (mean_period_show 100 (post third_sample))) = 13.
Proof.
  assert (H1 : 0 < 100) by lia.
  assert (H2 : first_access (odo world0) = 0) by (vm_compute; reflexivity).
  assert (H3 : nb_access (odo world0) = 0) by (vm_compute; reflexivity).
  assert (H4 : 0 < jiffies world0 < 2 ^ 32) by (vm_compute; split; reflexivity).
  assert (H5 : 0 <= ticks_before 2 some_events) by (vm_compute; congruence).
  assert (H6 : ticks_before 2 some_events * 1000 < 2 ^ 32) by (vm_compute; reflexivity).
  assert (H7 : Z.of_nat 2 + 1 < 2 ^ 32) by (vm_compute; reflexivity).
  assert (H8 : poll some_events world0 !! 2%nat = Some third_sample)
    by (vm_compute; reflexivity).
  split; [repeat split; try assumption; apply H4|].
  rewrite (mean_period_after_poll 100 some_events world0 2 third_sample
             H1 H2 H3 H4 H5 H6 H7 H8).
  vm_compute. reflexivity.
Defined.

(** ** Loading and unloading *)





Lemma array_get_outside (a : list Z) (i : Z) :
  i < 0 \/ Z.of_nat (length a) <= i -> array_get a i = None.
Proof.
  intros H. unfold array_get. destruct (Z.ltb_spec i 0); [reflexivity|].
  apply lookup_ge_None. lia.
Qed.

(** X10.  A timer number that comes from the device tree is used as it is,
    without the range check of the module parameter.  Once the allocation
    has succeeded, a number below 1 or above 6 indexes the offset table
    outside its bounds; 6 gets past the offset table and, when the region
    and the mapping succeed, indexes the pin table outside its bounds. *)
Theorem odo_init_dt_unchecked (gpt_id t : Z) (p : platform) (w0 : world) :
  dt_timer p = Some t -> kzalloc_ok p = true ->
  (s32 t < 1 \/ 6 < s32 t ->
   odo_init gpt_id p w0 = OutOfBounds "offset" (s32 t - 1)) /\
  (s32 t = 6 -> mem_region_ok p = true -> ioremap_ok p = true ->
   odo_init gpt_id p w0 = OutOfBounds "gpio" 6).
Proof.
  intros Hdt Hk. unfold odo_init. rewrite Hdt, Hk. cbv zeta. cbn [negb]. split.
  - intros Hout. rewrite array_get_outside; [reflexivity|]. cbn. lia.
  - intros -> Hm Hi. rewrite Hm, Hi. reflexivity.
Qed.

Lemma odo_init_dt_unchecked_witness :
  (dt_timer (Platform (Some 0) true true true 0 true true) = Some 0 /\
   kzalloc_ok (Platform (Some 0) true true true 0 true true) = true) /\
  odo_init 2 (Platform (Some 0) true true true 0 true true) world0
  = OutOfBounds "offset" (-1).
Proof.
  split; [split; reflexivity|].
  apply (proj1 (odo_init_dt_unchecked 2 0
                  (Platform (Some 0) true true true 0 true true) world0
                  eq_refl eq_refl)).
  left. vm_compute. reflexivity.
Defined.

(** X11.  Without a device-tree node: the module parameter indexes the pin
    table for the log message before it is range-checked, so a number
    outside 0..5 is read outside the table although the check would have
    rejected it (or, for 6, accepts it); 0 and 1 are rejected with -EINVAL
    before anything is acquired. *)
Theorem odo_init_fallback (gpt_id : Z) (p : platform) (w0 : world) :
  dt_timer p = None ->
  (gpt_id < 0 \/ 5 < gpt_id ->
   odo_init gpt_id p w0 = OutOfBounds "gpio" gpt_id) /\
  (0 <= gpt_id <= 1 ->
   odo_init_run gpt_id p w0 = (Failed (- EINVAL), [], vmem w0)).
Proof.
  intros Hdt. unfold odo_init, odo_init_run. rewrite Hdt. cbv zeta. split.
  - intros Hout. rewrite array_get_outside; [reflexivity|]. cbn. lia.
  - intros Hlow.
    assert (Hc : gpt_id = 0 \/ gpt_id = 1) by lia.
    destruct Hc as [-> | ->]; reflexivity.
Qed.

Lemma odo_init_fallback_witness :
  dt_timer (Platform None true true true 0 true true) = None /\
  odo_init 7 (Platform None true true true 0 true true) world0
  = OutOfBounds "gpio" 7.
Proof.
  split; [reflexivity|].
  apply (proj1 (odo_init_fallback 7 (Platform None true true true 0 true true)
                  world0 eq_refl)).
  right. lia.
Defined.

(** [odo_init_run] returns what [odo_init] returns. *)
Lemma odo_init_run_result (gpt_id : Z) (p : platform) (w0 : world) :
  fst (fst (odo_init_run gpt_id p w0)) = odo_init gpt_id p w0.
Proof.
  unfold odo_init_run, odo_init. cbv zeta.
  destruct (dt_timer p) as [t|].
  - destruct (kzalloc_ok p); [|reflexivity]. cbn [negb].
    destruct (array_get MEM_GPT_OFFSET (s32 t - 1)); [|reflexivity].
    destruct (mem_region_ok p); [|reflexivity]. cbn [negb].
    destruct (ioremap_ok p); [|reflexivity]. cbn [negb].
    destruct (array_get GPT_TIN (s32 t)); [|reflexivity].
    destruct (gpio_request_rc p <? 0); [reflexivity|].
    destruct (kobject_ok p); [|reflexivity]. cbn [negb].
    destruct (sysfs_group_ok p); reflexivity.
  - destruct (array_get GPT_TIN gpt_id) eqn:Hpin; [|reflexivity].
    destruct ((gpt_id <? 2) || (6 <? gpt_id)); [reflexivity|].
    destruct (kzalloc_ok p); [|reflexivity]. cbn [negb].
    destruct (array_get MEM_GPT_OFFSET (gpt_id - 1)); [|reflexivity].
    destruct (mem_region_ok p); [|reflexivity]. cbn [negb].
    destruct (ioremap_ok p); [|reflexivity]. cbn [negb].
    rewrite Hpin.
    destruct (gpio_request_rc p <? 0); [reflexivity|].
    destruct (kobject_ok p); [|reflexivity]. cbn [negb].
    destruct (sysfs_group_ok p); reflexivity.
Qed.

Lemma reg_peek_vmem (w : world) off : reg_word (vmem w) off = reg_peek w off.
Proof. reflexivity. Qed.

Ltac held_after_run :=
  cbn [held_after app free_alloc release_region unmap free_gpio put_kobj];
  repeat (case_decide; [|congruence]);
  cbn [held_after].

(** X12.  Every failure of [odo_init] returns a negative errno and has given
    back, in the reverse order of their acquisition, all the resources taken
    up to the failing step: nothing stays allocated, reserved, mapped or
    requested. *)
Theorem odo_init_failure_releases (gpt_id : Z) (p : platform) (w0 : world) (rc : Z) :
  odo_init gpt_id p w0 = Failed rc ->
  rc < 0 /\
  held_after (snd (fst (odo_init_run gpt_id p w0))) [] = Some [].
Proof.
  rewrite <- odo_init_run_result. unfold odo_init_run. cbv zeta.
  destruct (dt_timer p) as [t|].
  - destruct (kzalloc_ok p); cbn [negb fst snd];
      [|intros [= <-]; split; reflexivity].
    destruct (array_get MEM_GPT_OFFSET (s32 t - 1)) as [off|]; [|discriminate].
    destruct (mem_region_ok p); cbn [negb fst snd];
      [|intros [= <-]; split; [reflexivity|held_after_run; reflexivity]].
    destruct (ioremap_ok p); cbn [negb fst snd];
      [|intros [= <-]; split; [reflexivity|held_after_run; reflexivity]].
    destruct (array_get GPT_TIN (s32 t)) as [pin|]; [|discriminate].
    destruct (Z.ltb_spec (gpio_request_rc p) 0); cbn [fst snd];
      [intros [= <-]; split; [assumption|held_after_run; reflexivity]|].
    destruct (kobject_ok p); cbn [negb fst snd];
      [|intros [= <-]; split; [reflexivity|held_after_run; reflexivity]].
    destruct (sysfs_group_ok p); cbn [negb fst snd];
      [discriminate|intros [= <-]; split; [reflexivity|held_after_run; reflexivity]].
  - destruct (array_get GPT_TIN gpt_id) as [pin|] eqn:Hpin; [|discriminate].
    destruct ((gpt_id <? 2) || (6 <? gpt_id)); cbn [fst snd];
      [intros [= <-]; split; reflexivity|].
    destruct (kzalloc_ok p); cbn [negb fst snd];
      [|intros [= <-]; split; reflexivity].
    destruct (array_get MEM_GPT_OFFSET (gpt_id - 1)) as [off|]; [|discriminate].
    destruct (mem_region_ok p); cbn [negb fst snd];
      [|intros [= <-]; split; [reflexivity|held_after_run; reflexivity]].
    destruct (ioremap_ok p); cbn [negb fst snd];
      [|intros [= <-]; split; [reflexivity|held_after_run; reflexivity]].
    rewrite Hpin.
    destruct (Z.ltb_spec (gpio_request_rc p) 0); cbn [fst snd];
      [intros [= <-]; split; [assumption|held_after_run; reflexivity]|].
    destruct (kobject_ok p); cbn [negb fst snd];
      [|intros [= <-]; split; [reflexivity|held_after_run; reflexivity]].
    destruct (sysfs_group_ok p); cbn [negb fst snd];
      [discriminate|intros [= <-]; split; [reflexivity|held_after_run; reflexivity]].
Qed.

Lemma odo_init_failure_releases_witness :
  odo_init 3 (Platform None true true true 0 true false) world0 = Failed (- ENOMEM) /\
  snd (fst (odo_init_run 3 (Platform None true true true 0 true false) world0))
  = [Acquire ResAlloc; Acquire (ResRegion 0x10005000 0x18);
     Acquire (ResMap 0x10005000 0x18); Acquire (ResGpio 91); Acquire ResKobj;
     Release ResKobj; Release (ResGpio 91); Release (ResMap 0x10005000 0x18);
     Release (ResRegion 0x10005000 0x18); Release ResAlloc] /\
  held_after (snd (fst (odo_init_run 3 (Platform None true true true 0 true false)
                          world0))) [] = Some [].
Proof.
  assert (H : odo_init 3 (Platform None true true true 0 true false) world0
              = Failed (- ENOMEM)) by (vm_compute; reflexivity).
  split; [exact H|]. split; [vm_compute; reflexivity|].
  exact (proj2 (odo_init_failure_releases _ _ _ _ H)).
Defined.

(** X13.  After an [odo_init] that returned 0 having read its tables in
    bounds, six resources are held: allocation, memory region, mapping,
    GPIO pin, kobject and sysfs group.  [odo_exit] reads the module
    parameter [gpt_id] again, which can be written while the module is
    loaded.  With a value [g'] whose entry in the pin table is the pin that
    was requested (the value [odo_init] left, when it was not changed) it
    reads the table in bounds and gives all six back, most recent first,
    naming the very pin and region [odo_init] took: nothing is held
    afterwards.  With a value that names another pin it frees that pin,
    which was never requested, and never frees the one that was; with a
    value outside 0..5 it reads outside the pin table. *)
Theorem odo_init_exit_balanced (gpt_id : Z) (p : platform) (w0 w : world) (g : Z) :
  odo_init gpt_id p w0 = Loaded g w ->
  let calls := snd (fst (odo_init_run gpt_id p w0)) in
  let base := gpt_base (odo w) in
  exists pin,
    array_get GPT_TIN g = Some pin /\
    held_after calls [] =
      Some [ResGroup; ResKobj; ResGpio pin;
            ResMap base MEM_LENGTH; ResRegion base MEM_LENGTH; ResAlloc] /\
    (forall g', array_get GPT_TIN g' = Some pin ->
       odo_exit g' (odo w) =
         ([Release ResGroup; Release ResKobj; Release (ResGpio pin);
           Release (ResMap base MEM_LENGTH); Release (ResRegion base MEM_LENGTH);
           Release ResAlloc], true) /\
       held_after (calls ++ fst (odo_exit g' (odo w))) [] = Some []) /\
    (forall g' pin', array_get GPT_TIN g' = Some pin' -> pin' <> pin ->
       In (Release (ResGpio pin')) (fst (odo_exit g' (odo w))) /\
       ~ In (Release (ResGpio pin)) (fst (odo_exit g' (odo w))) /\
       held_after (calls ++ fst (odo_exit g' (odo w))) [] = None) /\
    (forall g', (g' < 0 \/ 5 < g') -> snd (odo_exit g' (odo w)) = false).
Proof.
  intros H calls base.
  assert (Hrun : exists pin off,
    array_get GPT_TIN g = Some pin /\
    odo w = Mk_odo (Z.lor MEM_BASE off) 0 0 0 0 0 /\
    calls = [Acquire ResAlloc; Acquire (ResRegion (Z.lor MEM_BASE off) MEM_LENGTH);
             Acquire (ResMap (Z.lor MEM_BASE off) MEM_LENGTH); Acquire (ResGpio pin);
             Acquire ResKobj; Acquire ResGroup]).
  { subst calls base. revert H.
    rewrite <- odo_init_run_result. unfold odo_init_run. cbv zeta.
    assert (Hodo : forall o regs now log,
              odo (snd (odo_timer_setup (World o regs now log))) = o).
    { intros o regs now log.
      destruct (odo_timer_setup_vmem (World o regs now log)) as (_ & _ & _ & _ & Ho & _).
      exact Ho. }
    destruct (dt_timer p) as [t|].
    - destruct (kzalloc_ok p); cbn [negb fst snd]; [|discriminate].
      destruct (array_get MEM_GPT_OFFSET (s32 t - 1)) as [off|]; [|discriminate].
      destruct (mem_region_ok p); cbn [negb fst snd]; [|discriminate].
      destruct (ioremap_ok p); cbn [negb fst snd]; [|discriminate].
      destruct (array_get GPT_TIN (s32 t)) as [pin|] eqn:Hpin; [|discriminate].
      destruct (gpio_request_rc p <? 0); cbn [fst snd]; [discriminate|].
      destruct (kobject_ok p); cbn [negb fst snd]; [|discriminate].
      destruct (sysfs_group_ok p); cbn [negb fst snd]; [|discriminate].
      remember (snd (odo_timer_setup _)) as wcfg eqn:Hw.
      intros [= <- <-]. exists pin, off.
      split; [exact Hpin|]. split; [rewrite Hw; apply Hodo|reflexivity].
    - destruct (array_get GPT_TIN gpt_id) as [pin|] eqn:Hpin; [|discriminate].
      destruct ((gpt_id <? 2) || (6 <? gpt_id)); cbn [fst snd]; [discriminate|].
      destruct (kzalloc_ok p); cbn [negb fst snd]; [|discriminate].
      destruct (array_get MEM_GPT_OFFSET (gpt_id - 1)) as [off|]; [|discriminate].
      destruct (mem_region_ok p); cbn [negb fst snd]; [|discriminate].
      destruct (ioremap_ok p); cbn [negb fst snd]; [|discriminate].
      rewrite Hpin.
      destruct (gpio_request_rc p <? 0); cbn [fst snd]; [discriminate|].
      destruct (kobject_ok p); cbn [negb fst snd]; [|discriminate].
      destruct (sysfs_group_ok p); cbn [negb fst snd]; [|discriminate].
      remember (snd (odo_timer_setup _)) as wcfg eqn:Hw.
      intros [= <- <-]. exists pin, off.
      split; [exact Hpin|]. split; [rewrite Hw; apply Hodo|reflexivity]. }
  destruct Hrun as (pin & off & Hpin & Ho & Hcalls).
  clearbody calls. subst calls. subst base. rewrite Ho. cbn [gpt_base].
  clear H Ho. exists pin. split; [exact Hpin|].
  split; [reflexivity|]. split; [|split].
  - intros g' Hg'. unfold odo_exit. rewrite Hg'. cbn [gpt_base fst snd app].
    split; [reflexivity|]. held_after_run. reflexivity.
  - intros g' pin' Hg' Hne. unfold odo_exit. rewrite Hg'. cbn [gpt_base fst snd app].
    split; [right; right; left; reflexivity|].
    split.
    + cbn [In]. intros Hin.
      repeat (destruct Hin as [Hin|Hin]; [congruence|]). exact Hin.
    + cbn [held_after]. repeat case_decide; try reflexivity; congruence.
  - intros g' Hout. unfold odo_exit. rewrite array_get_outside; [reflexivity|].
    cbn. lia.
Qed.

Lemma odo_init_exit_balanced_witness :
  odo_init 2 (Platform None true true true 0 true true)
           (World (Mk_odo 0 0 0 0 0 0) ∅ 1000 []) = Loaded 2 world0 /\
  odo_exit 2 (odo world0)
  = ([Release ResGroup; Release ResKobj; Release (ResGpio 79);
      Release (ResMap 0x10004000 0x18); Release (ResRegion 0x10004000 0x18);
      Release ResAlloc], true) /\
  fst (odo_exit 3 (odo world0))
  = [Release ResGroup; Release ResKobj; Release (ResGpio 91);
     Release (ResMap 0x10004000 0x18); Release (ResRegion 0x10004000 0x18);
     Release ResAlloc].
Proof.
  assert (H : odo_init 2 (Platform None true true true 0 true true)
                (World (Mk_odo 0 0 0 0 0 0) ∅ 1000 []) = Loaded 2 world0)
    by (vm_compute; reflexivity).
  split; [exact H|].
  destruct (odo_init_exit_balanced _ _ _ _ _ H) as (pin & Hpin & _ & Hsame & _).
  split; [|vm_compute; reflexivity].
  assert (Hp : pin = 79) by (vm_compute in Hpin; congruence).
  rewrite Hp in Hsame.
  rewrite (proj1 (Hsame 2 eq_refl)). vm_compute. reflexivity.
Defined.

(** X14.  Every [odo_init] that, having read its tables in bounds, fails
    after it has requested its GPIO pin, whichever way the timer number was
    found, fails after the timer setup, at the kobject or at the sysfs
    group: it returns -ENOMEM with every resource given back, but leaves
    the timer as the setup configured it, enabled and counting. *)
Theorem odo_init_late_failure (gpt_id : Z) (p : platform) (w0 : world) (rc pin : Z) :
  odo_init gpt_id p w0 = Failed rc ->
  In (Acquire (ResGpio pin)) (snd (fst (odo_init_run gpt_id p w0))) ->
  let r := odo_init_run gpt_id p w0 in
  rc = - ENOMEM /\
  kobject_ok p && sysfs_group_ok p = false /\
  held_after (snd (fst r)) [] = Some [] /\
  reg_word (snd r) TCTL_REG = tctl_configured (reg_peek w0 TCTL_REG) /\
  Z.testbit (reg_word (snd r) TCTL_REG) (fst TCTL_TEN) = true /\
  reg_word (snd r) TCMP_REG = 0xFFFFFFFF.
Proof.
  intros H Hin r. subst r. revert H Hin.
  rewrite <- odo_init_run_result.
  assert (Hregs : forall o,
    let w := snd (odo_timer_setup (World o (vmem w0) (jiffies w0) (io_log w0))) in
    reg_word (vmem w) TCTL_REG = tctl_configured (reg_peek w0 TCTL_REG) /\
    Z.testbit (reg_word (vmem w) TCTL_REG) (fst TCTL_TEN) = true /\
    reg_word (vmem w) TCMP_REG = 0xFFFFFFFF).
  { intros o w.
    destruct (odo_timer_setup_vmem (World o (vmem w0) (jiffies w0) (io_log w0)))
      as (Hc' & _ & Hcm & _).
    fold w in Hc', Hcm.
    rewrite !reg_peek_vmem, Hc', Hcm.
    split; [reflexivity|]. split; [|reflexivity].
    apply (tctl_configured_testbit _ 0). lia. }
  assert (Hnot : forall l, (forall x, In x l -> x <> Acquire (ResGpio pin)) ->
                           In (Acquire (ResGpio pin)) l -> False)
    by (intros l Hl Hi; exact (Hl _ Hi eq_refl)).
  unfold odo_init_run. cbv zeta.
  destruct (dt_timer p) as [t|].
  - destruct (kzalloc_ok p); cbn [negb fst snd];
      [|intros _ []].
    destruct (array_get MEM_GPT_OFFSET (s32 t - 1)) as [off|]; [|discriminate].
    destruct (mem_region_ok p); cbn [negb fst snd];
      [|intros _ Hin; exfalso; cbn in Hin; intuition discriminate].
    destruct (ioremap_ok p); cbn [negb fst snd];
      [|intros _ Hin; exfalso; cbn in Hin; intuition discriminate].
    destruct (array_get GPT_TIN (s32 t)) as [pin'|]; [|discriminate].
    destruct (Z.ltb_spec (gpio_request_rc p) 0); cbn [fst snd];
      [intros _ Hin; exfalso; cbn in Hin; intuition discriminate|].
    specialize (Hregs (Mk_odo (Z.lor MEM_BASE off) 0 0 0 0 0)). cbv zeta in Hregs.
    remember (snd (odo_timer_setup _)) as w eqn:Hw. clear Hw.
    destruct (kobject_ok p), (sysfs_group_ok p); cbn [negb fst snd andb];
      try discriminate; intros [= <-] _;
      (split; [reflexivity|]; split; [reflexivity|];
       split; [held_after_run; reflexivity|exact Hregs]).
  - destruct (array_get GPT_TIN gpt_id) as [pin'|] eqn:Hpin; [|discriminate].
    destruct ((gpt_id <? 2) || (6 <? gpt_id)); cbn [fst snd];
      [intros _ []|].
    destruct (kzalloc_ok p); cbn [negb fst snd];
      [|intros _ []].
    destruct (array_get MEM_GPT_OFFSET (gpt_id - 1)) as [off|]; [|discriminate].
    destruct (mem_region_ok p); cbn [negb fst snd];
      [|intros _ Hin; exfalso; cbn in Hin; intuition discriminate].
    destruct (ioremap_ok p); cbn [negb fst snd];
      [|intros _ Hin; exfalso; cbn in Hin; intuition discriminate].
    rewrite Hpin.
    destruct (Z.ltb_spec (gpio_request_rc p) 0); cbn [fst snd];
      [intros _ Hin; exfalso; cbn in Hin; intuition discriminate|].
    specialize (Hregs (Mk_odo (Z.lor MEM_BASE off) 0 0 0 0 0)). cbv zeta in Hregs.
    remember (snd (odo_timer_setup _)) as w eqn:Hw. clear Hw.
    destruct (kobject_ok p), (sysfs_group_ok p); cbn [negb fst snd andb];
      try discriminate; intros [= <-] _;
      (split; [reflexivity|]; split; [reflexivity|];
       split; [held_after_run; reflexivity|exact Hregs]).
Qed.

Lemma odo_init_late_failure_witness :
  (odo_init 1 (Platform (Some 1) true true true 0 false true)
     (World (Mk_odo 0 0 0 0 0 0) ∅ 1000 []) = Failed (- ENOMEM) /\
   In (Acquire (ResGpio 79))
      (snd (fst (odo_init_run 1 (Platform (Some 1) true true true 0 false true)
                   (World (Mk_odo 0 0 0 0 0 0) ∅ 1000 []))))) /\
  Z.testbit (reg_word (snd (odo_init_run 1 (Platform (Some 1) true true true 0 false true)
                              (World (Mk_odo 0 0 0 0 0 0) ∅ 1000 []))) TCTL_REG) 0
  = true.
Proof.
  assert (H1 : odo_init 1 (Platform (Some 1) true true true 0 false true)
                 (World (Mk_odo 0 0 0 0 0 0) ∅ 1000 []) = Failed (- ENOMEM))
    by (vm_compute; reflexivity).
  assert (H2 : In (Acquire (ResGpio 79))
      (snd (fst (odo_init_run 1 (Platform (Some 1) true true true 0 false true)
                   (World (Mk_odo 0 0 0 0 0 0) ∅ 1000 [])))))
    by (vm_compute; right; right; right; left; reflexivity).
  split; [split; assumption|].
  exact (proj1 (proj2 (proj2 (proj2 (proj2
    (odo_init_late_failure _ _ _ _ _ H1 H2)))))).
Defined.

(** ** A wrap in the middle of a read *)

(** The rest of a read whose status word had the compare flag down. *)
Lemma reader_run_no_carry (st c : Z) (w : world) :
  (Z.land st TSTAT_COMP =? 0) = true ->
  let r := reader_run 8 (Reader AtTest st c) w in
  counter_64 (fst r) =
    u64 (u64 (Z.shiftl (u64 (counter_ms (odo w))) 32) + reg_peek w TCN_REG) /\
  vmem (snd r) = vmem w /\ counter_ms (odo (snd r)) = counter_ms (odo w).
Proof.
  intros Hst r. subst r.
  destruct w as [[base ms ls nb fa la] regs now log]. run_reader.
  rewrite Hst. run_reader.
  rewrite u32_s32, (u32_small (reg_word regs TCN_REG)) by apply reg_word_range.
  destruct (fa =? 0); run_reader; repeat split.
Qed.

(** X15.  The status register and the count register are read one after the
    other.  When the count wraps in between, the read has missed the flag
    but sees the wrapped count: the value it returns is 2^32 below the
    pulses counted, lower than what a read before those pulses would have
    returned.  The flag stays up, and the next read returns the right value
    again. *)
Theorem counter_show_torn_low (e : hw_event) (w : world) :
  Z.testbit (reg_peek w TCTL_REG) (fst TCTL_TEN) = true ->
  flag_set w = false ->
  0 <= counter_ms (odo w) < 2 ^ 32 - 1 ->
  at_most_one_wrap e ->
  2 ^ 32 <= reg_peek w TCN_REG + pulses e ->
  let before := counter_ms (odo w) * 2 ^ 32 + reg_peek w TCN_REG in
  let r := counter_show_torn e w in
  fst (fst (counter_show w)) = before /\
  counter_64 (fst r) = before + pulses e - 2 ^ 32 /\
  counter_64 (fst r) < before /\
  flag_set (snd r) = true /\
  fst (fst (counter_show (snd r))) = before + pulses e.
Proof.
  intros Hen Hflag Hms He Hwrap before r. subst r before.
  unfold at_most_one_wrap in He.
  pose proof (reg_word_range (vmem w) TCN_REG) as Hr. fold (reg_peek w TCN_REG) in Hr.
  assert (Hfirst : fst (fst (counter_show w))
                   = counter_ms (odo w) * 2 ^ 32 + reg_peek w TCN_REG).
  { destruct (counter_show_no_overflow w) as [-> _];
      rewrite ?(carry_flag_clear w Hflag); lia. }
  unfold counter_show_torn. rewrite bind_eq.
  set (w1 := snd (reader_run 1 reader_start w)).
  assert (Hst : fst (reader_run 1 reader_start w)
                = Reader AtTest (reg_peek w TSTAT_REG) 0) by reflexivity.
  rewrite Hst.
  assert (Hen1 : Z.testbit (reg_peek w1 TCTL_REG) (fst TCTL_TEN) = true) by exact Hen.
  assert (Hcn1 : reg_peek w1 TCN_REG = reg_peek w TCN_REG) by reflexivity.
  assert (Ho1 : odo w1 = odo w) by reflexivity.
  destruct (env_step_wrap e w1 Hen1) as (Ho2 & _ & Hcn2 & Hc2);
    [rewrite Hcn1; exact Hwrap|].
  set (w2 := env_step e w1) in *.
  rewrite Hcn1 in Hcn2. rewrite Ho1 in Ho2.
  assert (Hu : u32 (reg_peek w TCN_REG + pulses e)
               = reg_peek w TCN_REG + pulses e - 2 ^ 32).
  { unfold u32. rewrite (Z.mod_eq _ (2 ^ 32)) by lia.
    assert ((reg_peek w TCN_REG + pulses e) / 2 ^ 32 = 1) as ->
      by (symmetry;
          apply Z.div_unique with (r := reg_peek w TCN_REG + pulses e - 2 ^ 32);
          lia).
    lia. }
  rewrite Hu in Hcn2.
  assert (Hland : (Z.land (reg_peek w TSTAT_REG) TSTAT_COMP =? 0) = true).
  { unfold flag_set in Hflag. apply negb_false_iff in Hflag. exact Hflag. }
  destruct (reader_run_no_carry (reg_peek w TSTAT_REG) 0 w2 Hland) as (Hv & Hregs & Hms3).
  set (r3 := reader_run 8 (Reader AtTest (reg_peek w TSTAT_REG) 0) w2) in *.
  rewrite Ho2, Hcn2 in Hv. rewrite Ho2 in Hms3.
  rewrite counter_64_value in Hv by lia.
  assert (Hflag3 : flag_set (snd r3) = true).
  { unfold flag_set, reg_peek. rewrite Hregs.
    unfold carry, flag_set, reg_peek in Hc2.
    destruct (negb _); [reflexivity|discriminate]. }
  assert (Hcn3 : reg_peek (snd r3) TCN_REG = reg_peek w TCN_REG + pulses e - 2 ^ 32).
  { unfold reg_peek at 1. rewrite Hregs. exact Hcn2. }
  split; [exact Hfirst|]. split; [rewrite Hv; lia|]. split; [rewrite Hv; lia|].
  split; [exact Hflag3|].
  destruct (counter_show_no_overflow (snd r3)) as [-> _].
  - rewrite Hms3. lia.
  - rewrite Hms3. unfold carry. rewrite Hflag3. lia.
  - rewrite Hms3, Hcn3. unfold carry. rewrite Hflag3. lia.
Qed.

Lemma counter_show_torn_low_witness :
  (Z.testbit (reg_peek world_near_wrap TCTL_REG) (fst TCTL_TEN) = true /\
   flag_set world_near_wrap = false /\
   0 <= counter_ms (odo world_near_wrap) < 2 ^ 32 - 1 /\
   at_most_one_wrap (HwEvent 12 0) /\
   2 ^ 32 <= reg_peek world_near_wrap TCN_REG + pulses (HwEvent 12 0)) /\
  fst (fst (counter_show world_near_wrap)) = 0x7FFFFFFF6 /\
  counter_64 (fst (counter_show_torn (HwEvent 12 0) world_near_wrap)) = 0x700000002.
Proof.
  assert (H1 : Z.testbit (reg_peek world_near_wrap TCTL_REG) (fst TCTL_TEN) = true)
    by (vm_compute; reflexivity).
  assert (H2 : flag_set world_near_wrap = false) by (vm_compute; reflexivity).
  assert (H3 : 0 <= counter_ms (odo world_near_wrap) < 2 ^ 32 - 1)
    by (vm_compute; split; [congruence|reflexivity]).
  assert (H4 : at_most_one_wrap (HwEvent 12 0))
    by (unfold at_most_one_wrap; simpl; lia).
  assert (H5 : 2 ^ 32 <= reg_peek world_near_wrap TCN_REG + pulses (HwEvent 12 0))
    by (vm_compute; congruence).
  split; [repeat split; try assumption; apply H3|].
  destruct (counter_show_torn_low (HwEvent 12 0) world_near_wrap H1 H2 H3 H4 H5)
    as (Hb & Hv & _).
  split; [rewrite Hb | rewrite Hv]; vm_compute; reflexivity.
Defined.
